(** * mailpitclient: the request engine, the query options and the flexible
    decoding types, embedded from the Go sources.

    Layout: the parts of Go's standard library the client calls (strings,
    strconv, encoding/base64, net/url, encoding/json, the part of net/http that
    builds a request) come first, each in a module named after its package;
    then errors.go, the data types with their methods, client.go and the
    operations; the lemmas and theorems follow the definitions.

    Conventions.
    - A Go [string] or [[]byte] is a [string] (a sequence of 8-bit [ascii]).
    - A Go [int] is a [Z] in the 64-bit range; where the code increments one
      the wrap-around is written out ([wrap_int]).
    - A nil pointer, nil slice or nil error is [None].
    - A library error keeps its class and its text ([LibError]). *)

From Stdlib Require Import ZArith Ascii String List Lia Bool.
From stdpp Require Import gmap strings list fin_maps sorting.

Local Open Scope Z_scope.

(** ** Bytes *)

Definition byte_val (c : ascii) : Z := Z.of_N (N_of_ascii c).
Definition byte_of (z : Z) : ascii := ascii_of_N (Z.to_N (z mod 256)).

Definition in_range (lo hi c : ascii) : bool :=
  (byte_val lo <=? byte_val c) && (byte_val c <=? byte_val hi).

Definition is_lower (c : ascii) : bool := in_range "a" "z" c.
Definition is_upper (c : ascii) : bool := in_range "A" "Z" c.
Definition is_digit (c : ascii) : bool := in_range "0" "9" c.
Definition is_alpha (c : ascii) : bool := is_lower c || is_upper c.

Definition byte_eqb (a b : ascii) : bool := Ascii.eqb a b.

(** Membership of a byte in a set of bytes given as a string. *)
Fixpoint byte_in (c : ascii) (set : string) : bool :=
  match set with
  | EmptyString => false
  | String d rest => byte_eqb c d || byte_in c rest
  end.

Definition quote_char : ascii := ascii_of_nat 34.
Definition backslash : ascii := ascii_of_nat 92.
Definition apostrophe : ascii := ascii_of_nat 39.

Definition str1 (c : ascii) : string := String c EmptyString.

(** Go's 64-bit [int]. *)
Definition int_min : Z := - 2 ^ 63.
Definition int_max : Z := 2 ^ 63 - 1.
Definition is_int (z : Z) : bool := (int_min <=? z) && (z <=? int_max).
Definition wrap_int (z : Z) : Z := (z + 2 ^ 63) mod 2 ^ 64 - 2 ^ 63.

(** ** Errors of the standard library

    The class of the error and the text its [Error()] method returns. *)
Inductive LibError : Type :=
| context_Canceled
| context_DeadlineExceeded
| json_SyntaxError (msg : string)
| json_UnmarshalTypeError (Value Type_ Struct Field : string)
| json_InvalidUnmarshalError
| url_Error (Op URL_ : string) (Err : LibError)
| errors_New (text : string).

(** ** package strings *)
Module strings.

Definition HasPrefix (s p : string) : bool := String.prefix p s.

Fixpoint ContainsByte (s : string) (c : ascii) : bool :=
  match s with
  | EmptyString => false
  | String d rest => byte_eqb d c || ContainsByte rest c
  end.

(** [strings.Cut(s, sep)] for a one-byte separator. *)
Fixpoint Cut (s : string) (sep : ascii) : string * string * bool :=
  match s with
  | EmptyString => (EmptyString, EmptyString, false)
  | String d rest =>
      if byte_eqb d sep then (EmptyString, rest, true)
      else let '(b, a, found) := Cut rest sep in (String d b, a, found)
  end.

(** [strings.LastIndex(s, sep)] for a one-byte separator, as the two
    halves [s[:i]] and [s[i+1:]]; [None] when [sep] does not occur. *)
Fixpoint CutLast (s : string) (sep : ascii) : option (string * string) :=
  match s with
  | EmptyString => None
  | String d rest =>
      match CutLast rest sep with
      | Some (b, a) => Some (String d b, a)
      | None => if byte_eqb d sep then Some (EmptyString, rest) else None
      end
  end.

(** [strings.Index(s, sub)], as the two halves [s[:i]] and [s[i:]]. *)
Fixpoint SplitAt (s sub : string) : option (string * string) :=
  if String.prefix sub s then Some (EmptyString, s)
  else match s with
       | EmptyString => None
       | String d rest =>
           match SplitAt rest sub with
           | Some (b, a) => Some (String d b, a)
           | None => None
           end
       end.

Fixpoint Count (s : string) (c : ascii) : nat :=
  match s with
  | EmptyString => O
  | String d rest => ((if byte_eqb d c then 1 else 0) + Count rest c)%nat
  end.

Definition HasSuffixByte (s : string) (c : ascii) : bool :=
  match String.get (String.length s - 1) s with
  | Some d => negb (String.eqb s EmptyString) && byte_eqb d c
  | None => false
  end.

Definition lower_byte (c : ascii) : ascii :=
  if is_upper c then byte_of (byte_val c + 32) else c.

(** [strings.ToLower] on the ASCII letters (the only ones a URL scheme
    can hold). *)
Fixpoint ToLower (s : string) : string :=
  match s with
  | EmptyString => EmptyString
  | String d rest => String (lower_byte d) (ToLower rest)
  end.

(** [strings.Split(s, sep)] for a one-byte separator. *)
Fixpoint Split (s : string) (sep : ascii) : list string :=
  match s with
  | EmptyString => [EmptyString]
  | String d rest =>
      if byte_eqb d sep then EmptyString :: Split rest sep
      else match Split rest sep with
           | seg :: segs => String d seg :: segs
           | [] => [String d EmptyString]
           end
  end.

(** [strings.Join(elems, sep)]. *)
Fixpoint Join (elems : list string) (sep : string) : string :=
  match elems with
  | [] => EmptyString
  | [e] => e
  | e :: rest => e +:+ sep +:+ Join rest sep
  end.

End strings.

(** ** package strconv *)
Module strconv.

Definition digit_char (d : Z) : ascii := byte_of (48 + d).

Fixpoint digits (fuel : nat) (n : Z) (acc : string) : string :=
  match fuel with
  | O => acc
  | S fuel' =>
      let acc' := String (digit_char (n mod 10)) acc in
      if n <? 10 then acc' else digits fuel' (n / 10) acc'
  end.

(** Decimal digits of a natural number; [log2 n + 1] bounds their count. *)
Definition FormatUint (n : Z) : string :=
  digits (S (Z.to_nat (Z.log2 n))) n EmptyString.

(** [strconv.Itoa]. *)
Definition Itoa (i : Z) : string :=
  if i <? 0 then String "-" (FormatUint (- i)) else FormatUint i.

Fixpoint parse_digits (s : string) (acc : Z) : option Z :=
  match s with
  | EmptyString => Some acc
  | String c rest =>
      if is_digit c then parse_digits rest (10 * acc + (byte_val c - 48))
      else None
  end.

(** [strconv.ParseInt(s, 10, 64)]: an optional sign, at least one digit,
    digits only, and a value in the 64-bit range; [None] is an error. *)
Definition ParseInt (s : string) : option Z :=
  let '(neg, body) :=
    match s with
    | String "-" rest => (true, rest)
    | String "+" rest => (false, rest)
    | _ => (false, s)
    end in
  match body with
  | EmptyString => None
  | _ => match parse_digits body 0 with
         | Some n => let v := if neg then - n else n in
                     if is_int v then Some v else None
         | None => None
         end
  end.

Definition lowerhex (d : Z) : ascii :=
  if d <? 10 then byte_of (48 + d) else byte_of (87 + d).

Definition quote_byte (c : ascii) : string :=
  let v := byte_val c in
  if byte_eqb c quote_char then String backslash (str1 quote_char)
  else if byte_eqb c backslash then String backslash (str1 backslash)
  else if v =? 7 then String backslash "a"
  else if v =? 8 then String backslash "b"
  else if v =? 12 then String backslash "f"
  else if v =? 10 then String backslash "n"
  else if v =? 13 then String backslash "r"
  else if v =? 9 then String backslash "t"
  else if v =? 11 then String backslash "v"
  else if (v <? 32) || (v =? 127) then
    String backslash (String "x" (String (lowerhex (v / 16)) (str1 (lowerhex (v mod 16)))))
  else str1 c.

Fixpoint quote_body (s : string) : string :=
  match s with
  | EmptyString => EmptyString
  | String c rest => quote_byte c +:+ quote_body rest
  end.

(** [strconv.Quote], exact on ASCII text. Bytes from 0x80 on are kept as
    they are, where Go keeps the printable runes they encode and escapes
    the other runes and the bytes that are no valid UTF-8, which needs the
    Unicode tables: outside ASCII the text is an approximation. Only the
    texts of errors are built with this function. *)
Definition Quote (s : string) : string :=
  String quote_char (quote_body s +:+ str1 quote_char).

End strconv.

(** ** package encoding/base64 (StdEncoding) *)
Module base64.

Definition encodeStd (v : Z) : ascii :=
  if v <? 26 then byte_of (65 + v)
  else if v <? 52 then byte_of (97 + (v - 26))
  else if v <? 62 then byte_of (48 + (v - 52))
  else if v =? 62 then "+"%char else "/"%char.

Fixpoint EncodeToString (s : string) : string :=
  match s with
  | EmptyString => EmptyString
  | String a EmptyString =>
      let x := byte_val a in
      String (encodeStd (x / 4))
        (String (encodeStd ((x mod 4) * 16)) "==")
  | String a (String b EmptyString) =>
      let x := byte_val a in let y := byte_val b in
      String (encodeStd (x / 4))
        (String (encodeStd ((x mod 4) * 16 + y / 16))
           (String (encodeStd ((y mod 16) * 4)) "="))
  | String a (String b (String c rest)) =>
      let x := byte_val a in let y := byte_val b in let z := byte_val c in
      String (encodeStd (x / 4))
        (String (encodeStd ((x mod 4) * 16 + y / 16))
           (String (encodeStd ((y mod 16) * 4 + z / 64))
              (String (encodeStd (z mod 64)) (EncodeToString rest))))
  end.

End base64.

(** The text of a library error: its [Error()] method. *)
Fixpoint LibError_Error (e : LibError) : string :=
  match e with
  | context_Canceled => "context canceled"
  | context_DeadlineExceeded => "context deadline exceeded"
  | json_SyntaxError msg => msg
  | json_UnmarshalTypeError v t st f =>
      if String.eqb st EmptyString && String.eqb f EmptyString
      then "json: cannot unmarshal " +:+ v +:+ " into Go value of type " +:+ t
      else "json: cannot unmarshal " +:+ v +:+ " into Go struct field "
           +:+ st +:+ "." +:+ f +:+ " of type " +:+ t
  | json_InvalidUnmarshalError => "json: Unmarshal(nil)"
  | url_Error op u err =>
      op +:+ " " +:+ strconv.Quote u +:+ ": " +:+ LibError_Error err
  | errors_New text => text
  end.

(** ** package net/url *)
Module url.

Inductive encoding : Type :=
| encodePath | encodePathSegment | encodeHost | encodeZone
| encodeUserPassword | encodeQueryComponent | encodeFragment.

Definition is_host_mode (mode : encoding) : bool :=
  match mode with encodeHost | encodeZone => true | _ => false end.

Definition is_query_mode (mode : encoding) : bool :=
  match mode with encodeQueryComponent => true | _ => false end.

Definition host_subdelims : string :=
  "!$&'()*+,;=:[]<>" +:+ str1 quote_char.

(** [shouldEscape(c, mode)]. *)
Definition shouldEscape (c : ascii) (mode : encoding) : bool :=
  if is_alpha c || is_digit c then false
  else if is_host_mode mode && byte_in c host_subdelims then false
  else if byte_in c "-_.~" then false
  else if byte_in c "$&+,/:;=?@" then
    match mode with
    | encodePath => byte_eqb c "?"
    | encodePathSegment => byte_in c "/;,?"
    | encodeUserPassword => byte_in c "@/?:"
    | encodeQueryComponent => true
    | encodeFragment => false
    | encodeHost | encodeZone => true
    end
  else match mode with
       | encodeFragment => negb (byte_in c "!()*")
       | _ => true
       end.

Definition ishex (c : ascii) : bool :=
  is_digit c || in_range "a" "f" c || in_range "A" "F" c.

Definition unhex (c : ascii) : Z :=
  if is_digit c then byte_val c - 48
  else if in_range "a" "f" c then byte_val c - 97 + 10
  else if in_range "A" "F" c then byte_val c - 65 + 10
  else 0.

Definition upperhex (d : Z) : ascii :=
  if d <? 10 then byte_of (48 + d) else byte_of (55 + d).

Definition EscapeError (s : string) : LibError :=
  errors_New ("invalid URL escape " +:+ strconv.Quote s).

Definition InvalidHostError (s : string) : LibError :=
  errors_New ("invalid character " +:+ strconv.Quote s +:+ " in host name").

Definition first3 (s : string) : string := String.substring 0 3 s.

(** The first loop of [unescape]: every [%] is followed by two hex digits
    (and stays within what a host or a zone allows), and a host holds no
    byte that would need escaping. [None]: well formed. *)
Fixpoint unescape_check (s : string) (mode : encoding) : option LibError :=
  match s with
  | EmptyString => None
  | String c rest =>
      if byte_eqb c "%" then
        match rest with
        | String h1 (String h2 rest') =>
            if ishex h1 && ishex h2 then
              let esc := String c (String h1 (str1 h2)) in
              let v := byte_of (unhex h1 * 16 + unhex h2) in
              match mode with
              | encodeHost =>
                  if (unhex h1 <? 8) && negb (String.eqb esc "%25")
                  then Some (EscapeError esc)
                  else unescape_check rest' mode
              | encodeZone =>
                  if negb (String.eqb esc "%25") && negb (byte_eqb v " ")
                     && shouldEscape v encodeHost
                  then Some (EscapeError esc)
                  else unescape_check rest' mode
              | _ => unescape_check rest' mode
              end
            else Some (EscapeError (first3 s))
        | _ => Some (EscapeError (first3 s))
        end
      else if byte_eqb c "+" then unescape_check rest mode
      else if is_host_mode mode && (byte_val c <? 128)
              && shouldEscape c encodeHost
      then Some (InvalidHostError (str1 c))
      else unescape_check rest mode
  end.

(** The second loop of [unescape], on a string the first loop accepted. *)
Fixpoint unescape_bytes (s : string) (mode : encoding) : string :=
  match s with
  | EmptyString => EmptyString
  | String c rest =>
      if byte_eqb c "%" then
        match rest with
        | String h1 (String h2 rest') =>
            String (byte_of (unhex h1 * 16 + unhex h2))
                   (unescape_bytes rest' mode)
        | _ => String c (unescape_bytes rest mode)
        end
      else if byte_eqb c "+" then
        String (if is_query_mode mode then " "%char else "+"%char)
               (unescape_bytes rest mode)
      else String c (unescape_bytes rest mode)
  end.

Definition unescape (s : string) (mode : encoding) : string + LibError :=
  match unescape_check s mode with
  | Some e => inr e
  | None => inl (unescape_bytes s mode)
  end.

(** [escape(s, mode)]. *)
Fixpoint escape (s : string) (mode : encoding) : string :=
  match s with
  | EmptyString => EmptyString
  | String c rest =>
      if shouldEscape c mode then
        if byte_eqb c " " && is_query_mode mode
        then String "+" (escape rest mode)
        else String "%" (String (upperhex (byte_val c / 16))
               (String (upperhex (byte_val c mod 16)) (escape rest mode)))
      else String c (escape rest mode)
  end.

Definition QueryEscape (s : string) : string := escape s encodeQueryComponent.
Definition QueryUnescape (s : string) : string + LibError :=
  unescape s encodeQueryComponent.

(** *** Values *)

(** [url.Values] is [map[string][]string]. *)
Abbreviation Values := (gmap string (list string)).

Definition Values_Set (v : Values) (key value : string) : Values :=
  <[key := [value]]> v.

Definition Values_Get (v : Values) (key : string) : string :=
  match v !! key with
  | Some (x :: _) => x
  | _ => EmptyString
  end.

Definition string_le (a b : string) : Prop := String.leb a b = true.

#[global] Instance string_le_dec (a b : string) : Decision (string_le a b).
Proof. unfold string_le. apply _. Defined.

(** The keys in the order [slices.Sort] leaves them: bytewise. *)
Definition sorted_keys (v : Values) : list string :=
  merge_sort string_le (map fst (map_to_list v)).

(** The inner loop of [Encode]: one key's values appended to the buffer. *)
Fixpoint encode_values (buf keyEscaped : string) (vs : list string) : string :=
  match vs with
  | [] => buf
  | x :: rest =>
      let buf1 := if (0 <? String.length buf)%nat then buf +:+ "&" else buf in
      encode_values (buf1 +:+ keyEscaped +:+ "=" +:+ QueryEscape x)
                    keyEscaped rest
  end.

Fixpoint encode_keys (buf : string) (v : Values) (keys : list string) : string :=
  match keys with
  | [] => buf
  | k :: rest =>
      encode_keys (encode_values buf (QueryEscape k) (default [] (v !! k)))
                  v rest
  end.

(** [Values.Encode]. *)
Definition Values_Encode (v : Values) : string :=
  if decide (size v = 0%nat) then EmptyString
  else encode_keys EmptyString v (sorted_keys v).

Definition semicolon_error : LibError :=
  errors_New "invalid semicolon separator in query".

(** One turn of the loop of [parseQuery], on the segment cut off at the
    next [&]. The state is the map and the error to return. *)
Definition parseQuery_step (st : Values * option LibError) (seg : string)
  : Values * option LibError :=
  let '(m, err) := st in
  if strings.ContainsByte seg ";" then (m, Some semicolon_error)
  else if String.eqb seg EmptyString then (m, err)
  else
    let '(key, value, _) := strings.Cut seg "=" in
    match QueryUnescape key with
    | inr err1 => (m, if err is Some _ then err else Some err1)
    | inl key' =>
        match QueryUnescape value with
        | inr err1 => (m, if err is Some _ then err else Some err1)
        | inl value' => (<[key' := default [] (m !! key') ++ [value']]> m, err)
        end
    end.

(** [url.ParseQuery]: the loop cuts the query at each [&]. *)
Definition ParseQuery (query : string) : Values * option LibError :=
  fold_left parseQuery_step (strings.Split query "&") (∅, None).

(** *** URL *)

Record Userinfo : Type := mkUserinfo
  { username : string; password : string; passwordSet : bool }.

Record URL : Type := mkURL
  { Scheme : string;
    Opaque : string;
    User : option Userinfo;
    Host : string;
    Path : string;
    RawPath : string;
    OmitHost : bool;
    ForceQuery : bool;
    RawQuery : string;
    Fragment : string;
    RawFragment : string }.

Definition emptyURL : URL :=
  mkURL EmptyString EmptyString None EmptyString EmptyString EmptyString
        false false EmptyString EmptyString EmptyString.

Definition nonempty (s : string) : bool := negb (String.eqb s EmptyString).

Definition is_ctl (c : ascii) : bool :=
  (byte_val c <? 32) || (byte_val c =? 127).

Fixpoint stringContainsCTLByte (s : string) : bool :=
  match s with
  | EmptyString => false
  | String c rest => is_ctl c || stringContainsCTLByte rest
  end.

(** [getScheme]: [i] is the index of the first byte of [s] in [rawURL]. *)
Fixpoint getScheme_from (i : nat) (rawURL s : string)
  : (string * string) + LibError :=
  match s with
  | EmptyString => inl (EmptyString, rawURL)
  | String c rest =>
      if is_alpha c then getScheme_from (S i) rawURL rest
      else if is_digit c || byte_in c "+-." then
        if (i =? 0)%nat then inl (EmptyString, rawURL)
        else getScheme_from (S i) rawURL rest
      else if byte_eqb c ":" then
        if (i =? 0)%nat then inr (errors_New "missing protocol scheme")
        else inl (String.substring 0 i rawURL, rest)
      else inl (EmptyString, rawURL)
  end.

Definition getScheme (rawURL : string) : (string * string) + LibError :=
  getScheme_from 0 rawURL rawURL.

Fixpoint all_digits (s : string) : bool :=
  match s with
  | EmptyString => true
  | String c rest => is_digit c && all_digits rest
  end.

Definition validOptionalPort (port : string) : bool :=
  match port with
  | EmptyString => true
  | String c rest => byte_eqb c ":" && all_digits rest
  end.

Fixpoint validUserinfo (s : string) : bool :=
  match s with
  | EmptyString => true
  | String c rest =>
      (is_alpha c || is_digit c || byte_in c "-._:~!$&'()*+,;=%@")
      && validUserinfo rest
  end.

Definition invalid_port (colonPort : string) : LibError :=
  errors_New ("invalid port " +:+ strconv.Quote colonPort +:+ " after host").

(** [parseHost], as Go 1.25.0 has it, the release the repository asks
    for. Later releases (from 1.25.2 on) also require the text between
    the brackets to be an IPv6 address and reject the others, such as
    [[v1.x]]; that check is not modelled, so a bracketed host passes
    here whenever its escapes and its port are well formed. *)
Definition parseHost (host : string) : string + LibError :=
  let plain := unescape host encodeHost in
  if strings.HasPrefix host "[" then
    match strings.CutLast host "]" with
    | None => inr (errors_New "missing ']' in host")
    | Some (before, colonPort) =>
        if negb (validOptionalPort colonPort) then inr (invalid_port colonPort)
        else
          match strings.SplitAt before "%25" with
          | Some (h1, zone) =>
              match unescape h1 encodeHost with
              | inr e => inr e
              | inl host1 =>
                  match unescape zone encodeZone with
                  | inr e => inr e
                  | inl host2 =>
                      match unescape (String "]" colonPort) encodeHost with
                      | inr e => inr e
                      | inl host3 => inl (host1 +:+ host2 +:+ host3)
                      end
                  end
              end
          | None => plain
          end
    end
  else
    match strings.CutLast host ":" with
    | Some (_, port) =>
        if negb (validOptionalPort (String ":" port))
        then inr (invalid_port (String ":" port))
        else plain
    | None => plain
    end.

(** [parseAuthority]. *)
Definition parseAuthority (authority : string)
  : (option Userinfo * string) + LibError :=
  match strings.CutLast authority "@" with
  | None =>
      match parseHost authority with
      | inr e => inr e
      | inl host => inl (None, host)
      end
  | Some (userinfo, hostpart) =>
      match parseHost hostpart with
      | inr e => inr e
      | inl host =>
          if negb (validUserinfo userinfo)
          then inr (errors_New "net/url: invalid userinfo")
          else if negb (strings.ContainsByte userinfo ":") then
            match unescape userinfo encodeUserPassword with
            | inr e => inr e
            | inl u => inl (Some (mkUserinfo u EmptyString false), host)
            end
          else
            let '(name, pass, _) := strings.Cut userinfo ":" in
            match unescape name encodeUserPassword with
            | inr e => inr e
            | inl u =>
                match unescape pass encodeUserPassword with
                | inr e => inr e
                | inl p => inl (Some (mkUserinfo u p true), host)
                end
            end
      end
  end.

(** [parse(rawURL, false)]. *)
Definition parse (rawURL : string) : URL + LibError :=
  if stringContainsCTLByte rawURL
  then inr (errors_New "net/url: invalid control character in URL")
  else if String.eqb rawURL "*"
  then inl (mkURL EmptyString EmptyString None EmptyString "*" EmptyString
                  false false EmptyString EmptyString EmptyString)
  else
    match getScheme rawURL with
    | inr e => inr e
    | inl (scheme0, rest0) =>
        let scheme := strings.ToLower scheme0 in
        let '(rest, forceQuery, rawQuery) :=
          if strings.HasSuffixByte rest0 "?"
             && (strings.Count rest0 "?" =? 1)%nat
          then (String.substring 0 (String.length rest0 - 1) rest0,
                true, EmptyString)
          else let '(r, q, _) := strings.Cut rest0 "?" in (r, false, q) in
        let rootless := negb (strings.HasPrefix rest "/") in
        if rootless && nonempty scheme then
          inl (mkURL scheme rest None EmptyString EmptyString EmptyString
                     false forceQuery rawQuery EmptyString EmptyString)
        else if rootless
                && strings.ContainsByte (strings.Cut rest "/").1.1 ":"
        then inr (errors_New "first path segment in URL cannot contain colon")
        else
          let parsed : (option Userinfo * string * bool * string) + LibError :=
            if (nonempty scheme || negb (strings.HasPrefix rest "///"))
               && strings.HasPrefix rest "//"
            then
              let after := String.substring 2 (String.length rest - 2) rest in
              let '(authority, path) :=
                match strings.SplitAt after "/" with
                | Some (a, p) => (a, p)
                | None => (after, EmptyString)
                end in
              match parseAuthority authority with
              | inr e => inr e
              | inl (user, host) => inl (user, host, false, path)
              end
            else if nonempty scheme && strings.HasPrefix rest "/"
            then inl (None, EmptyString, true, rest)
            else inl (None, EmptyString, false, rest) in
          match parsed with
          | inr e => inr e
          | inl (user, host, omitHost, p) =>
              match unescape p encodePath with
              | inr e => inr e
              | inl path =>
                  let rawPath :=
                    if String.eqb p (escape path encodePath)
                    then EmptyString else p in
                  inl (mkURL scheme EmptyString user host path rawPath
                             omitHost forceQuery rawQuery
                             EmptyString EmptyString)
              end
          end
    end.

(** [url.Parse]. *)
Definition Parse (rawURL : string) : URL + LibError :=
  let '(u, frag, _) := strings.Cut rawURL "#" in
  match parse u with
  | inr e => inr (url_Error "parse" u e)
  | inl url =>
      if String.eqb frag EmptyString then inl url
      else
        match unescape frag encodeFragment with
        | inr e => inr (url_Error "parse" rawURL e)
        | inl fragment =>
            let rawFragment :=
              if String.eqb frag (escape fragment encodeFragment)
              then EmptyString else frag in
            inl (mkURL (Scheme url) (Opaque url) (User url) (Host url)
                       (Path url) (RawPath url) (OmitHost url)
                       (ForceQuery url) (RawQuery url) fragment rawFragment)
        end
  end.

Definition IsAbs (u : URL) : bool := nonempty (Scheme u).

Fixpoint validEncoded (s : string) (mode : encoding) : bool :=
  match s with
  | EmptyString => true
  | String c rest =>
      (byte_in c "!$&'()*+,;=:@[]%" || negb (shouldEscape c mode))
      && validEncoded rest mode
  end.

Definition EscapedPath (u : URL) : string :=
  let fallback :=
    if String.eqb (Path u) "*" then "*" else escape (Path u) encodePath in
  if nonempty (RawPath u) && validEncoded (RawPath u) encodePath then
    match unescape (RawPath u) encodePath with
    | inl p => if String.eqb p (Path u) then RawPath u else fallback
    | inr _ => fallback
    end
  else fallback.

Definition EscapedFragment (u : URL) : string :=
  let fallback := escape (Fragment u) encodeFragment in
  if nonempty (RawFragment u) && validEncoded (RawFragment u) encodeFragment
  then
    match unescape (RawFragment u) encodeFragment with
    | inl f => if String.eqb f (Fragment u) then RawFragment u else fallback
    | inr _ => fallback
    end
  else fallback.

Definition Userinfo_String (ui : Userinfo) : string :=
  escape (username ui) encodeUserPassword
  +:+ (if passwordSet ui
       then ":" +:+ escape (password ui) encodeUserPassword
       else EmptyString).

(** [URL.String]. *)
Definition String_ (u : URL) : string :=
  let buf0 :=
    if nonempty (Scheme u) then Scheme u +:+ ":" else EmptyString in
  let buf1 :=
    if nonempty (Opaque u) then buf0 +:+ Opaque u
    else
      let hasUser := match User u with Some _ => true | None => false end in
      let authority :=
        if nonempty (Scheme u) || nonempty (Host u) || hasUser then
          if OmitHost u && negb (nonempty (Host u)) && negb hasUser
          then EmptyString
          else
            (if nonempty (Host u) || nonempty (Path u) || hasUser
             then "//" else EmptyString)
            +:+ (match User u with
                 | Some ui => Userinfo_String ui +:+ "@"
                 | None => EmptyString
                 end)
            +:+ (if nonempty (Host u) then escape (Host u) encodeHost
                 else EmptyString)
        else EmptyString in
      let buf := buf0 +:+ authority in
      let path := EscapedPath u in
      let buf :=
        if nonempty path && negb (strings.HasPrefix path "/")
           && nonempty (Host u)
        then buf +:+ "/" else buf in
      let buf :=
        if negb (nonempty buf)
           && strings.ContainsByte (strings.Cut path "/").1.1 ":"
        then buf +:+ "./" else buf in
      buf +:+ path in
  let buf2 :=
    if ForceQuery u || nonempty (RawQuery u)
    then buf1 +:+ "?" +:+ RawQuery u else buf1 in
  if nonempty (Fragment u)
  then buf2 +:+ "#" +:+ EscapedFragment u else buf2.

End url.

(** ** package encoding/json

    [checkValid] is the scanner of scanner.go, one step function per state;
    [decode_tree] rebuilds the value from the scanner's opcodes the way
    decode.go walks them; the [decode_*] functions store a value into a Go
    target of a given type. *)
Module json.

#[warnings="-register-all"]
Inductive JSON : Type :=
| JNull
| JBool (b : bool)
| JNumber (lit : string)
| JString (s : string)
| JArray (elems : list JSON)
| JObject (members : list (string * JSON)).

(** *** scanner.go *)

Inductive step : Type :=
| stateBeginValue | stateBeginValueOrEmpty | stateBeginStringOrEmpty
| stateBeginString | stateEndValue | stateEndTop
| stateInString | stateInStringEsc | stateInStringEscU
| stateInStringEscU1 | stateInStringEscU12 | stateInStringEscU123
| stateNeg | state1 | state0 | stateDot | stateDot0
| stateE | stateESign | stateE0
| stateT | stateTr | stateTru
| stateF | stateFa | stateFal | stateFals
| stateN | stateNu | stateNul
| stateError.

Inductive parseState : Type :=
| parseObjectKey | parseObjectValue | parseArrayValue.

Inductive opcode : Type :=
| scanContinue | scanBeginLiteral | scanBeginObject | scanObjectKey
| scanObjectValue | scanEndObject | scanBeginArray | scanArrayValue
| scanEndArray | scanSkipSpace | scanEnd | scanError.

(** The scanner; the top of [parseStack] is its head. *)
Record scanner : Type := mkScanner
  { next : step;
    endTop : bool;
    parseStack : list parseState;
    err : option LibError }.

Definition reset : scanner := mkScanner stateBeginValue false [] None.

Definition maxNestingDepth : nat := Z.to_nat 10000.

Definition isSpace (c : ascii) : bool := byte_in c " 	" || (byte_val c =? 10) || (byte_val c =? 13).

(** [quoteChar]: the byte as a quoted character literal. [string(c)] is
    the UTF-8 encoding of the rune [c]; of the runes from U+0080 to U+00FF
    the controls, the no-break space and the soft hyphen are not printable. *)
Definition quoteChar (c : ascii) : string :=
  let v := byte_val c in
  if byte_eqb c apostrophe
  then String apostrophe (String backslash (String apostrophe (str1 apostrophe)))
  else if byte_eqb c quote_char
  then String apostrophe (String quote_char (str1 apostrophe))
  else
    let body :=
      if v <? 128 then strconv.quote_byte c
      else if (v <? 161) || (v =? 173) then
        String backslash
          ("u00" +:+ String (strconv.lowerhex (v / 16))
                        (str1 (strconv.lowerhex (v mod 16))))
      else String (byte_of (192 + v / 64)) (str1 (byte_of (128 + v mod 64)))
    in String apostrophe (body +:+ str1 apostrophe).

Definition set_step (s : scanner) (st : step) : scanner :=
  mkScanner st (endTop s) (parseStack s) (err s).

(** [s.error(c, context)]. *)
Definition error_ (s : scanner) (c : ascii) (context : string)
  : scanner * opcode :=
  (mkScanner stateError (endTop s) (parseStack s)
     (Some (json_SyntaxError
              ("invalid character " +:+ quoteChar c +:+ " " +:+ context))),
   scanError).

Definition pushParseState (s : scanner) (c : ascii) (st : step)
           (newParseState : parseState) (successState : opcode)
  : scanner * opcode :=
  let stack := newParseState :: parseStack s in
  if (length stack <=? maxNestingDepth)%nat
  then (mkScanner st (endTop s) stack (err s), successState)
  else error_ (mkScanner st (endTop s) stack (err s)) c "exceeded max depth".

Definition popParseState (s : scanner) : scanner :=
  let stack := tail (parseStack s) in
  match stack with
  | [] => mkScanner stateEndTop true stack (err s)
  | _ => mkScanner stateEndValue (endTop s) stack (err s)
  end.

Definition do_stateEndTop (s : scanner) (c : ascii) : scanner * opcode :=
  if negb (isSpace c)
  then ((error_ s c "after top-level value").1, scanEnd)
  else (s, scanEnd).

Definition replace_top (s : scanner) (st : step) (p : parseState) : scanner :=
  mkScanner st (endTop s) (p :: tail (parseStack s)) (err s).

Definition do_stateEndValue (s : scanner) (c : ascii) : scanner * opcode :=
  match parseStack s with
  | [] => do_stateEndTop (mkScanner stateEndTop true [] (err s)) c
  | ps :: _ =>
      if isSpace c then (set_step s stateEndValue, scanSkipSpace)
      else
        match ps with
        | parseObjectKey =>
            if byte_eqb c ":"
            then (replace_top s stateBeginValue parseObjectValue, scanObjectKey)
            else error_ s c "after object key"
        | parseObjectValue =>
            if byte_eqb c ","
            then (replace_top s stateBeginString parseObjectKey, scanObjectValue)
            else if byte_eqb c "}" then (popParseState s, scanEndObject)
            else error_ s c "after object key:value pair"
        | parseArrayValue =>
            if byte_eqb c ","
            then (set_step s stateBeginValue, scanArrayValue)
            else if byte_eqb c "]" then (popParseState s, scanEndArray)
            else error_ s c "after array element"
        end
  end.

Definition do_stateBeginValue (s : scanner) (c : ascii) : scanner * opcode :=
  if isSpace c then (s, scanSkipSpace)
  else if byte_eqb c "{"
  then pushParseState s c stateBeginStringOrEmpty parseObjectKey scanBeginObject
  else if byte_eqb c "["
  then pushParseState s c stateBeginValueOrEmpty parseArrayValue scanBeginArray
  else if byte_eqb c quote_char then (set_step s stateInString, scanBeginLiteral)
  else if byte_eqb c "-" then (set_step s stateNeg, scanBeginLiteral)
  else if byte_eqb c "0" then (set_step s state0, scanBeginLiteral)
  else if byte_eqb c "t" then (set_step s stateT, scanBeginLiteral)
  else if byte_eqb c "f" then (set_step s stateF, scanBeginLiteral)
  else if byte_eqb c "n" then (set_step s stateN, scanBeginLiteral)
  else if in_range "1" "9" c then (set_step s state1, scanBeginLiteral)
  else error_ s c "looking for beginning of value".

Definition do_stateBeginString (s : scanner) (c : ascii) : scanner * opcode :=
  if isSpace c then (s, scanSkipSpace)
  else if byte_eqb c quote_char then (set_step s stateInString, scanBeginLiteral)
  else error_ s c "looking for beginning of object key string".

Definition expect (s : scanner) (c want : ascii) (st : step) (context : string)
  : scanner * opcode :=
  if byte_eqb c want then (set_step s st, scanContinue)
  else error_ s c context.

Definition expect_hex (s : scanner) (c : ascii) (st : step) : scanner * opcode :=
  if url.ishex c then (set_step s st, scanContinue)
  else error_ s c ("in " +:+ String backslash "u hexadecimal character escape").

Definition do_stateESign (s : scanner) (c : ascii) : scanner * opcode :=
  if is_digit c then (set_step s stateE0, scanContinue)
  else error_ s c "in exponent of numeric literal".

Definition do_state0 (s : scanner) (c : ascii) : scanner * opcode :=
  if byte_eqb c "." then (set_step s stateDot, scanContinue)
  else if byte_in c "eE" then (set_step s stateE, scanContinue)
  else do_stateEndValue s c.

(** [s.step(s, c)]: the step function the scanner is in, applied to [c]. *)
Definition scan_step (s : scanner) (c : ascii) : scanner * opcode :=
  match next s with
  | stateBeginValue => do_stateBeginValue s c
  | stateBeginValueOrEmpty =>
      if isSpace c then (s, scanSkipSpace)
      else if byte_eqb c "]" then do_stateEndValue s c
      else do_stateBeginValue s c
  | stateBeginStringOrEmpty =>
      if isSpace c then (s, scanSkipSpace)
      else if byte_eqb c "}"
      then do_stateEndValue
             (mkScanner (next s) (endTop s)
                        (parseObjectValue :: tail (parseStack s)) (err s)) c
      else do_stateBeginString s c
  | stateBeginString => do_stateBeginString s c
  | stateEndValue => do_stateEndValue s c
  | stateEndTop => do_stateEndTop s c
  | stateInString =>
      if byte_eqb c quote_char then (set_step s stateEndValue, scanContinue)
      else if byte_eqb c backslash then (set_step s stateInStringEsc, scanContinue)
      else if byte_val c <? 32 then error_ s c "in string literal"
      else (s, scanContinue)
  | stateInStringEsc =>
      if byte_in c "bfnrt/" || byte_eqb c backslash || byte_eqb c quote_char
      then (set_step s stateInString, scanContinue)
      else if byte_eqb c "u" then (set_step s stateInStringEscU, scanContinue)
      else error_ s c "in string escape code"
  | stateInStringEscU => expect_hex s c stateInStringEscU1
  | stateInStringEscU1 => expect_hex s c stateInStringEscU12
  | stateInStringEscU12 => expect_hex s c stateInStringEscU123
  | stateInStringEscU123 => expect_hex s c stateInString
  | stateNeg =>
      if byte_eqb c "0" then (set_step s state0, scanContinue)
      else if in_range "1" "9" c then (set_step s state1, scanContinue)
      else error_ s c "in numeric literal"
  | state1 =>
      if is_digit c then (set_step s state1, scanContinue)
      else do_state0 s c
  | state0 => do_state0 s c
  | stateDot =>
      if is_digit c then (set_step s stateDot0, scanContinue)
      else error_ s c "after decimal point in numeric literal"
  | stateDot0 =>
      if is_digit c then (s, scanContinue)
      else if byte_in c "eE" then (set_step s stateE, scanContinue)
      else do_stateEndValue s c
  | stateE =>
      if byte_in c "+-" then (set_step s stateESign, scanContinue)
      else do_stateESign s c
  | stateESign => do_stateESign s c
  | stateE0 =>
      if is_digit c then (s, scanContinue) else do_stateEndValue s c
  | stateT => expect s c "r" stateTr "in literal true (expecting 'r')"
  | stateTr => expect s c "u" stateTru "in literal true (expecting 'u')"
  | stateTru => expect s c "e" stateEndValue "in literal true (expecting 'e')"
  | stateF => expect s c "a" stateFa "in literal false (expecting 'a')"
  | stateFa => expect s c "l" stateFal "in literal false (expecting 'l')"
  | stateFal => expect s c "s" stateFals "in literal false (expecting 's')"
  | stateFals => expect s c "e" stateEndValue "in literal false (expecting 'e')"
  | stateN => expect s c "u" stateNu "in literal null (expecting 'u')"
  | stateNu => expect s c "l" stateNul "in literal null (expecting 'l')"
  | stateNul => expect s c "l" stateEndValue "in literal null (expecting 'l')"
  | stateError => (s, scanError)
  end.

Definition unexpected_end : LibError :=
  json_SyntaxError "unexpected end of JSON input".

(** [s.eof()]: [None] when the input seen so far is a complete value. *)
Definition eof (s : scanner) : option LibError :=
  match err s with
  | Some e => Some e
  | None =>
      if endTop s then None
      else
        let s' := (scan_step s " ").1 in
        if endTop s' then None
        else match err s' with
             | Some e => Some e
             | None => Some unexpected_end
             end
  end.

Fixpoint checkValid_from (s : scanner) (data : string) : option LibError :=
  match data with
  | EmptyString => eof s
  | String c rest =>
      let '(s', op) := scan_step s c in
      match op with
      | scanError => err s'
      | _ => checkValid_from s' rest
      end
  end.

(** [checkValid(data, scan)]: [None] when [data] is one JSON value. *)
Definition checkValid (data : string) : option LibError :=
  checkValid_from reset data.

Definition Valid (data : string) : bool :=
  match checkValid data with None => true | Some _ => false end.

(** *** package unicode/utf8 and the string literals of decode.go *)

Definition cont_byte (c : ascii) : bool := in_range (byte_of 128) (byte_of 191) c.

(** The second byte a leading byte accepts, as [utf8.DecodeRune] has it. *)
Definition second_ok (c1 c2 : ascii) : bool :=
  let a := byte_val c1 in let b := byte_val c2 in
  if a =? 224 then (160 <=? b) && (b <=? 191)
  else if a =? 237 then (128 <=? b) && (b <=? 159)
  else if a =? 240 then (144 <=? b) && (b <=? 191)
  else if a =? 244 then (128 <=? b) && (b <=? 143)
  else cont_byte c2.

(** The number of bytes a leading byte announces (0: not a leading byte). *)
Definition rune_len (c1 : ascii) : nat :=
  let a := byte_val c1 in
  if (194 <=? a) && (a <=? 223) then 2
  else if (224 <=? a) && (a <=? 239) then 3
  else if (240 <=? a) && (a <=? 244) then 4
  else 0.

Definition RuneError : Z := 65533.

(** [utf8.AppendRune]. *)
Definition EncodeRune (r : Z) : string :=
  let r := if (r <? 0) || (1114111 <? r) || ((55296 <=? r) && (r <=? 57343))
           then RuneError else r in
  if r <? 128 then str1 (byte_of r)
  else if r <? 2048
  then String (byte_of (192 + r / 64)) (str1 (byte_of (128 + r mod 64)))
  else if r <? 65536
  then String (byte_of (224 + r / 4096))
         (String (byte_of (128 + (r / 64) mod 64))
            (str1 (byte_of (128 + r mod 64))))
  else String (byte_of (240 + r / 262144))
         (String (byte_of (128 + (r / 4096) mod 64))
            (String (byte_of (128 + (r / 64) mod 64))
               (str1 (byte_of (128 + r mod 64))))).

Definition hex4 (h1 h2 h3 h4 : ascii) : option Z :=
  if url.ishex h1 && url.ishex h2 && url.ishex h3 && url.ishex h4
  then Some (((url.unhex h1 * 16 + url.unhex h2) * 16 + url.unhex h3) * 16
             + url.unhex h4)
  else None.

(** [getu4]: the rune of a leading [\uXXXX]. *)
Definition getu4 (s : string) : option Z :=
  match s with
  | String b (String u (String h1 (String h2 (String h3 (String h4 _))))) =>
      if byte_eqb b backslash && byte_eqb u "u" then hex4 h1 h2 h3 h4
      else None
  | _ => None
  end.

Definition IsSurrogate (r : Z) : bool := (55296 <=? r) && (r <? 57344).

(** [utf16.DecodeRune]. *)
Definition utf16_DecodeRune (r1 r2 : Z) : Z :=
  if (55296 <=? r1) && (r1 <? 56320) && (56320 <=? r2) && (r2 <? 57344)
  then (r1 - 55296) * 1024 + (r2 - 56320) + 65536
  else RuneError.

Definition unescape_byte (e : ascii) : ascii :=
  if byte_eqb e "b" then byte_of 8
  else if byte_eqb e "f" then byte_of 12
  else if byte_eqb e "n" then byte_of 10
  else if byte_eqb e "r" then byte_of 13
  else if byte_eqb e "t" then byte_of 9
  else e.

(** [unquote] on the bytes between the quotes of a string literal the
    scanner accepted: escapes are replaced, a surrogate pair becomes one
    rune, and a byte that starts no UTF-8 sequence becomes U+FFFD. *)
Fixpoint unquote (s : string) : string :=
  match s with
  | EmptyString => EmptyString
  | String c rest =>
      if byte_eqb c backslash then
        match rest with
        | EmptyString => EmptyString
        | String e rest1 =>
            if byte_eqb e "u" then
              match rest1 with
              | String h1 (String h2 (String h3 (String h4 rest2))) =>
                  match hex4 h1 h2 h3 h4 with
                  | None => EmptyString
                  | Some rr =>
                      if IsSurrogate rr then
                        match rest2 with
                        | String b (String u (String g1 (String g2
                            (String g3 (String g4 rest3))))) =>
                            match getu4 rest2 with
                            | Some rr1 =>
                                let dec := utf16_DecodeRune rr rr1 in
                                if dec =? RuneError
                                then EncodeRune RuneError +:+ unquote rest2
                                else EncodeRune dec +:+ unquote rest3
                            | None => EncodeRune RuneError +:+ unquote rest2
                            end
                        | _ => EncodeRune RuneError +:+ unquote rest2
                        end
                      else EncodeRune rr +:+ unquote rest2
                  end
              | _ => EmptyString
              end
            else String (unescape_byte e) (unquote rest1)
        end
      else if byte_val c <? 128 then String c (unquote rest)
      else
        let bad := EncodeRune RuneError +:+ unquote rest in
        match rune_len c, rest with
        | 2%nat, String c2 r2 =>
            if second_ok c c2 then String c (String c2 (unquote r2)) else bad
        | 3%nat, String c2 (String c3 r3) =>
            if second_ok c c2 && cont_byte c3
            then String c (String c2 (String c3 (unquote r3))) else bad
        | 4%nat, String c2 (String c3 (String c4 r4)) =>
            if second_ok c c2 && cont_byte c3 && cont_byte c4
            then String c (String c2 (String c3 (String c4 (unquote r4))))
            else bad
        | _, _ => bad
        end
  end.

(** *** decode.go: the value the scanner's opcodes delimit *)

(** A container being read: its members so far (last first) and, for an
    object, the key whose value is awaited. *)
Inductive frame : Type :=
| FObject (members : list (string * JSON)) (key : option string)
| FArray (elems : list JSON).

Record builder : Type := mkBuilder
  { lit : option string;      (* the literal being read *)
    last : option JSON;       (* the value just completed *)
    stack : list frame }.

Definition literal_value (item : string) : JSON :=
  match item with
  | String c rest =>
      if byte_eqb c quote_char
      then JString (unquote (String.substring 0 (String.length rest - 1) rest))
      else if byte_eqb c "t" then JBool true
      else if byte_eqb c "f" then JBool false
      else if byte_eqb c "n" then JNull
      else JNumber item
  | EmptyString => JNull
  end.

Definition end_literal (b : builder) : builder :=
  match lit b with
  | Some item => mkBuilder None (Some (literal_value item)) (stack b)
  | None => b
  end.

Definition close_members (ms : list (string * JSON)) (key : option string)
           (v : option JSON) : list (string * JSON) :=
  match key, v with
  | Some k, Some x => rev ((k, x) :: ms)
  | _, _ => rev ms
  end.

Definition close_elems (es : list JSON) (v : option JSON) : list JSON :=
  match v with
  | Some x => rev (x :: es)
  | None => rev es
  end.

(** What decode.go does at each opcode. *)
Definition build_step (b : builder) (op : opcode) (c : ascii) : builder :=
  match op with
  | scanContinue =>
      match lit b with
      | Some item => mkBuilder (Some (item +:+ str1 c)) (last b) (stack b)
      | None => b
      end
  | _ =>
      let b := end_literal b in
      match op with
      | scanBeginLiteral => mkBuilder (Some (str1 c)) None (stack b)
      | scanBeginObject => mkBuilder None None (FObject [] None :: stack b)
      | scanBeginArray => mkBuilder None None (FArray [] :: stack b)
      | scanObjectKey =>
          match last b, stack b with
          | Some (JString k), FObject ms _ :: rest =>
              mkBuilder None None (FObject ms (Some k) :: rest)
          | _, _ => b
          end
      | scanObjectValue =>
          match last b, stack b with
          | Some v, FObject ms (Some k) :: rest =>
              mkBuilder None None (FObject ((k, v) :: ms) None :: rest)
          | _, _ => b
          end
      | scanEndObject =>
          match stack b with
          | FObject ms key :: rest =>
              mkBuilder None (Some (JObject (close_members ms key (last b)))) rest
          | _ => b
          end
      | scanArrayValue =>
          match last b, stack b with
          | Some v, FArray es :: rest => mkBuilder None None (FArray (v :: es) :: rest)
          | _, _ => b
          end
      | scanEndArray =>
          match stack b with
          | FArray es :: rest =>
              mkBuilder None (Some (JArray (close_elems es (last b)))) rest
          | _ => b
          end
      | _ => b
      end
  end.

Fixpoint decode_from (s : scanner) (b : builder) (data : string) : builder :=
  match data with
  | EmptyString => end_literal b
  | String c rest =>
      let '(s', op) := scan_step s c in
      decode_from s' (build_step b op c) rest
  end.

(** The value of a document [checkValid] accepted. *)
Definition decode_tree (data : string) : JSON :=
  default JNull (last (decode_from reset (mkBuilder None None []) data)).

(** The value of [data], when it is valid JSON. *)
Definition parse (data : string) : option JSON :=
  match checkValid data with
  | None => Some (decode_tree data)
  | Some _ => None
  end.

(** *** decode.go: storing a value into a Go target *)

Definition kind_name (v : JSON) : string :=
  match v with
  | JNull => "null"
  | JBool _ => "bool"
  | JNumber _ => "number"
  | JString _ => "string"
  | JArray _ => "array"
  | JObject _ => "object"
  end.

Definition UnmarshalTypeError (Value Type_ : string) : LibError :=
  json_UnmarshalTypeError Value Type_ EmptyString EmptyString.

(** [d.saveError]: the first error is the one reported. *)
Definition saveError (saved new : option LibError) : option LibError :=
  match saved with
  | Some e => Some e
  | None => new
  end.

(** [d.addErrorContext] for a field of a struct. *)
Definition addErrorContext (struct_ field : string) (e : option LibError)
  : option LibError :=
  match e with
  | Some (json_UnmarshalTypeError v t _ _) =>
      Some (json_UnmarshalTypeError v t struct_ field)
  | _ => e
  end.

(** A target of type [string]. *)
Definition decode_string (v : JSON) (cur : string) : string * option LibError :=
  match v with
  | JString s => (s, None)
  | JNull => (cur, None)
  | _ => (cur, Some (UnmarshalTypeError (kind_name v) "string"))
  end.

(** A target of type [int]. *)
Definition decode_int (v : JSON) (cur : Z) : Z * option LibError :=
  match v with
  | JNumber item =>
      match strconv.ParseInt item with
      | Some n => (n, None)
      | None => (cur, Some (UnmarshalTypeError ("number " +:+ item) "int"))
      end
  | JNull => (cur, None)
  | _ => (cur, Some (UnmarshalTypeError (kind_name v) "int"))
  end.

Fixpoint decode_elems {T : Type} (zero : T)
         (decode_elem : JSON -> T -> T * option LibError)
         (elems : list JSON) : list T * option LibError :=
  match elems with
  | [] => ([], None)
  | e :: rest =>
      let '(x, err1) := decode_elem e zero in
      let '(xs, err2) := decode_elems zero decode_elem rest in
      (x :: xs, saveError err1 err2)
  end.

(** A target of type [[]T] that is a fresh (nil) slice, as every target
    of this package is (a variable just declared): an array gives one
    element per value, each decoded into a zero [T]; [null] gives nil. A
    slice that holds elements already would have the values decoded into
    them; that case is not modelled. *)
Definition decode_slice {T : Type} (zero : T)
           (decode_elem : JSON -> T -> T * option LibError)
           (type_name : string) (v : JSON) (cur : option (list T))
  : option (list T) * option LibError :=
  match v with
  | JArray elems =>
      let '(xs, e) := decode_elems zero decode_elem elems in (Some xs, e)
  | JNull => (None, None)
  | _ => (cur, Some (UnmarshalTypeError (kind_name v) type_name))
  end.

Definition upper_byte (c : ascii) : ascii :=
  if is_lower c then byte_of (byte_val c - 32) else c.

(** [foldName]: ASCII letters to upper case, and the two runes outside
    ASCII whose case orbit holds an ASCII letter, U+017F (long s) and
    U+212A (Kelvin), to that letter. The other runes fold among
    themselves and are kept: they match no field name of this package. *)
Fixpoint foldName (s : string) : string :=
  match s with
  | EmptyString => EmptyString
  | String c rest =>
      let keep := String (upper_byte c) (foldName rest) in
      match rest with
      | String c2 rest2 =>
          if (byte_val c =? 197) && (byte_val c2 =? 191)
          then String "S" (foldName rest2)
          else
            match rest2 with
            | String c3 rest3 =>
                if (byte_val c =? 226) && (byte_val c2 =? 132)
                   && (byte_val c3 =? 170)
                then String "K" (foldName rest3)
                else keep
            | EmptyString => keep
            end
      | EmptyString => keep
      end
  end.

(** The field a key selects: the one of that exact name, or else the
    first whose folded name is the key's. *)
Definition find_field (fields : list string) (key : string) : option string :=
  match List.find (String.eqb key) fields with
  | Some f => Some f
  | None => List.find (fun f => String.eqb (foldName f) (foldName key)) fields
  end.

(** [json.Unmarshal(data, &target)] for a target stored by [decode]. *)
Definition Unmarshal_with {T : Type} (decode : JSON -> T -> T * option LibError)
           (data : string) (cur : T) : T * option LibError :=
  match checkValid data with
  | Some e => (cur, Some e)
  | None => decode (decode_tree data) cur
  end.

Fixpoint drop_space (s : string) : string :=
  match s with
  | EmptyString => EmptyString
  | String c rest => if isSpace c then drop_space rest else s
  end.

Fixpoint drop_space_end (s : string) : string :=
  match s with
  | EmptyString => EmptyString
  | String c rest =>
      match drop_space_end rest with
      | EmptyString => if isSpace c then EmptyString else str1 c
      | r => String c r
      end
  end.

(** The bytes of the top-level value of a valid document,
    [d.data[start:d.readIndex()]]: the document without the white space
    around the value. *)
Definition value_bytes (data : string) : string :=
  drop_space_end (drop_space data).

(** A type that implements [json.Unmarshaler], as the target of
    [json.Unmarshal]: the document is checked, then the method is given
    the bytes of the value. *)
Definition Unmarshal_Unmarshaler {T : Type}
           (UnmarshalJSON : string -> T -> T * option LibError)
           (data : string) (cur : T) : T * option LibError :=
  match checkValid data with
  | Some e => (cur, Some e)
  | None => UnmarshalJSON (value_bytes data) cur
  end.

(** *** encode.go: the values the client sends *)

Definition hex_byte (c : ascii) : string :=
  String (strconv.lowerhex (byte_val c / 16))
         (str1 (strconv.lowerhex (byte_val c mod 16))).

(** One ASCII byte of a string, as [appendString] writes it with HTML
    escaping on. *)
Definition encode_ascii (c : ascii) : string :=
  let v := byte_val c in
  if byte_eqb c backslash || byte_eqb c quote_char then String backslash (str1 c)
  else if v =? 8 then String backslash "b"
  else if v =? 12 then String backslash "f"
  else if v =? 10 then String backslash "n"
  else if v =? 13 then String backslash "r"
  else if v =? 9 then String backslash "t"
  else if (v <? 32) || byte_in c "<>&"
  then String backslash ("u00" +:+ hex_byte c)
  else str1 c.

Fixpoint encode_string_body (s : string) : string :=
  match s with
  | EmptyString => EmptyString
  | String c rest =>
      if byte_val c <? 128 then encode_ascii c +:+ encode_string_body rest
      else
        let bad := String backslash "ufffd" +:+ encode_string_body rest in
        match rune_len c, rest with
        | 2%nat, String c2 r2 =>
            if second_ok c c2 then String c (String c2 (encode_string_body r2))
            else bad
        | 3%nat, String c2 (String c3 r3) =>
            if second_ok c c2 && cont_byte c3 then
              if (byte_val c =? 226) && (byte_val c2 =? 128)
                 && ((byte_val c3 =? 168) || (byte_val c3 =? 169))
              then String backslash ("u202" +:+ str1 (strconv.lowerhex (byte_val c3 mod 16)))
                   +:+ encode_string_body r3
              else String c (String c2 (String c3 (encode_string_body r3)))
            else bad
        | 4%nat, String c2 (String c3 (String c4 r4)) =>
            if second_ok c c2 && cont_byte c3 && cont_byte c4
            then String c (String c2 (String c3 (String c4 (encode_string_body r4))))
            else bad
        | _, _ => bad
        end
  end.

Definition encode_string (s : string) : string :=
  String quote_char (encode_string_body s +:+ str1 quote_char).

(** A value of type [[]string]. *)
Definition encode_strings (l : option (list string)) : string :=
  match l with
  | None => "null"
  | Some xs => "[" +:+ strings.Join (map encode_string xs) "," +:+ "]"
  end.

(** [json.NewEncoder(&body).Encode(v)] for a value written by [enc]: the
    bytes written to the buffer, a newline last. Encoding strings, numbers
    and slices of them never fails. *)
Definition Encode {T : Type} (enc : T -> string) (v : T) : string + LibError :=
  inl (enc v +:+ str1 (byte_of 10)).

(** A type [json.Unmarshal] can fill: its zero value and what
    [json.Unmarshal(data, &target)] leaves in the target and returns. *)
Class Target (T : Type) : Type := mkTarget
  { zero : T;
    Unmarshal : string -> T -> T * option LibError }.

(** A type [json.NewEncoder(&body).Encode] writes by reflection: what
    [Encode(v)] writes to the buffer for a pointer [v] ([None]: the nil
    pointer), or the error it returns, as it does on a float that is no
    number or is infinite. *)
Class Source (T : Type) : Type := mkSource
  { Encode_ptr : option T -> string + LibError }.

End json.

(** ** package net/http: requests, headers, responses *)
Module http.

Definition MethodGet : string := "GET".
Definition MethodHead : string := "HEAD".
Definition MethodPost : string := "POST".
Definition MethodPut : string := "PUT".
Definition MethodDelete : string := "DELETE".

Definition StatusOK : Z := 200.
Definition StatusMultipleChoices : Z := 300.
Definition StatusBadRequest : Z := 400.
Definition StatusNotFound : Z := 404.
Definition StatusTooManyRequests : Z := 429.
Definition StatusInternalServerError : Z := 500.

(** [http.Header] is [map[string][]string]. *)
Abbreviation Header := (gmap string (list string)).

Definition isTokenByte (c : ascii) : bool :=
  is_alpha c || is_digit c || byte_in c "!#$%&'*+-.^_`|~".

Fixpoint all_token (s : string) : bool :=
  match s with
  | EmptyString => true
  | String c rest => isTokenByte c && all_token rest
  end.

Definition validMethod (method : string) : bool :=
  url.nonempty method && all_token method.

Fixpoint canonical_from (upper : bool) (s : string) : string :=
  match s with
  | EmptyString => EmptyString
  | String c rest =>
      String (if upper then json.upper_byte c else strings.lower_byte c)
             (canonical_from (byte_eqb c "-") rest)
  end.

(** [textproto.CanonicalMIMEHeaderKey]. *)
Definition CanonicalMIMEHeaderKey (s : string) : string :=
  if all_token s then canonical_from true s else s.

Definition Header_Set (h : Header) (key value : string) : Header :=
  <[CanonicalMIMEHeaderKey key := [value]]> h.

(** What [io.ReadAll] returns on a body: the bytes read and the error
    that ended the reading, if any. *)
Record Body : Type := mkBody { content : string; readErr : option LibError }.

Record Response : Type := mkResponse { StatusCode : Z; RespBody : Body }.

Record Request : Type := mkRequest
  { Method : string;
    URL : url.URL;
    ReqHeader : Header;
    ReqBody : option string;
    Host : string }.

(** [removeEmptyPort]. *)
Definition removeEmptyPort (host : string) : string :=
  match strings.CutLast host ":" with
  | Some (h, EmptyString) => h
  | _ => host
  end.

(** [http.NewRequestWithContext] with a non-nil context. *)
Definition NewRequestWithContext (method url_ : string) (body : option string)
  : Request + LibError :=
  let method := if url.nonempty method then method else "GET" in
  if negb (validMethod method)
  then inr (errors_New ("net/http: invalid method " +:+ strconv.Quote method))
  else
    match url.Parse url_ with
    | inr e => inr e
    | inl u =>
        let host := removeEmptyPort (url.Host u) in
        let u' := url.mkURL (url.Scheme u) (url.Opaque u) (url.User u) host
                    (url.Path u) (url.RawPath u) (url.OmitHost u)
                    (url.ForceQuery u) (url.RawQuery u) (url.Fragment u)
                    (url.RawFragment u) in
        inl (mkRequest method u' ∅ body host)
    end.

Definition SetHeader (r : Request) (key value : string) : Request :=
  mkRequest (Method r) (URL r) (Header_Set (ReqHeader r) key value)
            (ReqBody r) (Host r).

(** [Request.SetBasicAuth]. *)
Definition SetBasicAuth (r : Request) (username password : string) : Request :=
  SetHeader r "Authorization"
    ("Basic " +:+ base64.EncodeToString (username +:+ ":" +:+ password)).

(** What [Client.Do] returns. *)
Inductive RoundTrip : Type :=
| DoError (err : LibError)
| DoResponse (resp : Response).

End http.

(** ** The world a call runs in

    The network and the caller's context are outside the program: [Do n req]
    is what the [n]-th call (from 0) of [HTTPClient.Do] returns on [req], as
    a request-counting fake transport would script it; [consumed n s] is the
    number of bytes that call reads from the body of the request, a reader
    that holds [s]; and [wait n] is which case of the [select] before a
    retry is taken after [n] calls: the timer, or [ctx.Done()] with the
    error [ctx.Err()] then returns. *)
Inductive WaitOutcome : Type :=
| TimerFired
| CtxDone (err : LibError).

Record World : Type := mkWorldWith
  { Do : nat -> http.Request -> http.RoundTrip;
    wait : nat -> WaitOutcome;
    consumed : nat -> string -> nat }.

(** A world whose transport reads the body of every request to its end. *)
Definition mkWorld (Do : nat -> http.Request -> http.RoundTrip)
           (wait : nat -> WaitOutcome) : World :=
  mkWorldWith Do wait (fun _ s => String.length s).

(** An [io.Reader] over a buffer, as the operations pass one to
    [makeRequest]: the bytes not read yet; [None] is the nil reader. The
    reader is the caller's one object: what a call of the transport reads
    from it is gone at the next attempt. *)
Fixpoint skip (n : nat) (s : string) : string :=
  match n, s with
  | S n', String _ rest => skip n' rest
  | _, _ => s
  end.

Definition reader_after (w : World) (n : nat) (reader : option string)
  : option string :=
  match reader with
  | None => None
  | Some s => Some (skip (consumed w n s) s)
  end.

(** What the reader holds after [calls] calls of the transport. *)
Fixpoint reader_at (w : World) (body : option string) (calls : nat)
  : option string :=
  match calls with
  | O => body
  | S n => reader_after w n (reader_at w body n)
  end.

(** How a call ends: it returns, it panics (a nil pointer is dereferenced),
    or the retry loop has not ended when the model's fuel runs out. *)
Inductive outcome (A : Type) : Type :=
| Returns (a : A)
| Panics
| Diverges.
Arguments Returns {A} a.
Arguments Panics {A}.
Arguments Diverges {A}.

(** ** errors.go *)

Definition ErrorType : Type := string.

Definition ErrorTypeConfig : ErrorType := "config".
Definition ErrorTypeNetwork : ErrorType := "network".
Definition ErrorTypeRequest : ErrorType := "request".
Definition ErrorTypeResponse : ErrorType := "response".
Definition ErrorTypeAPI : ErrorType := "api".
Definition ErrorTypeValidation : ErrorType := "validation".

Record Error : Type := mkError
  { Cause : option LibError;
    Type_ : ErrorType;
    Message : string;
    Response : string;
    StatusCode : Z }.

(** A value of Go's [error] interface: an [*Error] of this package or an
    error of the standard library. *)
Inductive error : Type :=
| MailpitError (e : Error)
| LibraryError (e : LibError).

Definition Error_Error (e : Error) : string :=
  if 0 <? StatusCode e
  then "mailpit " +:+ Type_ e +:+ " error (status "
       +:+ strconv.Itoa (StatusCode e) +:+ "): " +:+ Message e
  else "mailpit " +:+ Type_ e +:+ " error: " +:+ Message e.

Definition Unwrap (e : Error) : option LibError := Cause e.

Definition IsType (e : Error) (errorType : ErrorType) : bool :=
  String.eqb (Type_ e) errorType.

Definition IsAPIError (e : Error) (statusCode : Z) : bool :=
  String.eqb (Type_ e) ErrorTypeAPI && (StatusCode e =? statusCode).

Definition NewConfigError (message : string) : Error :=
  mkError None ErrorTypeConfig message EmptyString 0.

Definition NewValidationError (message : string) : Error :=
  mkError None ErrorTypeValidation message EmptyString 0.

(** The class of an error value, when it is an [*Error]. *)
Definition error_type (e : error) : option ErrorType :=
  match e with
  | MailpitError e => Some (Type_ e)
  | LibraryError _ => None
  end.

(** ** The data types and their methods *)

Record Attachment : Type := mkAttachment
  { PartID : string; FileName : string; ContentType : string; Size : Z }.

Definition zeroAttachment : Attachment :=
  mkAttachment EmptyString EmptyString EmptyString 0.

(** [AttachmentList] is [[]Attachment]; [None] is the nil slice. *)
Definition AttachmentList : Type := option (list Attachment).

Definition Attachment_fields : list string :=
  ["PartID"; "FileName"; "ContentType"; "Size"].

(** One member of a JSON object stored into an [Attachment]. *)
Definition decode_Attachment_member (st : Attachment * option LibError)
           (member : string * json.JSON) : Attachment * option LibError :=
  let '(a, saved) := st in
  let '(key, v) := member in
  match json.find_field Attachment_fields key with
  | Some "PartID" =>
      let '(x, e) := json.decode_string v (PartID a) in
      (mkAttachment x (FileName a) (ContentType a) (Size a),
       json.saveError saved (json.addErrorContext "Attachment" "PartID" e))
  | Some "FileName" =>
      let '(x, e) := json.decode_string v (FileName a) in
      (mkAttachment (PartID a) x (ContentType a) (Size a),
       json.saveError saved (json.addErrorContext "Attachment" "FileName" e))
  | Some "ContentType" =>
      let '(x, e) := json.decode_string v (ContentType a) in
      (mkAttachment (PartID a) (FileName a) x (Size a),
       json.saveError saved (json.addErrorContext "Attachment" "ContentType" e))
  | Some "Size" =>
      let '(x, e) := json.decode_int v (Size a) in
      (mkAttachment (PartID a) (FileName a) (ContentType a) x,
       json.saveError saved (json.addErrorContext "Attachment" "Size" e))
  | _ => (a, saved)
  end.

(** A target of type [Attachment]: what encoding/json does by reflection. *)
Definition decode_Attachment (v : json.JSON) (cur : Attachment)
  : Attachment * option LibError :=
  match v with
  | json.JObject members => fold_left decode_Attachment_member members (cur, None)
  | json.JNull => (cur, None)
  | _ => (cur, Some (json.UnmarshalTypeError (json.kind_name v)
                       "mailpitclient.Attachment"))
  end.

(** [json.Unmarshal(data, &attachments)] for [var attachments []Attachment]. *)
Definition Unmarshal_Attachments (data : string)
  : option (list Attachment) * option LibError :=
  json.Unmarshal_with
    (json.decode_slice zeroAttachment decode_Attachment "[]mailpitclient.Attachment")
    data None.

(** [json.Unmarshal(data, &num)] for [var num int]. *)
Definition Unmarshal_int (data : string) : Z * option LibError :=
  json.Unmarshal_with json.decode_int data 0.

(** [AttachmentList.UnmarshalJSON] (pointer receiver): the list [*al] is left with, and the
    error returned. *)
Definition AttachmentList_UnmarshalJSON (data : string) (al : AttachmentList)
  : AttachmentList * option LibError :=
  let '(attachments, err) := Unmarshal_Attachments data in
  match err with
  | None => (attachments, None)
  | Some _ =>
      let '(num, err) := Unmarshal_int data in
      match err with
      | None => (Some [], None)
      | Some _ => (Some [], None)
      end
  end.

(** [json.Unmarshal(data, &al)] for [var al AttachmentList]. *)
Definition Unmarshal_AttachmentList (data : string) (al : AttachmentList)
  : AttachmentList * option LibError :=
  json.Unmarshal_Unmarshaler AttachmentList_UnmarshalJSON data al.

Record ListOptions : Type := mkListOptions
  { Query : string; Tag : string; Sort : string; Start : Z; Limit : Z }.

Record SearchOptions : Type := mkSearchOptions
  { STag : string; SSort : string; SStart : Z; SLimit : Z }.

(** [ListOptions.ToURLValues] (pointer receiver); [None] is the nil receiver. *)
Definition ListOptions_ToURLValues (opts : option ListOptions) : url.Values :=
  let values : url.Values := ∅ in
  match opts with
  | None => values
  | Some opts =>
      let values :=
        if 0 <? Start opts
        then url.Values_Set values "start" (strconv.Itoa (Start opts))
        else values in
      let values :=
        if 0 <? Limit opts
        then url.Values_Set values "limit" (strconv.Itoa (Limit opts))
        else values in
      let values :=
        if url.nonempty (Query opts)
        then url.Values_Set values "query" (Query opts) else values in
      let values :=
        if url.nonempty (Tag opts)
        then url.Values_Set values "tag" (Tag opts) else values in
      let values :=
        if url.nonempty (Sort opts)
        then url.Values_Set values "sort" (Sort opts) else values in
      values
  end.

(** [SearchOptions.ToURLValues] (pointer receiver). *)
Definition SearchOptions_ToURLValues (opts : option SearchOptions) : url.Values :=
  let values : url.Values := ∅ in
  match opts with
  | None => values
  | Some opts =>
      let values :=
        if 0 <? SStart opts
        then url.Values_Set values "start" (strconv.Itoa (SStart opts))
        else values in
      let values :=
        if 0 <? SLimit opts
        then url.Values_Set values "limit" (strconv.Itoa (SLimit opts))
        else values in
      let values :=
        if url.nonempty (STag opts)
        then url.Values_Set values "tag" (STag opts) else values in
      let values :=
        if url.nonempty (SSort opts)
        then url.Values_Set values "sort" (SSort opts) else values in
      values
  end.

#[export] Instance AttachmentList_Target : json.Target AttachmentList :=
  json.mkTarget AttachmentList None Unmarshal_AttachmentList.

(** [[]string], as [GetTags] and [SetTags] decode it. *)
#[export] Instance strings_Target : json.Target (option (list string)) :=
  json.mkTarget (option (list string)) None
    (json.Unmarshal_with
       (json.decode_slice EmptyString json.decode_string "[]string")).

Record ReleaseMessageRequest : Type := mkReleaseMessageRequest
  { RHost : string; RTo : option (list string); RPort : Z }.

(** The JSON of a [ReleaseMessageRequest]: [host] and [port] are omitted
    when empty. *)
Definition encode_ReleaseMessageRequest (r : ReleaseMessageRequest) : string :=
  "{"
  +:+ (if url.nonempty (RHost r)
       then json.encode_string "host" +:+ ":" +:+ json.encode_string (RHost r) +:+ ","
       else EmptyString)
  +:+ json.encode_string "to" +:+ ":" +:+ json.encode_strings (RTo r)
  +:+ (if RPort r =? 0 then EmptyString
       else "," +:+ json.encode_string "port" +:+ ":" +:+ strconv.Itoa (RPort r))
  +:+ "}".

(** ** client.go *)

(** An [*http.Client] as the configuration holds it; what its [Do] returns
    is the world's. *)
Record HTTPClient : Type := mkHTTPClient { ClientTimeout : Z }.

Record Config : Type := mkConfig
  { HTTPClient_ : option HTTPClient;
    BaseURL : string;
    APIPath : string;
    Username : string;
    Password : string;
    APIKey : string;
    UserAgent : string;
    Timeout : Z;
    MaxRetries : Z;
    RetryDelay : Z }.

Definition Second : Z := 1000000000.

Definition DefaultConfig : Config :=
  mkConfig (Some (mkHTTPClient (30 * Second)))
           "http://localhost:8025" "/api/v1"
           EmptyString EmptyString EmptyString
           "mailpit-go-client/1.0.0"
           (30 * Second) 3 (1 * Second).

Record client : Type := mkClient
  { config : Config;
    baseURL : url.URL;
    apiURL : string;
    userAgent : string }.

(** [NewClient]: the client and the error returned ([None] is nil). The
    configuration the client keeps is the caller's, with its defaults
    filled in. *)
Definition NewClient (config : option Config) : option client * option error :=
  let config := match config with None => DefaultConfig | Some c => c end in
  if String.eqb (BaseURL config) EmptyString then
    (None, Some (MailpitError
       (mkError None ErrorTypeConfig "BaseURL is required" EmptyString 0)))
  else
    match url.Parse (BaseURL config) with
    | inr err =>
        (None, Some (MailpitError
           (mkError (Some err) ErrorTypeConfig
                    ("invalid BaseURL: " +:+ LibError_Error err) EmptyString 0)))
    | inl baseURL =>
        let apiPath :=
          if String.eqb (APIPath config) EmptyString
          then "/api/v1" else APIPath config in
        let httpClient :=
          match HTTPClient_ config with
          | None => Some (mkHTTPClient (Timeout config))
          | Some h => Some h
          end in
        let userAgent :=
          if String.eqb (UserAgent config) EmptyString
          then "mailpit-go-client/1.0.0" else UserAgent config in
        let config :=
          mkConfig httpClient (BaseURL config) apiPath (Username config)
                   (Password config) (APIKey config) userAgent
                   (Timeout config) (MaxRetries config) (RetryDelay config) in
        let apiURL := url.String_ baseURL +:+ APIPath config in
        (Some (mkClient config baseURL apiURL (UserAgent config)), None)
    end.

(** What one turn of the retry loop does to the loop: [return], [continue]
    or [break], the last two with the value of [lastErr]. *)
Inductive flow : Type :=
| Return (resp : option http.Response) (err : option error)
| Continue (lastErr : option error)
| Break (lastErr : option error).

(** The headers [makeRequest] sets on the request. *)
Definition set_headers (c : client) (req : http.Request) : http.Request :=
  let req := http.SetHeader req "User-Agent" (userAgent c) in
  let req := http.SetHeader req "Content-Type" "application/json" in
  let req := http.SetHeader req "Accept" "application/json" in
  if url.nonempty (APIKey (config c))
  then http.SetHeader req "Authorization" ("Bearer " +:+ APIKey (config c))
  else if url.nonempty (Username (config c)) && url.nonempty (Password (config c))
  then http.SetBasicAuth req (Username (config c)) (Password (config c))
  else req.

(** The request of one attempt: [http.NewRequestWithContext] on what the
    reader holds at that attempt, and the headers. *)
Definition build_request (c : client) (method u : string) (body : option string)
  : http.Request + LibError :=
  match http.NewRequestWithContext method u body with
  | inr err => inr err
  | inl req => inl (set_headers c req)
  end.

Definition request_error (err : LibError) : error :=
  MailpitError (mkError (Some err) ErrorTypeRequest
                  ("failed to create request: " +:+ LibError_Error err)
                  EmptyString 0).

Definition network_error (err : LibError) : error :=
  MailpitError (mkError (Some err) ErrorTypeNetwork
                  ("request failed: " +:+ LibError_Error err) EmptyString 0).

Definition api_error (resp : http.Response) : error :=
  MailpitError (mkError None ErrorTypeAPI
                  ("API request failed with status "
                   +:+ strconv.Itoa (http.StatusCode resp))
                  (http.content (http.RespBody resp))
                  (http.StatusCode resp)).

(** The body of the loop of [makeRequest], at the value [attempt] of the
    loop variable and after [calls] calls of the transport: what the turn
    does to the loop, and the number of calls after it. [body] is the
    reader as the caller passed it; the request is built from what the
    earlier calls left in it. The client is one [NewClient] built: its
    [HTTPClient] is not nil. *)
Definition attempt_body (c : client) (w : World) (method u : string)
           (body : option string) (attempt : Z) (calls : nat)
  : flow * nat :=
  match (if 0 <? attempt then wait w calls else TimerFired) with
  | CtxDone ctxErr => (Return None (Some (LibraryError ctxErr)), calls)
  | TimerFired =>
      match build_request c method u (reader_at w body calls) with
      | inr err => (Return None (Some (request_error err)), calls)
      | inl req =>
          match Do w calls req with
          | http.DoError err => (Continue (Some (network_error err)), S calls)
          | http.DoResponse resp =>
              let status := http.StatusCode resp in
              if (http.StatusOK <=? status) && (status <? http.StatusMultipleChoices)
              then (Return (Some resp) None, S calls)
              else
                let lastErr := Some (api_error resp) in
                if (http.StatusBadRequest <=? status)
                   && (status <? http.StatusInternalServerError)
                   && negb (status =? http.StatusTooManyRequests)
                then (Break lastErr, S calls)
                else (Continue lastErr, S calls)
          end
      end
  end.

(** The loop [for attempt := 0; attempt <= MaxRetries; attempt++], run for
    at most [fuel] tests of its condition, with the number of calls of the
    transport made. *)
Fixpoint retry_loop (c : client) (w : World) (method u : string)
         (body : option string) (fuel : nat) (attempt : Z) (calls : nat)
         (lastErr : option error)
  : outcome (option http.Response * option error) * nat :=
  match fuel with
  | O => (Diverges, calls)
  | S fuel' =>
      if attempt <=? MaxRetries (config c) then
        match attempt_body c w method u body attempt calls with
        | (Return resp err, calls') => (Returns (resp, err), calls')
        | (Break lastErr', calls') => (Returns (None, lastErr'), calls')
        | (Continue lastErr', calls') =>
            retry_loop c w method u body fuel' (wrap_int (attempt + 1)) calls' lastErr'
        end
      else (Returns (None, lastErr), calls)
  end.

(** The fuel that lets the loop finish whenever [MaxRetries] is below the
    largest [int]: one test per attempt and the last, failing one. *)
Definition loop_fuel (c : client) : nat :=
  S (Z.to_nat (MaxRetries (config c) + 1)).

(** [makeRequest]: the response and the error returned ([None] is nil), and
    the number of times the transport was called. [Diverges]: the loop does
    not end within [loop_fuel] turns (with [MaxRetries] the largest [int],
    [attempt++] wraps around and the condition of the loop never fails). *)
Definition makeRequest (c : client) (w : World) (method endpoint : string)
           (body : option string)
  : outcome (option http.Response * option error) * nat :=
  let u := apiURL c +:+ endpoint in
  retry_loop c w method u body (loop_fuel c) 0 0 None.

(** [parseResponse]: the target after the call ([None]: the caller passed
    a nil target) and the error returned. [defer resp.Body.Close()] is its
    first statement: on a nil response it panics. *)
Definition parseResponse {T : Type} `{json.Target T}
           (resp : option http.Response) (target : option T)
  : outcome (option T * option error) :=
  match resp with
  | None => Panics
  | Some resp =>
      match target with
      | None => Returns (None, None)
      | Some t =>
          let body := http.content (http.RespBody resp) in
          match http.readErr (http.RespBody resp) with
          | Some err =>
              Returns (target, Some (MailpitError
                 (mkError (Some err) ErrorTypeResponse
                          ("failed to read response body: " +:+ LibError_Error err)
                          EmptyString 0)))
          | None =>
              if (String.length body =? 0)%nat then Returns (target, None)
              else
                let '(t', err) := json.Unmarshal body t in
                match err with
                | Some err =>
                    Returns (Some t', Some (MailpitError
                       (mkError (Some err) ErrorTypeResponse
                                ("failed to parse JSON response: "
                                 +:+ LibError_Error err)
                                EmptyString 0)))
                | None => Returns (Some t', None)
                end
          end
      end
  end.

(** ** The operations

    Every operation ends in one of three ways once [makeRequest] has
    returned: it closes the body and returns nil ([discard]), it reads the
    body and returns it ([read_body]), or it decodes the body into a fresh
    variable ([decode_ptr], [decode_value]). Each takes what [makeRequest]
    returned; an error is returned as it is. *)

Definition after_request {A : Type}
           (r : outcome (option http.Response * option error) * nat)
           (on_err : error -> A) (k : option http.Response -> outcome A)
  : outcome A * nat :=
  match r with
  | (Returns (_, Some err), n) => (Returns (on_err err), n)
  | (Returns (resp, None), n) => (k resp, n)
  | (Panics, n) => (Panics, n)
  | (Diverges, n) => (Diverges, n)
  end.

(** [defer resp.Body.Close(); return nil]. *)
Definition discard (r : outcome (option http.Response * option error) * nat)
  : outcome (option error) * nat :=
  after_request r Some
    (fun resp => match resp with
                 | None => Panics
                 | Some _ => Returns None
                 end).

Definition read_error (what : string) (err : LibError) : error :=
  MailpitError (mkError (Some err) ErrorTypeResponse
                  ("failed to read " +:+ what +:+ ": " +:+ LibError_Error err)
                  EmptyString 0).

(** [defer resp.Body.Close(); body, err := io.ReadAll(resp.Body); ...]:
    the body, or the zero value [nothing] and a response error. *)
Definition read_body {A : Type} (nothing : A) (wrap : string -> A) (what : string)
           (r : outcome (option http.Response * option error) * nat)
  : outcome (A * option error) * nat :=
  after_request r (fun err => (nothing, Some err))
    (fun resp =>
       match resp with
       | None => Panics
       | Some resp =>
           match http.readErr (http.RespBody resp) with
           | Some err => Returns (nothing, Some (read_error what err))
           | None => Returns (wrap (http.content (http.RespBody resp)), None)
           end
       end).

(** [var result T; parseResponse(resp, &result); return &result, nil]. *)
Definition decode_ptr {T : Type} `{json.Target T}
           (r : outcome (option http.Response * option error) * nat)
  : outcome (option T * option error) * nat :=
  after_request r (fun err => (None, Some err))
    (fun resp =>
       match parseResponse resp (Some json.zero) with
       | Returns (_, Some err) => Returns (None, Some err)
       | Returns (t, None) => Returns (t, None)
       | Panics => Panics
       | Diverges => Diverges
       end).

(** [var result T; parseResponse(resp, &result); return result, nil], for
    a slice or a map [T]. *)
Definition decode_value {T : Type} `{json.Target T}
           (r : outcome (option http.Response * option error) * nat)
  : outcome (T * option error) * nat :=
  after_request r (fun err => (json.zero, Some err))
    (fun resp =>
       match parseResponse resp (Some json.zero) with
       | Returns (_, Some err) => Returns (json.zero, Some err)
       | Returns (t, None) => Returns (default json.zero t, None)
       | Panics => Panics
       | Diverges => Diverges
       end).

(** An operation that fails its validation: no request is made. *)
Definition invalid {A : Type} (nothing : A) (message : string)
  : outcome (A * option error) * nat :=
  (Returns (nothing, Some (MailpitError (NewValidationError message))), O).

Definition invalid_ (message : string) : outcome (option error) * nat :=
  (Returns (Some (MailpitError (NewValidationError message))), O).

Definition is_empty (s : string) : bool := String.eqb s EmptyString.

(** The endpoint [ListMessages] requests. *)
Definition ListMessages_endpoint (opts : option ListOptions) : string :=
  let endpoint := "/messages" in
  match opts with
  | Some _ =>
      let params := ListOptions_ToURLValues opts in
      if (0 <? size params)%nat
      then endpoint +:+ "?" +:+ url.Values_Encode params
      else endpoint
  | None => endpoint
  end.

Section Operations.

Variable c : client.
Variable w : World.

(** The types the bodies are decoded into: encoding/json fills them by
    reflection, which the [json.Target] instance of each stands for. *)
Context {MessagesResponse Message Headers HTMLCheckResponse LinkCheckResponse
         SpamAssassinCheckResponse EventsResponse ServerInfo Stats
         WebUIConfig ChaosResponse : Type}.
Context `{!json.Target MessagesResponse} `{!json.Target Message}
        `{!json.Target Headers} `{!json.Target HTMLCheckResponse}
        `{!json.Target LinkCheckResponse}
        `{!json.Target SpamAssassinCheckResponse}
        `{!json.Target EventsResponse} `{!json.Target ServerInfo}
        `{!json.Target Stats} `{!json.Target WebUIConfig}
        `{!json.Target ChaosResponse}.

Definition ListMessages (opts : option ListOptions)
  : outcome (option MessagesResponse * option error) * nat :=
  decode_ptr (makeRequest c w http.MethodGet (ListMessages_endpoint opts) None).

Definition GetMessage (id : string)
  : outcome (option Message * option error) * nat :=
  if is_empty id then invalid None "message ID cannot be empty"
  else decode_ptr (makeRequest c w http.MethodGet ("/message/" +:+ id) None).

Definition GetMessageSource (id : string)
  : outcome (string * option error) * nat :=
  if is_empty id then invalid EmptyString "message ID cannot be empty"
  else read_body EmptyString (fun b => b) "message source"
         (makeRequest c w http.MethodGet ("/messages/" +:+ id +:+ "/source") None).

Definition DeleteMessage (id : string) : outcome (option error) * nat :=
  if is_empty id then invalid_ "message ID cannot be empty"
  else discard (makeRequest c w http.MethodDelete ("/messages/" +:+ id) None).

Definition DeleteAllMessages : outcome (option error) * nat :=
  discard (makeRequest c w http.MethodDelete "/messages" None).

(** The loops over [urlValues] append [key=value], unescaped. Go leaves
    the order in which a map is ranged over unspecified; the model takes
    the order of [map_to_list]. *)
Definition search_params (query : string) (opts : option SearchOptions)
  : list string :=
  let params := ["query=" +:+ url.QueryEscape query] in
  match opts with
  | Some _ =>
      params ++ flat_map (fun kv => map (fun value => kv.1 +:+ "=" +:+ value) kv.2)
                         (map_to_list (SearchOptions_ToURLValues opts))
  | None => params
  end.

Definition SearchMessages (query : string) (opts : option SearchOptions)
  : outcome (option MessagesResponse * option error) * nat :=
  if is_empty query then invalid None "search query cannot be empty"
  else
    let params := search_params query opts in
    let endpoint :=
      if (0 <? length params)%nat
      then "/search" +:+ "?" +:+ strings.Join params "&" else "/search" in
    decode_ptr (makeRequest c w http.MethodGet endpoint None).

Definition GetMessageAttachment (messageID attachmentID : string)
  : outcome (option string * option error) * nat :=
  if is_empty messageID then invalid None "message ID cannot be empty"
  else if is_empty attachmentID then invalid None "attachment ID cannot be empty"
  else read_body None Some "attachment data"
         (makeRequest c w http.MethodGet
            ("/messages/" +:+ messageID +:+ "/part/" +:+ attachmentID) None).

Definition MarkMessageRead (id : string) : outcome (option error) * nat :=
  if is_empty id then invalid_ "message ID cannot be empty"
  else discard (makeRequest c w http.MethodPut ("/messages/" +:+ id +:+ "/read") None).

Definition MarkMessageUnread (id : string) : outcome (option error) * nat :=
  if is_empty id then invalid_ "message ID cannot be empty"
  else discard (makeRequest c w http.MethodPut ("/messages/" +:+ id +:+ "/unread") None).

Definition GetMessageHeaders (id : string)
  : outcome (Headers * option error) * nat :=
  if is_empty id then invalid json.zero "message ID cannot be empty"
  else decode_value
         (makeRequest c w http.MethodGet ("/message/" +:+ id +:+ "/headers") None).

Definition GetMessageHTMLCheck (id : string)
  : outcome (option HTMLCheckResponse * option error) * nat :=
  if is_empty id then invalid None "message ID cannot be empty"
  else decode_ptr
         (makeRequest c w http.MethodGet ("/message/" +:+ id +:+ "/html-check") None).

Definition GetMessageLinkCheck (id : string)
  : outcome (option LinkCheckResponse * option error) * nat :=
  if is_empty id then invalid None "message ID cannot be empty"
  else decode_ptr
         (makeRequest c w http.MethodGet ("/message/" +:+ id +:+ "/link-check") None).

Definition GetMessageSpamAssassinCheck (id : string)
  : outcome (option SpamAssassinCheckResponse * option error) * nat :=
  if is_empty id then invalid None "message ID cannot be empty"
  else decode_ptr
         (makeRequest c w http.MethodGet ("/message/" +:+ id +:+ "/sa-check") None).

Definition GetMessagePart (messageID partID : string)
  : outcome (option string * option error) * nat :=
  if is_empty messageID then invalid None "message ID cannot be empty"
  else if is_empty partID then invalid None "part ID cannot be empty"
  else read_body None Some "message part data"
         (makeRequest c w http.MethodGet
            ("/message/" +:+ messageID +:+ "/part/" +:+ partID) None).

Definition GetMessagePartThumbnail (messageID partID : string)
  : outcome (option string * option error) * nat :=
  if is_empty messageID then invalid None "message ID cannot be empty"
  else if is_empty partID then invalid None "part ID cannot be empty"
  else read_body None Some "thumbnail data"
         (makeRequest c w http.MethodGet
            ("/message/" +:+ messageID +:+ "/part/" +:+ partID +:+ "/thumb") None).

Definition encode_failed (message : string) (err : LibError) : error :=
  MailpitError (mkError (Some err) ErrorTypeRequest message EmptyString 0).

Definition ReleaseMessage (id : string) (releaseData : option ReleaseMessageRequest)
  : outcome (option error) * nat :=
  if is_empty id then invalid_ "message ID cannot be empty"
  else
    match releaseData with
    | None => invalid_ "release data cannot be nil"
    | Some data =>
        match json.Encode encode_ReleaseMessageRequest data with
        | inr err =>
            (Returns (Some (encode_failed "failed to encode release message request" err)), O)
        | inl body =>
            discard (makeRequest c w http.MethodPost
                       ("/message/" +:+ id +:+ "/release") (Some body))
        end
    end.

Definition DeleteSearchResults (query : string) : outcome (option error) * nat :=
  if is_empty query then invalid_ "search query cannot be empty"
  else discard (makeRequest c w http.MethodDelete
                  ("/search?query=" +:+ url.QueryEscape query) None).

(** tags.go *)

Definition SetTags (tags : option (list string))
  : outcome (option (list string) * option error) * nat :=
  match json.Encode json.encode_strings tags with
  | inr err => (Returns (None, Some (encode_failed "failed to encode tags" err)), O)
  | inl body => decode_value (makeRequest c w http.MethodPut "/tags" (Some body))
  end.

Definition SetMessageTags (tag : string) (messageIDs : option (list string))
  : outcome (option error) * nat :=
  if is_empty tag then invalid_ "tag cannot be empty"
  else if (length (default [] messageIDs) =? 0)%nat
  then invalid_ "message IDs cannot be empty"
  else
    match json.Encode json.encode_strings messageIDs with
    | inr err => (Returns (Some (encode_failed "failed to encode message IDs" err)), O)
    | inl body =>
        discard (makeRequest c w http.MethodPut ("/tags/" +:+ tag) (Some body))
    end.

Definition DeleteTag (tag : string) : outcome (option error) * nat :=
  if is_empty tag then invalid_ "tag cannot be empty"
  else discard (makeRequest c w http.MethodDelete ("/tags/" +:+ tag) None).

(** views.go *)

Definition GetMessageHTML (id : string) : outcome (string * option error) * nat :=
  if is_empty id then invalid EmptyString "message ID cannot be empty"
  else read_body EmptyString (fun b => b) "HTML content"
         (makeRequest c w http.MethodGet ("/view/" +:+ id +:+ ".html") None).

Definition GetMessageText (id : string) : outcome (string * option error) * nat :=
  if is_empty id then invalid EmptyString "message ID cannot be empty"
  else read_body EmptyString (fun b => b) "text content"
         (makeRequest c w http.MethodGet ("/view/" +:+ id +:+ ".txt") None).

Definition GetMessageRaw (id : string) : outcome (string * option error) * nat :=
  if is_empty id then invalid EmptyString "message ID cannot be empty"
  else read_body EmptyString (fun b => b) "raw content"
         (makeRequest c w http.MethodGet ("/view/" +:+ id +:+ ".raw") None).

Definition GetMessagePartHTML (messageID partID : string)
  : outcome (string * option error) * nat :=
  if is_empty messageID then invalid EmptyString "message ID cannot be empty"
  else if is_empty partID then invalid EmptyString "part ID cannot be empty"
  else read_body EmptyString (fun b => b) "part HTML content"
         (makeRequest c w http.MethodGet
            ("/view/" +:+ messageID +:+ "/part/" +:+ partID +:+ ".html") None).

Definition GetMessagePartText (messageID partID : string)
  : outcome (string * option error) * nat :=
  if is_empty messageID then invalid EmptyString "message ID cannot be empty"
  else if is_empty partID then invalid EmptyString "part ID cannot be empty"
  else read_body EmptyString (fun b => b) "part text content"
         (makeRequest c w http.MethodGet
            ("/view/" +:+ messageID +:+ "/part/" +:+ partID +:+ ".text") None).

Definition GetMessageEvents (id : string)
  : outcome (option EventsResponse * option error) * nat :=
  if is_empty id then invalid None "message ID cannot be empty"
  else decode_ptr
         (makeRequest c w http.MethodGet ("/message/" +:+ id +:+ "/events") None).

(** server.go *)

Definition GetServerInfo : outcome (option ServerInfo * option error) * nat :=
  decode_ptr (makeRequest c w http.MethodGet "/info" None).

Definition HealthCheck : outcome (option error) * nat :=
  discard (makeRequest c w http.MethodGet "/info" None).

Definition GetStats : outcome (option Stats * option error) * nat :=
  decode_ptr (makeRequest c w http.MethodGet "/stats" None).

Definition GetTags : outcome (option (list string) * option error) * nat :=
  decode_value (makeRequest c w http.MethodGet "/tags" None).

Definition Ping : outcome (option error) * nat :=
  discard (makeRequest c w http.MethodHead "/info" None).

Definition GetWebUIConfig : outcome (option WebUIConfig * option error) * nat :=
  decode_ptr (makeRequest c w http.MethodGet "/webui" None).

Definition GetChaosConfig : outcome (option ChaosResponse * option error) * nat :=
  decode_ptr (makeRequest c w http.MethodGet "/chaos" None).

End Operations.

(** The operations whose request is a struct written by reflection: the
    [json.Source] instance of each stands for its encoding. *)
Section Sending.

Variable c : client.
Variable w : World.

Context {SendMessageRequest SendMessageResponse ChaosTriggers ChaosResponse
         : Type}.
Context `{!json.Source SendMessageRequest} `{!json.Target SendMessageResponse}
        `{!json.Source ChaosTriggers} `{!json.Target ChaosResponse}.

Definition SendMessage (message : option SendMessageRequest)
  : outcome (option SendMessageResponse * option error) * nat :=
  match message with
  | None => invalid None "message cannot be nil"
  | Some _ =>
      let endpoint := "/send" in
      match json.Encode_ptr message with
      | inr err =>
          (Returns (None, Some (encode_failed
                                  "failed to encode send message request" err)), O)
      | inl body => decode_ptr (makeRequest c w http.MethodPost endpoint (Some body))
      end
  end.

(** No check of [config]: a nil pointer is encoded like any other. *)
Definition SetChaosConfig (config : option ChaosTriggers)
  : outcome (option ChaosResponse * option error) * nat :=
  let endpoint := "/chaos" in
  match json.Encode_ptr config with
  | inr err =>
      (Returns (None, Some (encode_failed "failed to encode chaos config" err)), O)
  | inl body => decode_ptr (makeRequest c w http.MethodPut endpoint (Some body))
  end.

End Sending.

(** [Close]: the type assertion reads the [Transport] of the HTTP client
    of the configuration, a nil pointer dereference when there is none;
    closing the idle connections of a transport changes nothing the
    operations read. It makes no request and returns nil. *)
Definition Close (c : client) : outcome (option error) * nat :=
  match HTTPClient_ (config c) with
  | None => (Panics, O)
  | Some _ => (Returns None, O)
  end.

(** ** Reading an execution of [makeRequest]

    The first attempt has no select before it; a later one starts when the
    timer fires first. *)
Definition timer_fires (w : World) (attempt : Z) (calls : nat) : Prop :=
  (0 <? attempt) = false \/ wait w calls = TimerFired.

(** What the transport answers to its [i]-th call (from 0), made on the
    request built from what the reader holds then; [None] when no request
    can be built. *)
Definition answer_at (c : client) (w : World) (method u : string)
           (body : option string) (i : nat) : option http.RoundTrip :=
  match build_request c method u (reader_at w body i) with
  | inl req => Some (Do w i req)
  | inr _ => None
  end.

(** The [i]-th turn of the loop (from 0) ends in [continue]: the attempt
    was made, it failed, and it may be retried. *)
Definition turn_continues (c : client) (w : World) (method u : string)
           (body : option string) (i : nat) : Prop :=
  exists e, attempt_body c w method u body (Z.of_nat i) i = (Continue (Some e), S i).

(** Exactly one of the response and the error is nil. *)
Definition exactly_one (resp : option http.Response) (err : option error) : Prop :=
  (resp = None /\ err <> None) \/ (resp <> None /\ err = None).


(** The call fails its validation: it returns an error of the validation
    class and the transport was not called. *)
Definition validation_failure {A : Type} (r : outcome (A * option error) * nat) : Prop :=
  exists a e, r = (Returns (a, Some (MailpitError e)), 0%nat)
              /\ Type_ e = ErrorTypeValidation.

Definition validation_failure_ (r : outcome (option error) * nat) : Prop :=
  exists e, r = (Returns (Some (MailpitError e)), 0%nat)
            /\ Type_ e = ErrorTypeValidation.

(** ** Reading an encoded query string *)

(** The segment [Encode] writes for a key and one of its values. *)
Definition segment (kv : string * string) : string :=
  url.QueryEscape kv.1 +:+ "=" +:+ url.QueryEscape kv.2.

(** The pairs [Encode] writes, in its order. *)
Definition pairs_of (v : url.Values) (keys : list string) : list (string * string) :=
  flat_map (fun k => map (fun x => (k, x)) (default [] (v !! k))) keys.

(** [m[key] = append(m[key], value)]. *)
Definition add_value (m : url.Values) (kv : string * string) : url.Values :=
  <[kv.1 := default [] (m !! kv.1) ++ [kv.2]]> m.

(** ** Reading a JSON document *)

(** A scanner that has met no error. *)
Definition scan_ok (s : json.scanner) : Prop :=
  json.err s = None /\ json.next s <> json.stateError
  /\ (json.endTop s = true -> json.next s = json.stateEndTop).

(** A scanner stopped at an error. *)
Definition scan_failed (s : json.scanner) : Prop :=
  json.next s = json.stateError /\ json.err s <> None.

(** The scanner and the value under construction after the bytes of
    [data]. *)
Fixpoint run (s : json.scanner) (b : json.builder) (data : string)
  : json.scanner * json.builder :=
  match data with
  | EmptyString => (s, b)
  | String c rest =>
      let '(s', op) := json.scan_step s c in
      run s' (json.build_step b op c) rest
  end.

(** [s] holds nothing but the white space of JSON. *)
Fixpoint all_space (s : string) : bool :=
  match s with
  | EmptyString => true
  | String c rest => json.isSpace c && all_space rest
  end.

(** Every error of the scanner is a [json.SyntaxError]. *)
Definition syntax_errors_only (s : json.scanner) : Prop :=
  forall e, json.err s = Some e -> exists msg, e = json_SyntaxError msg.

(** The JSON object that holds the four fields of [a] under their names. *)
Definition attachment_object (a : Attachment) : json.JSON :=
  json.JObject
    [("PartID", json.JString (PartID a));
     ("FileName", json.JString (FileName a));
     ("ContentType", json.JString (ContentType a));
     ("Size", json.JNumber (strconv.Itoa (Size a)))].

(** A value that is neither an array, a number nor [null]. *)
Definition wrong_shape (v : json.JSON) : bool :=
  match v with
  | json.JObject _ | json.JBool _ | json.JString _ => true
  | _ => false
  end.

(** The elements of an array stored into a fresh [[]Attachment]. *)
Definition decode_attachments (elems : list json.JSON)
  : list Attachment * option LibError :=
  json.decode_elems zeroAttachment decode_Attachment elems.

Definition newline : string := str1 (byte_of 10).

(** The text of an object holding the four fields of [a], one per line. *)
Definition attachment_text (a : Attachment) : string :=
  "{" +:+ newline
  +:+ "  " +:+ strconv.Quote "PartID" +:+ ": " +:+ strconv.Quote (PartID a)
  +:+ "," +:+ newline
  +:+ "  " +:+ strconv.Quote "FileName" +:+ ": " +:+ strconv.Quote (FileName a)
  +:+ "," +:+ newline
  +:+ "  " +:+ strconv.Quote "ContentType" +:+ ": "
  +:+ strconv.Quote (ContentType a) +:+ "," +:+ newline
  +:+ "  " +:+ strconv.Quote "Size" +:+ ": " +:+ strconv.Itoa (Size a) +:+ newline
  +:+ "}".

Definition sample_attachments : list Attachment :=
  [mkAttachment "1" "document.pdf" "application/pdf" 1024;
   mkAttachment "2" "image.jpg" "image/jpeg" 2048].

(** The document of the test "valid attachment list". *)
Definition sample_attachments_text : string :=
  "[" +:+ newline +:+ strings.Join (attachment_text <$> sample_attachments)
                        ("," +:+ newline) +:+ newline +:+ "]".

(** The document of the test "attachment with missing fields": the key
    [Filename] differs from the field [FileName] in case only. *)
Definition missing_fields_text : string :=
  "[{" +:+ strconv.Quote "PartID" +:+ ": " +:+ strconv.Quote "1" +:+ ", "
  +:+ strconv.Quote "Filename" +:+ ": " +:+ strconv.Quote "test.txt" +:+ "}]".

(** ** Sample configurations, transports and contexts *)

Definition test_config (retries : Z) : Config :=
  mkConfig None "http://localhost:8025" EmptyString EmptyString EmptyString
           EmptyString EmptyString (30 * Second) retries Second.

(** A configuration with the base URL [base] and nothing else set. *)
Definition base_config (base : string) : Config :=
  mkConfig None base EmptyString EmptyString EmptyString EmptyString
           EmptyString 0 0 0.

(** The client [NewClient] builds from [test_config retries]. *)
Definition test_client (retries : Z) : client :=
  mkClient
    (mkConfig (Some (mkHTTPClient (30 * Second))) "http://localhost:8025"
              "/api/v1" EmptyString EmptyString EmptyString
              "mailpit-go-client/1.0.0" (30 * Second) retries Second)
    (url.mkURL "http" EmptyString None "localhost:8025" EmptyString EmptyString
               false false EmptyString EmptyString EmptyString)
    "http://localhost:8025/api/v1" "mailpit-go-client/1.0.0".

(** A fake transport: its [n]-th call returns the [n]-th entry of the
    script, and [rest] once the script is used up. *)
Definition scripted (script : list http.RoundTrip) (rest : http.RoundTrip)
  : nat -> http.Request -> http.RoundTrip :=
  fun n _ => nth n script rest.

Definition respond (status : Z) (body : string) : http.RoundTrip :=
  http.DoResponse (http.mkResponse status (http.mkBody body None)).

Definition refused : http.RoundTrip :=
  http.DoError (errors_New "dial tcp 127.0.0.1:8025: connect: connection refused").

(** A server that is busy at the first call and then accepts any request
    with a body that is not empty, answering 400 to the others. *)
Definition wants_a_body : nat -> http.Request -> http.RoundTrip :=
  fun n req =>
    match n, http.ReqBody req with
    | O, _ => respond 503 "busy"
    | _, Some (String _ _) => respond 200 "ok"
    | _, _ => respond 400 "empty body"
    end.

(** The encoding of a request held as its JSON text; [null] for the nil
    pointer. *)
Definition written_as_given : json.Source string :=
  json.mkSource string (fun v => inl (default "null"%string v)).

(** A context that is never done. *)
Definition background : nat -> WaitOutcome := fun _ => TimerFired.

(** A context cancelled during the wait that follows the [k]-th call. *)
Definition cancelled_at (k : nat) : nat -> WaitOutcome :=
  fun n => if (n =? k)%nat then CtxDone context_Canceled else TimerFired.

(** ** Reading what the engine and the operations do *)

(** The error a failed attempt leaves in [lastErr]. *)
Definition attempt_error (r : http.RoundTrip) : error :=
  match r with
  | http.DoError err => network_error err
  | http.DoResponse resp => api_error resp
  end.

(** Where an error [makeRequest] returns comes from. *)
Definition error_origin (c : client) (w : World) (method u : string)
           (body : option string) (e : error) : Prop :=
  (exists ctxErr k, wait w k = CtxDone ctxErr /\ e = LibraryError ctxErr)
  \/ (exists k err,
        build_request c method u (reader_at w body k) = inr err
        /\ e = request_error err)
  \/ (exists k err,
        answer_at c w method u body k = Some (http.DoError err)
        /\ e = network_error err)
  \/ (exists k resp,
        answer_at c w method u body k = Some (http.DoResponse resp)
        /\ ~ (200 <= http.StatusCode resp < 300)
        /\ e = api_error resp).

(** An answer of the transport after which the loop goes on: an error, or
    a status that is neither in [200, 300) nor a 4xx other than 429. *)
Definition retried (r : http.RoundTrip) : Prop :=
  match r with
  | http.DoError _ => True
  | http.DoResponse resp =>
      ~ (200 <= http.StatusCode resp < 300)
      /\ ~ (400 <= http.StatusCode resp < 500 /\ http.StatusCode resp <> 429)
  end.

(** The error [url.Parse] returns on a URL with a control character. *)
Definition control_character_error (u : string) : LibError :=
  url_Error "parse" u (errors_New "net/url: invalid control character in URL").

(** The value [makeRequest] gives the [Authorization] header, if any. *)
Definition authorization (cfg : Config) : option (list string) :=
  if url.nonempty (APIKey cfg) then Some ["Bearer " +:+ APIKey cfg]
  else if url.nonempty (Username cfg) && url.nonempty (Password cfg)
  then Some ["Basic " +:+ base64.EncodeToString
                            (Username cfg +:+ ":" +:+ Password cfg)]
  else None.


(** The parameters [SearchMessages] appends for the options, each as it
    is written: the key, [=], and the value as it stands. *)
Definition option_params (o : SearchOptions) : list string :=
  (if url.nonempty (SSort o) then ["sort=" +:+ SSort o] else [])
  ++ (if url.nonempty (STag o) then ["tag=" +:+ STag o] else [])
  ++ (if 0 <? SLimit o then ["limit=" +:+ strconv.Itoa (SLimit o)] else [])
  ++ (if 0 <? SStart o then ["start=" +:+ strconv.Itoa (SStart o)] else []).

(** The transport answers the first call of the request [method]
    [endpoint] with [resp]. *)
Definition answers (c : client) (w : World) (method endpoint : string)
           (body : option string) (resp : http.Response) : Prop :=
  exists req, build_request c method (apiURL c +:+ endpoint) body = inl req
              /\ Do w 0%nat req = http.DoResponse resp.

(** The response error an operation returns when reading the body fails. *)
Definition cannot_read (what : string) (err : LibError) : error :=
  MailpitError (mkError (Some err) ErrorTypeResponse
                  ("failed to read " +:+ what +:+ ": " +:+ LibError_Error err)
                  EmptyString 0).

(** The fields [NewClient] leaves as the caller set them. *)
Definition same_settings (a b : Config) : Prop :=
  BaseURL a = BaseURL b /\ Username a = Username b /\ Password a = Password b
  /\ APIKey a = APIKey b /\ Timeout a = Timeout b
  /\ MaxRetries a = MaxRetries b /\ RetryDelay a = RetryDelay b.

(** The call fails its validation with the message [message]. *)
Definition rejected_ (message : string) (r : outcome (option error) * nat) : Prop :=
  r = (Returns (Some (MailpitError (NewValidationError message))), 0%nat).

(** The call returns: it neither panics nor runs for ever. *)
Definition returns {A : Type} (r : outcome A * nat) : Prop :=
  exists a, r.1 = Returns a.

(** What [makeRequest] gives an operation when [MaxRetries] is in range:
    it returns, with exactly one of the response and the error nil. *)
Definition delivered (r : outcome (option http.Response * option error) * nat)
  : Prop :=
  exists resp err n, r = (Returns (resp, err), n) /\ exactly_one resp err.

(** [utf8.ValidString]. *)
Fixpoint utf8_valid (s : string) : bool :=
  match s with
  | EmptyString => true
  | String c rest =>
      if byte_val c <? 128 then utf8_valid rest
      else
        match json.rune_len c, rest with
        | 2%nat, String c2 r2 => json.second_ok c c2 && utf8_valid r2
        | 3%nat, String c2 (String c3 r3) =>
            json.second_ok c c2 && json.cont_byte c3 && utf8_valid r3
        | 4%nat, String c2 (String c3 (String c4 r4)) =>
            json.second_ok c c2 && json.cont_byte c3 && json.cont_byte c4
            && utf8_valid r4
        | _, _ => false
        end
  end.

(** The scanner after the bytes of [t], when each of them continues the
    literal being read. *)
Fixpoint scan_literal (s : json.scanner) (t : string) : option json.scanner :=
  match t with
  | EmptyString => Some s
  | String c rest =>
      match json.scan_step s c with
      | (s', json.scanContinue) => scan_literal s' rest
      | _ => None
      end
  end.

(** The scanner inside a string literal. *)
Definition in_string (stack : list json.parseState) : json.scanner :=
  json.mkScanner json.stateInString false stack None.

(** The scanner after a value, inside the containers of [stack]. *)
Definition after_value (stack : list json.parseState) : json.scanner :=
  json.mkScanner json.stateEndValue false stack None.

(** A place where a value may begin: after [[], after [,] or [:]. *)
Definition begins_value (st : json.step) : Prop :=
  st = json.stateBeginValue \/ st = json.stateBeginValueOrEmpty.

(** [json.Marshal] of an [Attachment]: the fields in the order of the
    struct, under the names of their tags. *)
Definition encode_Attachment (a : Attachment) : string :=
  "{" +:+ json.encode_string "PartID" +:+ ":" +:+ json.encode_string (PartID a)
  +:+ "," +:+ json.encode_string "FileName" +:+ ":"
  +:+ json.encode_string (FileName a)
  +:+ "," +:+ json.encode_string "ContentType" +:+ ":"
  +:+ json.encode_string (ContentType a)
  +:+ "," +:+ json.encode_string "Size" +:+ ":" +:+ strconv.Itoa (Size a)
  +:+ "}".

(** [json.Marshal] of an [AttachmentList], a slice of structs. *)
Definition encode_AttachmentList (al : AttachmentList) : string :=
  match al with
  | None => "null"
  | Some xs => "[" +:+ strings.Join (map encode_Attachment xs) "," +:+ "]"
  end.

(** An attachment [json.Marshal] and [UnmarshalJSON] agree on: strings of
    valid UTF-8. *)
Definition attachment_valid (a : Attachment) : bool :=
  utf8_valid (PartID a) && utf8_valid (FileName a) && utf8_valid (ContentType a)
  && is_int (Size a).

(** The scanner inside a number: after a lone [0], or after digits. *)
Definition in_number (zero : bool) (stack : list json.parseState) : json.scanner :=
  json.mkScanner (if zero then json.state0 else json.state1) false stack None.

(** * Properties *)

(** ** The retry loop *)

Section RetryLoop.

Variable c : client.
Variable w : World.
Variables method u : string.
Variable body : option string.

Abbreviation M := (MaxRetries (config c)).
Abbreviation turn := (attempt_body c w method u body).
Abbreviation loop := (retry_loop c w method u body).

Lemma wrap_int_small (z : Z) : int_min <= z <= int_max -> wrap_int z = z.
Proof.
  unfold wrap_int, int_min, int_max. intros Hz.
  rewrite Z.mod_small; lia.
Qed.

Lemma is_int_bounds (z : Z) : is_int z = true -> int_min <= z <= int_max.
Proof. unfold is_int. intros H%andb_prop. lia. Qed.

Lemma turn_wait_done attempt calls e :
  0 < attempt -> wait w calls = CtxDone e ->
  turn attempt calls = (Return None (Some (LibraryError e)), calls).
Proof.
  intros Ha Hw. unfold attempt_body.
  replace (0 <? attempt) with true by (symmetry; apply Z.ltb_lt; lia).
  by rewrite Hw.
Qed.

Lemma turn_started attempt calls req :
  timer_fires w attempt calls ->
  build_request c method u (reader_at w body calls) = inl req ->
  turn attempt calls =
    match Do w calls req with
    | http.DoError err => (Continue (Some (network_error err)), S calls)
    | http.DoResponse resp =>
        let status := http.StatusCode resp in
        if (http.StatusOK <=? status) && (status <? http.StatusMultipleChoices)
        then (Return (Some resp) None, S calls)
        else if (http.StatusBadRequest <=? status)
                && (status <? http.StatusInternalServerError)
                && negb (status =? http.StatusTooManyRequests)
             then (Break (Some (api_error resp)), S calls)
             else (Continue (Some (api_error resp)), S calls)
    end.
Proof.
  intros Hw Hreq. unfold attempt_body.
  replace (if 0 <? attempt then wait w calls else TimerFired) with TimerFired.
  - by rewrite Hreq.
  - destruct Hw as [-> | Hw]; [done|]. rewrite Hw. by destruct (0 <? attempt).
Qed.

Lemma turn_network_error attempt calls req err :
  timer_fires w attempt calls ->
  build_request c method u (reader_at w body calls) = inl req ->
  Do w calls req = http.DoError err ->
  turn attempt calls = (Continue (Some (network_error err)), S calls).
Proof. intros Hw Hreq Hdo. by rewrite (turn_started _ _ req), Hdo. Qed.

Lemma turn_success attempt calls req resp :
  timer_fires w attempt calls ->
  build_request c method u (reader_at w body calls) = inl req ->
  Do w calls req = http.DoResponse resp ->
  200 <= http.StatusCode resp < 300 ->
  turn attempt calls = (Return (Some resp) None, S calls).
Proof.
  intros Hw Hreq Hdo Hs. rewrite (turn_started _ _ req), Hdo by done. simpl.
  unfold http.StatusOK, http.StatusMultipleChoices.
  replace (200 <=? http.StatusCode resp) with true by (symmetry; apply Z.leb_le; lia).
  by replace (http.StatusCode resp <? 300) with true by (symmetry; apply Z.ltb_lt; lia).
Qed.

Lemma turn_client_error attempt calls req resp :
  timer_fires w attempt calls ->
  build_request c method u (reader_at w body calls) = inl req ->
  Do w calls req = http.DoResponse resp ->
  400 <= http.StatusCode resp < 500 ->
  http.StatusCode resp <> 429 ->
  turn attempt calls = (Break (Some (api_error resp)), S calls).
Proof.
  intros Hw Hreq Hdo Hs Hne. rewrite (turn_started _ _ req), Hdo by done. simpl.
  unfold http.StatusOK, http.StatusMultipleChoices, http.StatusBadRequest,
    http.StatusInternalServerError, http.StatusTooManyRequests.
  replace (http.StatusCode resp <? 300) with false by (symmetry; apply Z.ltb_ge; lia).
  rewrite andb_false_r.
  replace (400 <=? http.StatusCode resp) with true by (symmetry; apply Z.leb_le; lia).
  replace (http.StatusCode resp <? 500) with true by (symmetry; apply Z.ltb_lt; lia).
  by replace (http.StatusCode resp =? 429) with false by (symmetry; apply Z.eqb_neq; lia).
Qed.

Lemma turn_retryable attempt calls req resp :
  timer_fires w attempt calls ->
  build_request c method u (reader_at w body calls) = inl req ->
  Do w calls req = http.DoResponse resp ->
  500 <= http.StatusCode resp \/ http.StatusCode resp = 429 ->
  turn attempt calls = (Continue (Some (api_error resp)), S calls).
Proof.
  intros Hw Hreq Hdo Hs. rewrite (turn_started _ _ req), Hdo by done. simpl.
  unfold http.StatusOK, http.StatusMultipleChoices, http.StatusBadRequest,
    http.StatusInternalServerError, http.StatusTooManyRequests.
  replace (http.StatusCode resp <? 300) with false by (symmetry; apply Z.ltb_ge; lia).
  rewrite andb_false_r.
  destruct Hs as [Hs | Hs].
  - replace (http.StatusCode resp <? 500) with false by (symmetry; apply Z.ltb_ge; lia).
    by rewrite andb_false_r.
  - rewrite Hs. reflexivity.
Qed.

Lemma answer_at_inv calls r :
  answer_at c w method u body calls = Some r ->
  exists req, build_request c method u (reader_at w body calls) = inl req
              /\ Do w calls req = r.
Proof.
  unfold answer_at. destruct (build_request _ _ _ _) as [req|err]; [|done].
  intros [= <-]. by exists req.
Qed.

(** Whether a request can be built does not depend on the reader. *)
Lemma build_request_reader b b' req :
  build_request c method u b = inl req ->
  exists req', build_request c method u b' = inl req'.
Proof.
  unfold build_request, http.NewRequestWithContext.
  destruct (negb _); [done|]. destruct (url.Parse u); [|done]. eauto.
Qed.

Lemma answer_at_some i j r :
  answer_at c w method u body i = Some r ->
  exists r', answer_at c w method u body j = Some r'.
Proof.
  intros (req & Hreq & _)%answer_at_inv. unfold answer_at.
  destruct (build_request_reader _ (reader_at w body j) _ Hreq) as [req' ->]. eauto.
Qed.

Lemma turn_dichotomy attempt calls :
  (exists e, turn attempt calls = (Return None (Some (LibraryError e)), calls))
  \/ timer_fires w attempt calls.
Proof.
  unfold attempt_body, timer_fires.
  destruct (0 <? attempt); [|by right; left].
  destruct (wait w calls); eauto.
Qed.

(** What a turn can do: it returns before the call with an error, or it
    makes one call and then returns a response alone, or leaves the loop
    or goes on with an error recorded. *)
Lemma turn_cases attempt calls :
  (exists e, turn attempt calls = (Return None (Some e), calls))
  \/ (exists resp, turn attempt calls = (Return (Some resp) None, S calls))
  \/ (exists e, turn attempt calls = (Break (Some e), S calls))
  \/ (exists e, turn attempt calls = (Continue (Some e), S calls)).
Proof.
  unfold attempt_body.
  destruct (if 0 <? attempt then wait w calls else TimerFired); [|by eauto].
  destruct (build_request c method u _) as [req|err]; [|by eauto].
  destruct (Do w calls req) as [err|resp]; [by eauto 6|].
  repeat case_match; eauto 6.
Qed.

(** The rule of the loop: an invariant [I] of the loop variable, the
    number of calls and [lastErr], kept by every turn that continues,
    gives [Q] of whatever the loop ends with. *)
Lemma loop_rule (I : Z -> nat -> option error -> Prop)
      (Q : outcome (option http.Response * option error) * nat -> Prop) :
  (forall a n l, I a n l -> Q (Diverges, n)) ->
  (forall a n l, I a n l -> M < a -> Q (Returns (None, l), n)) ->
  (forall a n l, I a n l -> a <= M ->
     match turn a n with
     | (Return resp err, n') => Q (Returns (resp, err), n')
     | (Break l', n') => Q (Returns (None, l'), n')
     | (Continue l', n') => I (wrap_int (a + 1)) n' l'
     end) ->
  forall fuel a n l, I a n l -> Q (loop fuel a n l).
Proof.
  intros Hfuel Hexit Hturn fuel.
  induction fuel as [|fuel IH]; intros a n l HI; simpl; [by eauto|].
  destruct (Z.leb_spec a M) as [Hle|Hgt]; [|by eauto].
  specialize (Hturn a n l HI Hle).
  destruct (turn a n) as [[resp err|l'|l'] n']; eauto.
Qed.

Lemma loop_continue fuel a n l l' n' :
  a <= M -> turn a n = (Continue l', n') ->
  loop (S fuel) a n l = loop fuel (wrap_int (a + 1)) n' l'.
Proof.
  intros Ha Ht. simpl.
  replace (a <=? M) with true by (symmetry; apply Z.leb_le; lia).
  by rewrite Ht.
Qed.

Lemma loop_return fuel a n l resp err n' :
  a <= M -> turn a n = (Return resp err, n') ->
  loop (S fuel) a n l = (Returns (resp, err), n').
Proof.
  intros Ha Ht. simpl.
  replace (a <=? M) with true by (symmetry; apply Z.leb_le; lia).
  by rewrite Ht.
Qed.

Lemma loop_break fuel a n l l' n' :
  a <= M -> turn a n = (Break l', n') ->
  loop (S fuel) a n l = (Returns (None, l'), n').
Proof.
  intros Ha Ht. simpl.
  replace (a <=? M) with true by (symmetry; apply Z.leb_le; lia).
  by rewrite Ht.
Qed.

Lemma loop_exit fuel a n l :
  M < a -> loop (S fuel) a n l = (Returns (None, l), n).
Proof.
  intros Ha. simpl.
  by replace (a <=? M) with false by (symmetry; apply Z.leb_gt; lia).
Qed.

(** After [k] turns that continue, the loop is at its [k]-th turn. *)
Lemma loop_prefix k fuel l0 :
  Z.of_nat k <= M + 1 -> Z.of_nat k <= int_max ->
  (forall i, (i < k)%nat -> turn_continues c w method u body i) ->
  exists l, loop (k + fuel) 0 0%nat l0 = loop fuel (Z.of_nat k) k l
            /\ ((0 < k)%nat -> l <> None).
Proof.
  revert fuel. induction k as [|k IH]; intros fuel HkM Hk Hturns.
  - exists l0. split; [done | lia].
  - destruct (IH (S fuel)) as (l & Heq & _); [lia | lia | by eauto with lia |].
    destruct (Hturns k) as [e He]; [lia|].
    exists (Some e). split; [|done].
    replace (S k + fuel)%nat with (k + S fuel)%nat by lia.
    assert (Z.of_nat k <= M) as HkM' by lia.
    rewrite Heq, (loop_continue fuel _ _ l _ _ HkM' He).
    rewrite wrap_int_small by (unfold int_min, int_max in *; lia).
    by replace (Z.of_nat k + 1) with (Z.of_nat (S k)) by lia.
Qed.

End RetryLoop.

Section MakeRequest.

Variable c : client.
Variable w : World.
Variables method endpoint : string.
Variable body : option string.

Abbreviation M := (MaxRetries (config c)).
Abbreviation u := (apiURL c +:+ endpoint).
Abbreviation turn := (attempt_body c w method u body).
Abbreviation loop := (retry_loop c w method u body).

Lemma loop_calls_mono fuel a n l out nf :
  loop fuel a n l = (out, nf) -> (n <= nf)%nat.
Proof.
  intros Hloop.
  enough ((n <= (loop fuel a n l).2)%nat) as H by (by rewrite Hloop in H).
  apply (loop_rule c w method u body (fun _ n' _ => (n <= n')%nat)
           (fun r => (n <= r.2)%nat)); simpl; try done.
  intros a' n' l' Hn _.
  destruct (turn_cases c w method u body a' n')
    as [[e ->]|[[r ->]|[[e ->]|[e ->]]]]; simpl; lia.
Qed.

Lemma loop_fuel_split k :
  0 <= Z.of_nat k <= M + 1 ->
  exists fuel, loop_fuel c = (k + S fuel)%nat.
Proof.
  intros Hk. unfold loop_fuel.
  exists (Z.to_nat (M + 1) - k)%nat. lia.
Qed.

(** An execution that makes more than [k] calls went through [k] turns
    that continued, and made a call in the next. *)
Lemma reach k out nf :
  Z.of_nat k <= int_max ->
  makeRequest c w method endpoint body = (out, nf) -> (k < nf)%nat ->
  (forall i, (i < k)%nat -> turn_continues c w method u body i)
  /\ Z.of_nat k <= M
  /\ exists f, turn (Z.of_nat k) k = (f, S k).
Proof.
  unfold makeRequest. intros Hmax Hrun.
  assert (forall j l fuel,
             loop (S fuel) (Z.of_nat j) j l = (out, nf) -> (j < nf)%nat ->
             Z.of_nat j <= M /\ exists f, turn (Z.of_nat j) j = (f, S j)) as Hturn.
  { intros j l fuel Hj Hlt.
    destruct (Z.leb_spec (Z.of_nat j) M) as [Hle|Hgt].
    - split; [done|].
      destruct (turn_cases c w method u body (Z.of_nat j) j)
        as [[e He]|[[r He]|[[e He]|[e He]]]]; eauto.
      rewrite (loop_return _ _ _ _ _ _ _ _ _ _ _ _ Hle He) in Hj.
      simplify_eq. lia.
    - rewrite loop_exit in Hj by done. simplify_eq. lia. }
  induction k as [|k IH]; intros Hlt.
  - clear Hmax. destruct (loop_fuel_split 0) as [fuel Hfuel]; [unfold loop_fuel in *|].
    + destruct (Z.leb_spec 0 M); [lia|].
      unfold loop_fuel in Hrun. rewrite loop_exit in Hrun by lia.
      simplify_eq. lia.
    + rewrite Hfuel in Hrun. simpl in Hrun.
      destruct (Hturn 0%nat None fuel Hrun Hlt) as [? ?].
      split; [intros; lia | done].
  - destruct IH as (Hpre & HkM & f & Hf); [lia|lia|].
    assert (turn_continues c w method u body k) as Hk.
    { destruct (turn_cases c w method u body (Z.of_nat k) k)
        as [[e He]|[[r He]|[[e He]|[e He]]]]; [| | |by exists e].
      - rewrite He in Hf. simplify_eq. lia.
      - destruct (loop_fuel_split k) as [fuel Hfuel]; [lia|].
        destruct (loop_prefix c w method u body k (S fuel) None)
          as (l & Heq & _); [lia | lia | done |].
        rewrite Hfuel, Heq, (loop_return _ _ _ _ _ _ _ _ _ _ _ _ HkM He) in Hrun.
        simplify_eq. lia.
      - destruct (loop_fuel_split k) as [fuel Hfuel]; [lia|].
        destruct (loop_prefix c w method u body k (S fuel) None)
          as (l & Heq & _); [lia | lia | done |].
        rewrite Hfuel, Heq, (loop_break _ _ _ _ _ _ _ _ _ _ _ HkM He) in Hrun.
        simplify_eq. lia. }
    assert (forall i, (i < S k)%nat -> turn_continues c w method u body i) as Hpre'.
    { intros i Hi. destruct (decide (i = k)) as [->|]; [done|]. apply Hpre. lia. }
    split; [done|].
    destruct (loop_fuel_split (S k)) as [fuel Hfuel]; [lia|].
    destruct (loop_prefix c w method u body (S k) (S fuel) None)
      as (l & Heq & _); [lia | lia | done |].
    rewrite Hfuel, Heq in Hrun.
    by apply (Hturn (S k) l fuel).
Qed.

(** The loop ends whenever [MaxRetries] is not the largest [int]. *)
Lemma loop_returns fuel a n l :
  M < int_max -> 0 <= a <= M + 1 -> M + 1 - a < Z.of_nat fuel ->
  exists r nf, loop fuel a n l = (Returns r, nf).
Proof.
  intros HM. revert a n l.
  induction fuel as [|fuel IH]; intros a n l Ha Hfuel; [lia|].
  destruct (Z.leb_spec a M) as [Hle|Hgt].
  - destruct (turn a n) as [[resp err|l'|l'] n'] eqn:Hturn.
    + rewrite (loop_return _ _ _ _ _ _ _ _ _ _ _ _ Hle Hturn). eauto.
    + rewrite (loop_continue _ _ _ _ _ _ _ _ _ _ _ Hle Hturn).
      rewrite wrap_int_small by (unfold int_min, int_max in *; lia).
      apply IH; lia.
    + rewrite (loop_break _ _ _ _ _ _ _ _ _ _ _ Hle Hturn). eauto.
  - rewrite loop_exit by done. eauto.
Qed.

End MakeRequest.

Example test_client_built retries :
  NewClient (Some (test_config retries)) = (Some (test_client retries), None).
Proof. reflexivity. Qed.

(** ** C1 *)

(** C1. Whenever the transport fails on each of the first [k] calls and
    answers the next with a status in [200, 300) (each call on the request
    the code builds for it, the caller's reader holding what the earlier
    calls left): every execution of [makeRequest] that makes that call
    returns its response with a nil error after exactly [k + 1] calls,
    nothing following the 2xx response; and the execution does make it
    when [k <= MaxRetries] and the context is not done during the [k]
    waits (so with [MaxRetries = 3] and two failures, the response is
    returned after exactly 3 calls). *)
Theorem C1_retry_until_success
        (c : client) (w : World) (method endpoint : string)
        (body : option string) (k : nat) (resp : http.Response) :
  (forall i, (i < k)%nat ->
     exists e, answer_at c w method (apiURL c +:+ endpoint) body i
               = Some (http.DoError e)) ->
  answer_at c w method (apiURL c +:+ endpoint) body k
  = Some (http.DoResponse resp) ->
  200 <= http.StatusCode resp < 300 ->
  (forall out n,
      makeRequest c w method endpoint body = (out, n) -> (k < n)%nat ->
      out = Returns (Some resp, None) /\ n = S k)
  /\ (0 <= Z.of_nat k <= MaxRetries (config c) ->
      MaxRetries (config c) <= int_max ->
      (forall i, (1 <= i <= k)%nat -> wait w i = TimerFired) ->
      makeRequest c w method endpoint body = (Returns (Some resp, None), S k)).
Proof.
  intros Hfail (req & Hreq & Hok)%answer_at_inv Hstatus. split.
  - intros out n Hrun Hlt. unfold makeRequest in Hrun.
    enough ((out, n) = (Returns (Some resp, None), S k)) by (by simplify_eq).
    revert Hlt. rewrite <- Hrun.
    change n with (out, n).2. rewrite <- Hrun.
    apply (loop_rule c w method (apiURL c +:+ endpoint) body
             (fun _ n' _ => (n' <= k)%nat)
             (fun r => (k < r.2)%nat -> r = (Returns (Some resp, None), S k)));
      simpl; [intros; lia | intros; lia | | lia].
    intros a n' l Hn' Ha.
    destruct (turn_dichotomy c w method (apiURL c +:+ endpoint) body a n')
      as [[e ->]|Htimer]; [intros; lia|].
    destruct (decide (n' = k)) as [->|Hne].
    + by rewrite (turn_success _ _ _ _ _ _ _ _ _ Htimer Hreq Hok Hstatus).
    + destruct (Hfail n') as [e (req' & Hreq' & He)%answer_at_inv]; [lia|].
      rewrite (turn_network_error _ _ _ _ _ _ _ _ _ Htimer Hreq' He). lia.
  - intros Hk HM Hwait. unfold makeRequest.
    assert (forall i, (i <= k)%nat -> timer_fires w (Z.of_nat i) i) as Htimer.
    { intros i Hi. destruct i as [|i]; [by left | right; apply Hwait; lia]. }
    destruct (loop_fuel_split c k) as [fuel ->]; [lia|].
    destruct (loop_prefix c w method (apiURL c +:+ endpoint) body k (S fuel) None)
      as (l & -> & _); [lia | lia | |].
    + intros i Hi. destruct (Hfail i Hi) as [e (req' & Hreq' & He)%answer_at_inv].
      exists (network_error e).
      apply (turn_network_error _ _ _ _ _ _ _ req'); auto with lia.
    + apply loop_return; [lia|].
      apply (turn_success _ _ _ _ _ _ _ req); auto.
Qed.

(** With [MaxRetries = 3], a transport that fails twice and then answers
    200 is called exactly three times. *)
Lemma C1_retry_witness :
  makeRequest (test_client 3)
    (mkWorld (scripted [refused; refused] (respond 200 "{}")) background)
    http.MethodGet "/messages" None
  = (Returns (Some (http.mkResponse 200 (http.mkBody "{}" None)), None), 3%nat).
Proof.
  refine (proj2 (C1_retry_until_success (test_client 3)
                   (mkWorld (scripted [refused; refused] (respond 200 "{}")) background)
                   http.MethodGet "/messages" None 2
                   (http.mkResponse 200 (http.mkBody "{}" None)) _ _ _) _ _ _).
  - intros [|[|i]] Hi; [eexists; reflexivity | eexists; reflexivity | lia].
  - reflexivity.
  - simpl; lia.
  - simpl; lia.
  - unfold int_max; simpl; lia.
  - reflexivity.
Defined.

(** ** C2 *)

(** C2. Each call being made on the request the code builds for it (the
    caller's reader holding what the earlier calls left): (a) in every
    execution, a response with a status in [400, 500) other than 429
    ends [makeRequest] at once, with the API error carrying that status
    and the body as received, the call that got it being the last; (b)
    with [MaxRetries = 3] and a transport that always answers 404, that
    error comes after exactly one call; (c) a response with a status
    [>= 500] or 429 ends the turn in [continue], and the next call is
    made whenever an attempt remains and the wait is not interrupted;
    (d) a transport that answers 429 twice and then a 2xx status gives
    that response after exactly 3 calls. *)
Theorem C2_client_errors_are_not_retried
        (c : client) (w : World) (method endpoint : string)
        (body : option string) :
  (forall k resp out n,
      answer_at c w method (apiURL c +:+ endpoint) body k
      = Some (http.DoResponse resp) ->
      400 <= http.StatusCode resp < 500 -> http.StatusCode resp <> 429 ->
      makeRequest c w method endpoint body = (out, n) -> (k < n)%nat ->
      n = S k
      /\ exists e, out = Returns (None, Some (MailpitError e))
                   /\ Type_ e = ErrorTypeAPI
                   /\ StatusCode e = http.StatusCode resp
                   /\ Response e = http.content (http.RespBody resp))
  /\ (MaxRetries (config c) = 3 ->
      (forall i, exists r, answer_at c w method (apiURL c +:+ endpoint) body i
                           = Some (http.DoResponse r)
                           /\ http.StatusCode r = 404) ->
      exists r e, answer_at c w method (apiURL c +:+ endpoint) body 0
                  = Some (http.DoResponse r)
                  /\ makeRequest c w method endpoint body
                     = (Returns (None, Some (MailpitError e)), 1%nat)
                  /\ Type_ e = ErrorTypeAPI
                  /\ StatusCode e = 404
                  /\ Response e = http.content (http.RespBody r))
  /\ (forall k resp,
      answer_at c w method (apiURL c +:+ endpoint) body k
      = Some (http.DoResponse resp) ->
      500 <= http.StatusCode resp \/ http.StatusCode resp = 429 ->
      (forall attempt, timer_fires w attempt k ->
         attempt_body c w method (apiURL c +:+ endpoint) body attempt k
         = (Continue (Some (api_error resp)), S k))
      /\ (forall out n,
            Z.of_nat k < MaxRetries (config c) ->
            MaxRetries (config c) <= int_max ->
            wait w (S k) = TimerFired ->
            makeRequest c w method endpoint body = (out, n) -> (k < n)%nat ->
            (S k < n)%nat))
  /\ (forall r0 r1 resp,
      2 <= MaxRetries (config c) <= int_max ->
      wait w 1%nat = TimerFired -> wait w 2%nat = TimerFired ->
      answer_at c w method (apiURL c +:+ endpoint) body 0
      = Some (http.DoResponse r0) -> http.StatusCode r0 = 429 ->
      answer_at c w method (apiURL c +:+ endpoint) body 1
      = Some (http.DoResponse r1) -> http.StatusCode r1 = 429 ->
      answer_at c w method (apiURL c +:+ endpoint) body 2
      = Some (http.DoResponse resp) -> 200 <= http.StatusCode resp < 300 ->
      makeRequest c w method endpoint body = (Returns (Some resp, None), 3%nat)).
Proof.
  assert (forall k resp out n,
      answer_at c w method (apiURL c +:+ endpoint) body k
      = Some (http.DoResponse resp) ->
      400 <= http.StatusCode resp < 500 -> http.StatusCode resp <> 429 ->
      makeRequest c w method endpoint body = (out, n) -> (k < n)%nat ->
      (out, n) = (Returns (None, Some (api_error resp)), S k)) as Hbreak.
  { intros k resp out n (req & Hreq & Hdo)%answer_at_inv Hs Hne Hrun Hlt.
    unfold makeRequest in Hrun.
    revert Hlt. rewrite <- Hrun. change n with (out, n).2. rewrite <- Hrun.
    apply (loop_rule c w method (apiURL c +:+ endpoint) body
             (fun _ n' _ => (n' <= k)%nat)
             (fun r => (k < r.2)%nat -> r = (Returns (None, Some (api_error resp)), S k)));
      simpl; [intros; lia | intros; lia | | lia].
    intros a n' l Hn' Ha.
    destruct (turn_dichotomy c w method (apiURL c +:+ endpoint) body a n') as [[e ->]|Htimer]; [intros; lia|].
    destruct (decide (n' = k)) as [->|Hnk].
    - by rewrite (turn_client_error _ _ _ _ _ _ _ _ _ Htimer Hreq Hdo Hs Hne).
    - destruct (turn_cases c w method (apiURL c +:+ endpoint) body a n')
        as [[e ->]|[[r ->]|[[e ->]|[e ->]]]]; intros; lia. }
  split; [|split; [|split]].
  - intros k resp out n Hdo Hs Hne Hrun Hlt.
    specialize (Hbreak k resp out n Hdo Hs Hne Hrun Hlt). simplify_eq.
    split; [done|]. eexists. split; [reflexivity|]. done.
  - intros HM Hall. destruct (Hall 0%nat) as (r & Hans & Hs).
    destruct (answer_at_inv _ _ _ _ _ _ _ Hans) as (req & Hreq & Hdo).
    exists r. eexists. split; [done|]. split.
    { unfold makeRequest, loop_fuel. rewrite HM. simpl Z.to_nat.
      apply loop_break; [lia|].
      apply (turn_client_error _ _ _ _ _ _ _ req); [by left | done | done | lia | lia]. }
    simpl. by rewrite Hs.
  - intros k resp Hans Hs.
    destruct (answer_at_inv _ _ _ _ _ _ _ Hans) as (req & Hreq & Hdo). split.
    + intros attempt Htimer. by apply (turn_retryable _ _ _ _ _ _ _ req).
    + intros out n Hk HM Hwait Hrun Hlt.
      destruct (reach c w method endpoint body k out n) as (Hpre & _ & f & Hf);
        [lia | done | done |].
      assert (timer_fires w (Z.of_nat k) k) as Htimer.
      { destruct (turn_dichotomy c w method (apiURL c +:+ endpoint) body (Z.of_nat k) k)
          as [[e He]|]; [|done].  rewrite He in Hf. simplify_eq. lia. }
      assert (forall i, (i < S k)%nat -> turn_continues c w method (apiURL c +:+ endpoint) body i) as Hpre'.
      { intros i Hi. destruct (decide (i = k)) as [->|]; [|apply Hpre; lia].
        exists (api_error resp). by apply (turn_retryable _ _ _ _ _ _ _ req). }
      unfold makeRequest in Hrun.
      destruct (loop_fuel_split c (S k)) as [fuel Hfuel]; [lia|].
      destruct (loop_prefix c w method (apiURL c +:+ endpoint) body (S k) (S fuel) None)
        as (l & Heq & _); [lia | lia | done |].
      rewrite Hfuel, Heq in Hrun.
      assert (timer_fires w (Z.of_nat (S k)) (S k)) as Htimer' by (by right).
      destruct (build_request_reader _ _ _ _ (reader_at w body (S k)) _ Hreq)
        as [req' Hreq'].
      pose proof (turn_started c w method (apiURL c +:+ endpoint) body _ _ req' Htimer' Hreq') as Hturn.
      simpl in Hrun.
      replace (Z.of_nat (S k) <=? MaxRetries (config c)) with true in Hrun
        by (symmetry; apply Z.leb_le; lia).
      rewrite Hturn in Hrun.
      destruct (Do w (S k) req') as [err|r].
      * apply loop_calls_mono in Hrun. lia.
      * simpl in Hrun. repeat case_match; simplify_eq; try lia.
        apply loop_calls_mono in Hrun. lia.
  - intros r0 r1 resp HM Hw1 Hw2
           (q0 & Hq0 & Hd0)%answer_at_inv Hs0
           (q1 & Hq1 & Hd1)%answer_at_inv Hs1
           (q2 & Hq2 & Hd2)%answer_at_inv Hs2.
    unfold makeRequest.
    destruct (loop_fuel_split c 2) as [fuel ->]; [lia|].
    destruct (loop_prefix c w method (apiURL c +:+ endpoint) body 2 (S fuel) None)
      as (l & -> & _); [lia | unfold int_max; lia | |].
    + intros [|[|i]] Hi; [| |lia].
      * exists (api_error r0).
        apply (turn_retryable _ _ _ _ _ _ _ q0); [by left | done | done | lia].
      * exists (api_error r1).
        apply (turn_retryable _ _ _ _ _ _ _ q1); [by right | done | done | lia].
    + apply loop_return; [lia|].
      apply (turn_success _ _ _ _ _ _ _ q2); [by right | done | done | done].
Qed.

(** A transport that always answers 404, with [MaxRetries = 3]: one call. *)
Lemma C2_not_found_witness :
  exists e,
    makeRequest (test_client 3)
      (mkWorld (scripted [] (respond 404 "not found")) background)
      http.MethodGet "/message/abc" None
    = (Returns (None, Some (MailpitError e)), 1%nat)
    /\ Type_ e = ErrorTypeAPI /\ StatusCode e = 404 /\ Response e = "not found".
Proof.
  destruct (C2_client_errors_are_not_retried (test_client 3)
              (mkWorld (scripted [] (respond 404 "not found")) background)
              http.MethodGet "/message/abc" None) as (_ & H404 & _ & _).
  destruct (H404 eq_refl) as (r & e & Hdo & Hrun & Hty & Hstatus & Hbody).
  { intros i. exists (http.mkResponse 404 (http.mkBody "not found" None)).
    split; [by destruct i | reflexivity]. }
  injection Hdo as <-. by exists e.
Defined.

(** The retried request is built from the reader the first call read: a
    server that read the body and answered 503 gets an empty body at the
    retry, while one whose first call read nothing gets the body again. *)
Example retried_request_body :
  makeRequest (test_client 3) (mkWorld wants_a_body background)
    http.MethodPost "/send" (Some "{}")
  = (Returns (None, Some (api_error (http.mkResponse 400
                                       (http.mkBody "empty body" None)))),
     2%nat)
  /\ makeRequest (test_client 3)
       (mkWorldWith wants_a_body background (fun _ _ => 0%nat))
       http.MethodPost "/send" (Some "{}")
     = (Returns (Some (http.mkResponse 200 (http.mkBody "ok" None)), None),
        2%nat).
Proof. split; reflexivity. Qed.

(** ** C7 *)

(** C7. When the context is done during the wait that follows the [k]-th
    call ([k >= 1]): no execution of [makeRequest] calls the transport
    again; and the call that is at that wait (its first [k] turns ended in
    [continue] and [k <= MaxRetries]) returns the context's own error,
    which is no error of the network class, after those [k] calls. *)
Theorem C7_cancelled_during_the_wait
        (c : client) (w : World) (method endpoint : string)
        (body : option string) (k : nat) (ctxErr : LibError) :
  (1 <= k)%nat -> Z.of_nat k <= int_max ->
  wait w k = CtxDone ctxErr ->
  (forall out n, makeRequest c w method endpoint body = (out, n) -> (n <= k)%nat)
  /\ (Z.of_nat k <= MaxRetries (config c) ->
      (forall i, (i < k)%nat ->
         turn_continues c w method (apiURL c +:+ endpoint) body i) ->
      makeRequest c w method endpoint body
      = (Returns (None, Some (LibraryError ctxErr)), k)
      /\ error_type (LibraryError ctxErr) <> Some ErrorTypeNetwork).
Proof.
  intros Hk Hmax Hwait.
  pose proof (turn_wait_done c w method (apiURL c +:+ endpoint) body
                (Z.of_nat k) k ctxErr ltac:(lia) Hwait) as Hturn.
  split.
  - intros out n Hrun. destruct (decide (n <= k)%nat) as [|Hgt]; [done|].
    destruct (reach c w method endpoint body k out n) as (_ & _ & f & Hf);
      [done | done | lia |].
    rewrite Hturn in Hf. simplify_eq. lia.
  - intros HkM Hpre. split; [|done]. unfold makeRequest.
    destruct (loop_fuel_split c k) as [fuel ->]; [lia|].
    destruct (loop_prefix c w method (apiURL c +:+ endpoint) body k (S fuel) None)
      as (l & -> & _); [lia | lia | done |].
    by apply loop_return.
Qed.

(** The first call is refused and the context is cancelled during the
    wait that follows: the call returns [context.Canceled] after 1 call. *)
Lemma C7_cancel_witness :
  makeRequest (test_client 3)
    (mkWorld (scripted [] refused) (cancelled_at 1))
    http.MethodGet "/messages" None
  = (Returns (None, Some (LibraryError context_Canceled)), 1%nat).
Proof.
  refine (proj1 (proj2 (C7_cancelled_during_the_wait (test_client 3)
                   (mkWorld (scripted [] refused) (cancelled_at 1))
                   http.MethodGet "/messages" None 1 context_Canceled _ _ _) _ _)).
  - lia.
  - unfold int_max. simpl. lia.
  - reflexivity.
  - simpl. lia.
  - intros [|i] Hi; [|lia]. eexists. reflexivity.
Defined.

(** ** C10 *)

(** C10. With a negative [MaxRetries], [makeRequest] makes no attempt and
    returns a nil response with a nil error, and each of the ways the
    operations use the result then dereferences the nil response; with
    [MaxRetries >= 0], exactly one of the response and the error returned
    is nil, and the call does return when [MaxRetries] is not the largest
    [int]. *)
Theorem C10_nil_response_and_nil_error
        (c : client) (w : World) (method endpoint : string)
        (body : option string) :
  (MaxRetries (config c) < 0 ->
   makeRequest c w method endpoint body = (Returns (None, None), 0%nat)
   /\ discard (makeRequest c w method endpoint body) = (Panics, 0%nat)
   /\ (forall (A : Type) (nothing : A) (wrap : string -> A) (what : string),
         read_body nothing wrap what (makeRequest c w method endpoint body)
         = (Panics, 0%nat))
   /\ (forall (T : Type) (target : json.Target T),
         decode_ptr (makeRequest c w method endpoint body) = (Panics, 0%nat)
         /\ decode_value (makeRequest c w method endpoint body) = (Panics, 0%nat)))
  /\ (0 <= MaxRetries (config c) ->
      (forall resp err n,
          makeRequest c w method endpoint body = (Returns (resp, err), n) ->
          exactly_one resp err)
      /\ (MaxRetries (config c) < int_max ->
          exists resp err n,
            makeRequest c w method endpoint body = (Returns (resp, err), n))).
Proof.
  split.
  - intros Hneg.
    assert (makeRequest c w method endpoint body = (Returns (None, None), 0%nat)) as Hrun.
    { unfold makeRequest, loop_fuel. by apply loop_exit. }
    rewrite Hrun. repeat split; reflexivity.
  - intros Hpos. split.
    + intros resp err n Hrun. unfold makeRequest in Hrun.
      pose (Q := fun r : outcome (option http.Response * option error) * nat =>
                   match r with
                   | (Returns (r, e), _) => exactly_one r e
                   | _ => True
                   end).
      change (Q (Returns (resp, err), n)). rewrite <- Hrun.
      apply (loop_rule c w method (apiURL c +:+ endpoint) body
               (fun a _ l => a = 0 \/ l <> None) Q);
        unfold Q; simpl; [done | | | by left].
      * intros a n' l [->|Hl] Ha; [lia | by left].
      * intros a n' l _ _.
        destruct (turn_cases c w method (apiURL c +:+ endpoint) body a n')
          as [[e ->]|[[r ->]|[[e ->]|[e ->]]]];
          [by left | by right | by left | by right].
    + intros HM. unfold makeRequest, loop_fuel.
      destruct (loop_returns c w method endpoint body
                  (S (Z.to_nat (MaxRetries (config c) + 1))) 0 0%nat None)
        as ([resp err] & n & Hrun); [done | lia | lia |]. eauto.
Qed.

(** [MaxRetries = -1]: nothing is sent, nil and nil come back, and
    [HealthCheck], which closes the body, panics. *)
Lemma C10_negative_retries_witness :
  makeRequest (test_client (-1)) (mkWorld (scripted [] (respond 200 "{}")) background)
    http.MethodGet "/info" None = (Returns (None, None), 0%nat)
  /\ HealthCheck (test_client (-1))
       (mkWorld (scripted [] (respond 200 "{}")) background) = (Panics, 0%nat).
Proof.
  destruct (proj1 (C10_nil_response_and_nil_error (test_client (-1))
                     (mkWorld (scripted [] (respond 200 "{}")) background)
                     http.MethodGet "/info" None)) as (Hrun & Hdiscard & _).
  - simpl. lia.
  - split; [exact Hrun | exact Hdiscard].
Defined.

(** ** C4 *)

Lemma invalid_fails {A : Type} (nothing : A) (message : string) :
  validation_failure (invalid nothing message).
Proof. by eexists _, _. Qed.

Lemma invalid__fails (message : string) : validation_failure_ (invalid_ message).
Proof. by eexists. Qed.

(** C4. Every operation that takes a message ID, a tag, a search query or
    a part or attachment ID returns an error of the validation class, the
    transport not having been called, when that string is empty (for the
    operations with two identifiers: when the first is empty, and when the
    second is, whatever the first). *)
Theorem C4_empty_identifier_fails_validation
        (c : client) (w : World)
        (MessagesResponse Message Headers HTMLCheckResponse LinkCheckResponse
         SpamAssassinCheckResponse EventsResponse : Type)
        (T1 : json.Target MessagesResponse) (T2 : json.Target Message)
        (T3 : json.Target Headers) (T4 : json.Target HTMLCheckResponse)
        (T5 : json.Target LinkCheckResponse)
        (T6 : json.Target SpamAssassinCheckResponse)
        (T7 : json.Target EventsResponse) :
  validation_failure (GetMessage c w (Message := Message) EmptyString)
  /\ validation_failure (GetMessageSource c w EmptyString)
  /\ validation_failure_ (DeleteMessage c w EmptyString)
  /\ (forall opts,
        validation_failure
          (SearchMessages c w (MessagesResponse := MessagesResponse) EmptyString opts))
  /\ (forall other,
        validation_failure (GetMessageAttachment c w EmptyString other)
        /\ validation_failure (GetMessageAttachment c w other EmptyString))
  /\ validation_failure_ (MarkMessageRead c w EmptyString)
  /\ validation_failure_ (MarkMessageUnread c w EmptyString)
  /\ validation_failure (GetMessageHeaders c w (Headers := Headers) EmptyString)
  /\ validation_failure
       (GetMessageHTMLCheck c w (HTMLCheckResponse := HTMLCheckResponse) EmptyString)
  /\ validation_failure
       (GetMessageLinkCheck c w (LinkCheckResponse := LinkCheckResponse) EmptyString)
  /\ validation_failure
       (GetMessageSpamAssassinCheck c w
          (SpamAssassinCheckResponse := SpamAssassinCheckResponse) EmptyString)
  /\ (forall other,
        validation_failure (GetMessagePart c w EmptyString other)
        /\ validation_failure (GetMessagePart c w other EmptyString))
  /\ (forall other,
        validation_failure (GetMessagePartThumbnail c w EmptyString other)
        /\ validation_failure (GetMessagePartThumbnail c w other EmptyString))
  /\ (forall releaseData, validation_failure_ (ReleaseMessage c w EmptyString releaseData))
  /\ validation_failure_ (DeleteSearchResults c w EmptyString)
  /\ (forall messageIDs, validation_failure_ (SetMessageTags c w EmptyString messageIDs))
  /\ validation_failure_ (DeleteTag c w EmptyString)
  /\ validation_failure (GetMessageHTML c w EmptyString)
  /\ validation_failure (GetMessageText c w EmptyString)
  /\ validation_failure (GetMessageRaw c w EmptyString)
  /\ (forall other,
        validation_failure (GetMessagePartHTML c w EmptyString other)
        /\ validation_failure (GetMessagePartHTML c w other EmptyString))
  /\ (forall other,
        validation_failure (GetMessagePartText c w EmptyString other)
        /\ validation_failure (GetMessagePartText c w other EmptyString))
  /\ validation_failure
       (GetMessageEvents c w (EventsResponse := EventsResponse) EmptyString).
Proof.
  unfold GetMessage, GetMessageSource, DeleteMessage, SearchMessages,
    GetMessageAttachment, MarkMessageRead, MarkMessageUnread, GetMessageHeaders,
    GetMessageHTMLCheck, GetMessageLinkCheck, GetMessageSpamAssassinCheck,
    GetMessagePart, GetMessagePartThumbnail, ReleaseMessage, DeleteSearchResults,
    SetMessageTags, DeleteTag, GetMessageHTML, GetMessageText, GetMessageRaw,
    GetMessagePartHTML, GetMessagePartText, GetMessageEvents.
  simpl.
  repeat split; intros; try destruct (is_empty other);
    first [apply invalid_fails | apply invalid__fails].
Qed.

(** ** C8 *)

(** C8. On a response whose body is empty, [parseResponse] returns nil and
    the target is what it was; on a body that is not empty and that
    [json.Unmarshal] rejects for the target, it returns an error of the
    response class whose cause is the error of [json.Unmarshal] and whose
    message embeds its text. *)
Theorem C8_parseResponse
        (T : Type) (target_T : json.Target T) (resp : http.Response) :
  (http.content (http.RespBody resp) = EmptyString ->
   http.readErr (http.RespBody resp) = None ->
   forall target : option T,
     parseResponse (Some resp) target = Returns (target, None))
  /\ (http.content (http.RespBody resp) <> EmptyString ->
      http.readErr (http.RespBody resp) = None ->
      forall (t t' : T) (e : LibError),
        json.Unmarshal (http.content (http.RespBody resp)) t = (t', Some e) ->
        exists err,
          parseResponse (Some resp) (Some t) = Returns (Some t', Some (MailpitError err))
          /\ Type_ err = ErrorTypeResponse
          /\ Cause err = Some e
          /\ Message err = "failed to parse JSON response: " +:+ LibError_Error e).
Proof.
  split.
  - intros Hbody Hread [t|]; [|done]. simpl. by rewrite Hread, Hbody.
  - intros Hbody Hread t t' e Hdecode. simpl. rewrite Hread.
    destruct (http.content (http.RespBody resp)) as [|ch rest] eqn:Hc; [done|].
    simpl. rewrite Hdecode. by eexists.
Qed.

(** A body that is not JSON, decoded into a [[]string]: the response error
    carries the syntax error of encoding/json. *)
Lemma C8_invalid_json_witness :
  exists err,
    parseResponse (T := option (list string))
      (Some (http.mkResponse 200 (http.mkBody "invalid json" None))) (Some None)
    = Returns (Some None, Some (MailpitError err))
    /\ Type_ err = ErrorTypeResponse
    /\ Cause err = Some (json_SyntaxError
                           "invalid character 'i' looking for beginning of value")
    /\ Message err = "failed to parse JSON response: "
                     +:+ LibError_Error (json_SyntaxError
                           "invalid character 'i' looking for beginning of value").
Proof.
  refine (proj2 (C8_parseResponse (option (list string)) strings_Target
                   (http.mkResponse 200 (http.mkBody "invalid json" None)))
                _ _ None None _ _).
  - discriminate.
  - reflexivity.
  - reflexivity.
Defined.

(** ** C5 *)

(** The base URL ["localhost"] is no absolute URL, and [NewClient] builds
    a client from it. *)
Lemma C5_relative_base_url_counterexample :
  exists c u,
    NewClient (Some (base_config "localhost")) = (Some c, None)
    /\ url.Parse "localhost" = inl u
    /\ url.IsAbs u = false.
Proof. eexists _, _. repeat split. Qed.

(** C5, amended. [NewClient] (on a nil configuration: on the default one)
    fails with an error of the configuration class and builds no client
    when the base URL is empty or [url.Parse] rejects it; it builds a
    client from every other base URL, absolute or not. *)
Theorem C5_NewClient_base_url (given : option Config) :
  let cfg := default DefaultConfig given in
  (BaseURL cfg = EmptyString \/ (exists e, url.Parse (BaseURL cfg) = inr e) ->
   exists e, NewClient given = (None, Some (MailpitError e))
             /\ Type_ e = ErrorTypeConfig)
  /\ (BaseURL cfg <> EmptyString ->
      forall u, url.Parse (BaseURL cfg) = inl u ->
      exists c, NewClient given = (Some c, None)
                /\ baseURL c = u
                /\ apiURL c = url.String_ u +:+ APIPath (config c)).
Proof.
  intros cfg.
  assert (NewClient given = NewClient (Some cfg)) as -> by (by destruct given).
  unfold NewClient. generalize cfg. clear cfg given. intros cfg.
  destruct (String.eqb_spec (BaseURL cfg) EmptyString) as [Hempty|Hne].
  - split; [by eexists | done].
  - split.
    + intros [?|[e He]]; [done|]. rewrite He. by eexists.
    + intros _ u Hu. rewrite Hu. by eexists.
Qed.

(** The base URL of the test that expects an error: [url.Parse] finds no
    scheme before the colon. *)
Lemma C5_invalid_base_url_witness :
  exists e, NewClient (Some (base_config "://invalid-url"))
            = (None, Some (MailpitError e))
            /\ Type_ e = ErrorTypeConfig.
Proof.
  refine (proj1 (C5_NewClient_base_url (Some (base_config "://invalid-url"))) _).
  right. eexists. reflexivity.
Defined.

(** ** Query strings *)

Lemma byte_eqb_eq (a b : ascii) : byte_eqb a b = true <-> a = b.
Proof. apply Ascii.eqb_eq. Qed.

Lemma byte_eqb_neq (a b : ascii) : byte_eqb a b = false <-> a <> b.
Proof. apply Ascii.eqb_neq. Qed.

Lemma byte_val_bounds (c : ascii) : 0 <= byte_val c < 256.
Proof.
  unfold byte_val. pose proof (N_ascii_bounded c). lia.
Qed.

Lemma byte_of_val (c : ascii) : byte_of (byte_val c) = c.
Proof.
  unfold byte_of, byte_val. pose proof (N_ascii_bounded c).
  rewrite Z.mod_small by lia. rewrite N2Z.id. apply ascii_N_embedding.
Qed.

Lemma nibble_cases (d : Z) :
  0 <= d < 16 ->
  d = 0 \/ d = 1 \/ d = 2 \/ d = 3 \/ d = 4 \/ d = 5 \/ d = 6 \/ d = 7 \/
  d = 8 \/ d = 9 \/ d = 10 \/ d = 11 \/ d = 12 \/ d = 13 \/ d = 14 \/ d = 15.
Proof. lia. Qed.

Lemma upperhex_spec (d : Z) :
  0 <= d < 16 ->
  url.ishex (url.upperhex d) = true
  /\ url.unhex (url.upperhex d) = d
  /\ url.shouldEscape (url.upperhex d) url.encodeQueryComponent = false.
Proof.
  intros Hd. destruct (nibble_cases d Hd) as
    [->|[->|[->|[->|[->|[->|[->|[->|[->|[->|[->|[->|[->|[->|[->| ->]]]]]]]]]]]]]]];
    vm_compute; done.
Qed.

Lemma app_String (c : ascii) (a b : string) : String c a +:+ b = String c (a +:+ b).
Proof. reflexivity. Qed.

Lemma app_Empty (b : string) : EmptyString +:+ b = b.
Proof. reflexivity. Qed.

Lemma string_app_assoc (a b c : string) : (a +:+ b) +:+ c = a +:+ (b +:+ c).
Proof.
  induction a as [|x a IH]; [done|]. rewrite !app_String. by rewrite IH.
Qed.

Lemma unescaped_not_special (c : ascii) :
  url.shouldEscape c url.encodeQueryComponent = false ->
  byte_eqb c "%" = false /\ byte_eqb c "+" = false.
Proof.
  intros Hc. split; apply byte_eqb_neq; intros ->; vm_compute in Hc; done.
Qed.

Lemma QueryUnescape_QueryEscape (s : string) :
  url.QueryUnescape (url.QueryEscape s) = inl s.
Proof.
  unfold url.QueryUnescape, url.QueryEscape, url.unescape.
  enough (url.unescape_check (url.escape s url.encodeQueryComponent)
            url.encodeQueryComponent = None
          /\ url.unescape_bytes (url.escape s url.encodeQueryComponent)
               url.encodeQueryComponent = s) as [-> ->] by done.
  induction s as [|c s [IH1 IH2]]; [done|].
  cbn [url.escape].
  destruct (url.shouldEscape c url.encodeQueryComponent) eqn:Hesc.
  - destruct (byte_eqb c " ") eqn:Hsp; cbn [andb url.is_query_mode].
    + apply byte_eqb_eq in Hsp as ->. cbn. by rewrite IH1, IH2.
    + pose proof (byte_val_bounds c) as Hc.
      destruct (upperhex_spec (byte_val c / 16)) as (Hh1 & Hu1 & _);
        [split; [apply Z.div_pos; lia | apply Z.div_lt_upper_bound; lia]|].
      destruct (upperhex_spec (byte_val c mod 16)) as (Hh2 & Hu2 & _);
        [apply Z.mod_pos_bound; lia|].
      cbn [url.unescape_check url.unescape_bytes].
      replace (byte_eqb "%" "%") with true by done.
      rewrite Hh1, Hh2, Hu1, Hu2, IH1, IH2. cbn [andb].
      split; [done|]. f_equal.
      rewrite <- (byte_of_val c) at 3. f_equal.
      pose proof (Z.div_mod (byte_val c) 16). lia.
  - destruct (unescaped_not_special c Hesc) as [Hp Hq].
    cbn [url.unescape_check url.unescape_bytes]. rewrite Hp, Hq.
    cbn. by rewrite IH1, IH2.
Qed.

Lemma ContainsByte_app (a b : string) (x : ascii) :
  strings.ContainsByte (a +:+ b) x
  = strings.ContainsByte a x || strings.ContainsByte b x.
Proof.
  induction a as [|c a IH]; [done|]. rewrite app_String. cbn [strings.ContainsByte]. rewrite IH. by rewrite orb_assoc.
Qed.

(** A byte that is escaped, and is neither [%] nor [+], does not occur in
    an escaped string. *)
Lemma QueryEscape_free (s : string) (x : ascii) :
  url.shouldEscape x url.encodeQueryComponent = true ->
  x <> "%"%char -> x <> "+"%char ->
  strings.ContainsByte (url.QueryEscape s) x = false.
Proof.
  intros Hx Hp Hq. unfold url.QueryEscape.
  induction s as [|c s IH]; [done|].
  cbn [url.escape].
  destruct (url.shouldEscape c url.encodeQueryComponent) eqn:Hesc.
  - destruct (byte_eqb c " " && url.is_query_mode url.encodeQueryComponent).
    + cbn [strings.ContainsByte]. rewrite IH, orb_false_r. apply byte_eqb_neq. congruence.
    + pose proof (byte_val_bounds c) as Hc.
      destruct (upperhex_spec (byte_val c / 16)) as (_ & _ & Hs1);
        [split; [apply Z.div_pos; lia | apply Z.div_lt_upper_bound; lia]|].
      destruct (upperhex_spec (byte_val c mod 16)) as (_ & _ & Hs2);
        [apply Z.mod_pos_bound; lia|].
      cbn [strings.ContainsByte]. rewrite IH, orb_false_r.
      repeat (apply orb_false_intro); apply byte_eqb_neq; congruence.
  - cbn [strings.ContainsByte]. rewrite IH, orb_false_r. apply byte_eqb_neq. congruence.
Qed.

Lemma Cut_app (a b : string) (sep : ascii) :
  strings.ContainsByte a sep = false ->
  strings.Cut (a +:+ String sep b) sep = (a, b, true).
Proof.
  induction a as [|c a IH]; rewrite ?app_String, ?app_Empty; cbn [strings.Cut strings.ContainsByte].
  - intros _. by rewrite (proj2 (byte_eqb_eq sep sep)).
  - intros [Hc Ha]%orb_false_elim. rewrite Hc, (IH Ha). done.
Qed.

Lemma Split_none (a : string) (sep : ascii) :
  strings.ContainsByte a sep = false -> strings.Split a sep = [a].
Proof.
  induction a as [|c a IH]; [done|]. cbn [strings.Split strings.ContainsByte].
  intros [Hc Ha]%orb_false_elim. by rewrite Hc, (IH Ha).
Qed.

Lemma Split_app (a b : string) (sep : ascii) :
  strings.ContainsByte a sep = false ->
  strings.Split (a +:+ String sep b) sep = a :: strings.Split b sep.
Proof.
  induction a as [|c a IH]; rewrite ?app_String, ?app_Empty; cbn [strings.Split strings.ContainsByte].
  - intros _. by rewrite (proj2 (byte_eqb_eq sep sep)).
  - intros [Hc Ha]%orb_false_elim. by rewrite Hc, (IH Ha).
Qed.

Lemma Split_Join (segs : list string) (sep : ascii) :
  segs <> [] ->
  Forall (fun s => strings.ContainsByte s sep = false) segs ->
  strings.Split (strings.Join segs (str1 sep)) sep = segs.
Proof.
  intros Hne Hall. induction Hall as [|s segs Hs Hall IH]; [done|].
  destruct segs as [|s' segs]; [by apply Split_none|].
  change (strings.Join (s :: s' :: segs) (str1 sep))
    with (s +:+ String sep (strings.Join (s' :: segs) (str1 sep))).
  rewrite Split_app by done. by rewrite IH.
Qed.

Lemma segment_nonempty kv : segment kv <> EmptyString.
Proof.
  unfold segment. destruct (url.QueryEscape kv.1); discriminate.
Qed.

Lemma segment_free (kv : string * string) (x : ascii) :
  url.shouldEscape x url.encodeQueryComponent = true ->
  x <> "%"%char -> x <> "+"%char -> x <> "="%char ->
  strings.ContainsByte (segment kv) x = false.
Proof.
  intros Hx Hp Hq He. unfold segment.
  rewrite !ContainsByte_app, !QueryEscape_free by done.
  cbn [strings.ContainsByte orb]. rewrite !orb_false_r. apply byte_eqb_neq. congruence.
Qed.

Lemma length_app_string (a b : string) :
  String.length (a +:+ b) = (String.length a + String.length b)%nat.
Proof. induction a as [|c a IH]; rewrite ?app_String, ?app_Empty; cbn; [done | by rewrite IH]. Qed.

Lemma Join_snoc (segs : list string) (s sep : string) :
  strings.Join (segs ++ [s]) sep
  = match segs with
    | [] => s
    | _ => strings.Join segs sep +:+ sep +:+ s
    end.
Proof.
  induction segs as [|a segs IH]; [done|].
  destruct segs as [|b segs]; [done|].
  change (strings.Join ((a :: b :: segs) ++ [s]) sep)
    with (a +:+ sep +:+ strings.Join ((b :: segs) ++ [s]) sep).
  rewrite IH. cbn [strings.Join].
  by rewrite !string_app_assoc.
Qed.

Lemma Join_empty_iff (segs : list string) (sep : string) :
  Forall (fun s => s <> EmptyString) segs ->
  (0 <? String.length (strings.Join segs sep))%nat = negb (bool_decide (segs = [])).
Proof.
  intros Hall. destruct Hall as [|s rest Hs _]; [done|].
  destruct s as [|c s]; [done|].
  by destruct rest.
Qed.

Lemma encode_values_Join (segs : list string) (k : string) (vs : list string) :
  Forall (fun s => s <> EmptyString) segs ->
  url.encode_values (strings.Join segs "&") (url.QueryEscape k) vs
  = strings.Join (segs ++ map (fun x => segment (k, x)) vs) "&".
Proof.
  revert segs. induction vs as [|x vs IH]; intros segs Hsegs.
  - by rewrite app_nil_r.
  - cbn [url.encode_values map]. rewrite Join_empty_iff by done.
    replace (segs ++ segment (k, x) :: map (fun x => segment (k, x)) vs)
      with ((segs ++ [segment (k, x)]) ++ map (fun x => segment (k, x)) vs)
      by (by rewrite <- app_assoc).
    rewrite <- IH.
    + f_equal. rewrite Join_snoc. unfold segment. cbn [fst snd].
      destruct segs; cbn [negb bool_decide decide_rel]; [done|].
      rewrite bool_decide_eq_false_2 by done. cbn [negb].
      by rewrite !string_app_assoc.
    + apply Forall_app. split; [done|]. constructor; [apply segment_nonempty | done].
Qed.

Lemma encode_keys_Join (segs : list string) (v : url.Values) (keys : list string) :
  Forall (fun s => s <> EmptyString) segs ->
  url.encode_keys (strings.Join segs "&") v keys
  = strings.Join (segs ++ map segment (pairs_of v keys)) "&".
Proof.
  revert segs. induction keys as [|k keys IH]; intros segs Hsegs.
  - cbn. by rewrite app_nil_r.
  - cbn [url.encode_keys pairs_of flat_map]. rewrite encode_values_Join by done.
    rewrite IH.
    + fold (pairs_of v keys). by rewrite map_app, map_map, app_assoc.
    + apply Forall_app. split; [done|].
      apply Forall_forall. intros s (x & -> & _)%list_elem_of_fmap.
      apply segment_nonempty.
Qed.

(** What the loop of [parseQuery] does on a segment [Encode] wrote. *)
Lemma parseQuery_step_segment (m : url.Values) (err : option LibError)
      (kv : string * string) :
  url.parseQuery_step (m, err) (segment kv) = (add_value m kv, err).
Proof.
  unfold url.parseQuery_step.
  rewrite (segment_free kv ";") by done.
  destruct (String.eqb_spec (segment kv) EmptyString) as [He|_];
    [by apply segment_nonempty in He|].
  unfold segment. rewrite app_String, app_Empty.
  rewrite Cut_app by (by apply QueryEscape_free).
  by rewrite !QueryUnescape_QueryEscape.
Qed.

Lemma ParseQuery_segments (pairs : list (string * string)) :
  url.ParseQuery (strings.Join (map segment pairs) "&")
  = (fold_left add_value pairs ∅, None).
Proof.
  unfold url.ParseQuery.
  destruct pairs as [|kv pairs]; [done|].
  change "&"%string with (str1 "&"). rewrite Split_Join.
  - generalize (∅ : url.Values). generalize (kv :: pairs). clear.
    intros l. induction l as [|p l IH]; intros m; [done|].
    cbn [map fold_left]. by rewrite parseQuery_step_segment, IH.
  - done.
  - apply Forall_forall. intros s (p & -> & _)%list_elem_of_fmap.
    by apply segment_free.
Qed.

Lemma add_values_fold (m : url.Values) (k : string) (vs : list string) :
  fold_left add_value (map (fun x => (k, x)) vs) m
  = match vs with
    | [] => m
    | _ => <[k := default [] (m !! k) ++ vs]> m
    end.
Proof.
  revert m. induction vs as [|x vs IH]; intros m; [done|].
  cbn [map fold_left]. rewrite IH. unfold add_value. cbn [fst snd].
  destruct vs as [|y vs]; [done|].
  rewrite lookup_insert_eq, insert_insert_eq. simpl.
  by rewrite <- app_assoc.
Qed.

(** Parsing back what [Encode] wrote for the keys: every key with values
    gets them, in order; the other keys keep what they had. *)
Lemma fold_pairs_lookup (v : url.Values) (keys : list string) (m : url.Values)
      (k : string) :
  NoDup keys -> (forall k', k' ∈ keys -> m !! k' = None) ->
  fold_left add_value (pairs_of v keys) m !! k
  = if decide (k ∈ keys)
    then match v !! k with
         | Some (x :: xs) => Some (x :: xs)
         | _ => None
         end
    else m !! k.
Proof.
  revert m. induction keys as [|k0 keys IH]; intros m Hnodup Hfresh.
  - cbn. destruct (decide (k ∈ [])) as [Hin|_]; [by apply elem_of_nil in Hin | done].
  - apply NoDup_cons in Hnodup as [Hk0 Hnodup].
    cbn [pairs_of flat_map]. fold (pairs_of v keys).
    rewrite fold_left_app, add_values_fold.
    assert (m !! k0 = None) as Hm by (apply Hfresh; left).
    assert (forall k', k' ∈ keys -> k' <> k0) as Hother by (by intros k' ? ->).
    rewrite IH; [|done|].
    + destruct (decide (k ∈ k0 :: keys)) as [Hin|Hnin];
        destruct (decide (k ∈ keys)) as [Hin'|Hnin'];
        rewrite elem_of_cons in *.
      * done.
      * destruct Hin as [->|]; [|done].
        destruct (v !! k0) as [[|x xs]|]; simpl; [done| |done].
        by rewrite lookup_insert_eq, Hm.
      * naive_solver.
      * destruct (default [] (v !! k0)); [done|].
        rewrite lookup_insert_ne; [done | naive_solver].
    + intros k' Hk'. destruct (default [] (v !! k0)).
      * apply Hfresh. by right.
      * rewrite lookup_insert_ne by (symmetry; by apply Hother).
        apply Hfresh. by right.
Qed.

Lemma sorted_keys_spec (v : url.Values) :
  NoDup (url.sorted_keys v) /\ forall k, k ∈ url.sorted_keys v <-> is_Some (v !! k).
Proof.
  unfold url.sorted_keys.
  pose proof (merge_sort_Permutation url.string_le (map fst (map_to_list v))) as Hperm.
  split.
  - rewrite Hperm. apply NoDup_fst_map_to_list.
  - intros k. rewrite Hperm. rewrite list_elem_of_fmap. split.
    + intros ([k' vs] & -> & Hin). apply elem_of_map_to_list in Hin. by eexists.
    + intros [vs Hvs]. exists (k, vs). split; [done|]. by apply elem_of_map_to_list.
Qed.

(** Parsing the encoding of a map in which every key has a value gives
    the map back. *)
Lemma ParseQuery_Encode (v : url.Values) :
  (forall k vs, v !! k = Some vs -> vs <> []) ->
  url.ParseQuery (url.Values_Encode v) = (v, None).
Proof.
  intros Hne. unfold url.Values_Encode.
  destruct (decide (size v = 0%nat)) as [Hsize|Hsize].
  - apply map_size_empty_iff in Hsize as ->. done.
  - change EmptyString with (strings.Join [] "&") at 1.
    rewrite encode_keys_Join by done. cbn [app].
    rewrite ParseQuery_segments. f_equal.
    destruct (sorted_keys_spec v) as [Hnodup Hdom].
    apply map_eq. intros k.
    rewrite fold_pairs_lookup by done.
    destruct (decide (k ∈ url.sorted_keys v)) as [Hin|Hnin].
    + apply Hdom in Hin as [vs Hvs]. rewrite Hvs.
      destruct vs; [by apply Hne in Hvs | done].
    + rewrite lookup_empty. symmetry. apply eq_None_not_Some. by rewrite <- Hdom.
Qed.

(** ** Decimal strings *)

Lemma digit_char_spec (d : Z) :
  0 <= d < 10 ->
  is_digit (strconv.digit_char d) = true
  /\ byte_val (strconv.digit_char d) - 48 = d
  /\ strconv.digit_char d <> "-"%char /\ strconv.digit_char d <> "+"%char.
Proof.
  intros Hd.
  assert (d = 0 \/ d = 1 \/ d = 2 \/ d = 3 \/ d = 4 \/ d = 5 \/ d = 6 \/ d = 7
          \/ d = 8 \/ d = 9) as Hcases by lia.
  destruct Hcases as [->|[->|[->|[->|[->|[->|[->|[->|[->| ->]]]]]]]]];
    vm_compute; repeat split; congruence.
Qed.

(** [digits] writes the decimal digits of [n] in front of [acc]: parsing
    them from [a] on reaches [a * p + n] for a single power [p] of ten. *)
Lemma parse_digits_digits (fuel : nat) (n : Z) (acc : string) :
  0 <= n < 10 ^ Z.of_nat fuel -> (0 < fuel)%nat ->
  exists p, 0 < p /\ forall a,
    strconv.parse_digits (strconv.digits fuel n acc) a
    = strconv.parse_digits acc (a * p + n).
Proof.
  revert n acc. induction fuel as [|fuel IH]; intros n acc Hn Hfuel; [lia|].
  cbn [strconv.digits].
  destruct (digit_char_spec (n mod 10)) as (Hd & Hv & _);
    [apply Z.mod_pos_bound; lia|].
  destruct (Z.ltb_spec n 10) as [Hsmall|Hbig].
  - exists 10. split; [lia|]. intros a. cbn [strconv.parse_digits].
    rewrite Hd, Hv. f_equal. rewrite Z.mod_small by lia. lia.
  - destruct fuel as [|fuel']; [simpl in Hn; lia|].
    destruct (IH (n / 10) (String (strconv.digit_char (n mod 10)) acc))
      as (p & Hp & Hparse); [|lia|].
    + split; [apply Z.div_pos; lia|].
      apply Z.div_lt_upper_bound; [lia|].
      replace (Z.of_nat (S (S fuel'))) with (Z.succ (Z.of_nat (S fuel'))) in Hn by lia.
      rewrite Z.pow_succ_r in Hn by lia. lia.
    + exists (10 * p). split; [lia|]. intros a. rewrite Hparse.
      cbn [strconv.parse_digits]. rewrite Hd, Hv. f_equal.
      pose proof (Z.div_mod n 10). lia.
Qed.

Lemma digits_head (fuel : nat) (n : Z) (acc : string) :
  0 <= n -> (0 < fuel)%nat ->
  exists c rest, strconv.digits fuel n acc = String c rest
                 /\ c <> "-"%char /\ c <> "+"%char.
Proof.
  revert n acc. induction fuel as [|fuel IH]; intros n acc Hn Hfuel; [lia|].
  cbn [strconv.digits].
  destruct (digit_char_spec (n mod 10)) as (_ & _ & Hm & Hp);
    [apply Z.mod_pos_bound; lia|].
  destruct (n <? 10); [by eexists _, _|].
  destruct fuel as [|fuel']; [by eexists _, _|].
  apply IH; [apply Z.div_pos; lia | lia].
Qed.

Lemma FormatUint_fuel (n : Z) : 0 <= n -> n < 10 ^ Z.of_nat (S (Z.to_nat (Z.log2 n))).
Proof.
  intros Hn. pose proof (Z.log2_nonneg n) as Hlog.
  replace (Z.of_nat (S (Z.to_nat (Z.log2 n)))) with (Z.succ (Z.log2 n)) by lia.
  destruct (decide (n = 0)) as [->|Hpos]; [done|].
  destruct (Z.log2_spec n ltac:(lia)) as [_ Hlt].
  eapply Z.lt_le_trans; [exact Hlt|].
  apply Z.pow_le_mono_l. lia.
Qed.

Lemma ParseInt_unsigned (s : string) (c : ascii) (rest : string) (n : Z) :
  s = String c rest -> c <> "-"%char -> c <> "+"%char ->
  strconv.parse_digits s 0 = Some n -> is_int n = true ->
  strconv.ParseInt s = Some n.
Proof.
  intros -> Hm Hp Hparse Hint. unfold strconv.ParseInt.
  assert (match String c rest with
          | String "-" r => (true, r)
          | String "+" r => (false, r)
          | _ => (false, String c rest)
          end = (false, String c rest)) as ->.
  { destruct c as [[] [] [] [] [] [] [] []]; congruence. }
  by rewrite Hparse, Hint.
Qed.

(** [strconv.Itoa] writes the decimal representation: [strconv.ParseInt]
    reads the number back. *)
Lemma ParseInt_Itoa (n : Z) :
  is_int n = true -> strconv.ParseInt (strconv.Itoa n) = Some n.
Proof.
  intros Hint. unfold strconv.Itoa, strconv.FormatUint.
  destruct (Z.ltb_spec n 0) as [Hneg|Hpos].
  - destruct (parse_digits_digits (S (Z.to_nat (Z.log2 (- n)))) (- n) EmptyString)
      as (p & _ & Hparse); [split; [lia | apply FormatUint_fuel; lia] | lia |].
    destruct (digits_head (S (Z.to_nat (Z.log2 (- n)))) (- n) EmptyString)
      as (c & rest & Heq & _); [lia | lia |].
    unfold strconv.ParseInt. rewrite Heq, <- Heq, Hparse.
    cbn [strconv.parse_digits]. replace (0 * p + - n) with (- n) by lia.
    replace (- - n) with n by lia. by rewrite Hint.
  - destruct (parse_digits_digits (S (Z.to_nat (Z.log2 n))) n EmptyString)
      as (p & _ & Hparse); [split; [lia | apply FormatUint_fuel; lia] | lia |].
    destruct (digits_head (S (Z.to_nat (Z.log2 n))) n EmptyString)
      as (c & rest & Heq & Hm & Hp); [lia | lia |].
    apply (ParseInt_unsigned _ c rest n Heq Hm Hp); [|done].
    rewrite Hparse. cbn [strconv.parse_digits].
    by replace (0 * p + n) with n by lia.
Qed.

(** ** The query options *)

Lemma ListOptions_lookup (opts : ListOptions) (k : string) :
  ListOptions_ToURLValues (Some opts) !! k
  = if decide (k = "sort")
    then (if url.nonempty (Sort opts) then Some [Sort opts] else None)
    else if decide (k = "tag")
    then (if url.nonempty (Tag opts) then Some [Tag opts] else None)
    else if decide (k = "query")
    then (if url.nonempty (Query opts) then Some [Query opts] else None)
    else if decide (k = "limit")
    then (if 0 <? Limit opts then Some [strconv.Itoa (Limit opts)] else None)
    else if decide (k = "start")
    then (if 0 <? Start opts then Some [strconv.Itoa (Start opts)] else None)
    else None.
Proof.
  unfold ListOptions_ToURLValues, url.Values_Set.
  destruct (url.nonempty (Sort opts)), (url.nonempty (Tag opts)),
    (url.nonempty (Query opts)), (0 <? Limit opts), (0 <? Start opts);
    repeat (rewrite lookup_insert; case_decide; simplify_eq; try done);
    rewrite ?lookup_empty; repeat (case_decide; simplify_eq; try done).
Qed.

Lemma SearchOptions_lookup (opts : SearchOptions) (k : string) :
  SearchOptions_ToURLValues (Some opts) !! k
  = if decide (k = "sort")
    then (if url.nonempty (SSort opts) then Some [SSort opts] else None)
    else if decide (k = "tag")
    then (if url.nonempty (STag opts) then Some [STag opts] else None)
    else if decide (k = "limit")
    then (if 0 <? SLimit opts then Some [strconv.Itoa (SLimit opts)] else None)
    else if decide (k = "start")
    then (if 0 <? SStart opts then Some [strconv.Itoa (SStart opts)] else None)
    else None.
Proof.
  unfold SearchOptions_ToURLValues, url.Values_Set.
  destruct (url.nonempty (SSort opts)), (url.nonempty (STag opts)),
    (0 <? SLimit opts), (0 <? SStart opts);
    repeat (rewrite lookup_insert; case_decide; simplify_eq; try done);
    rewrite ?lookup_empty; repeat (case_decide; simplify_eq; try done).
Qed.

Lemma ListOptions_values_nonempty (opts : option ListOptions) (k : string)
      (vs : list string) :
  ListOptions_ToURLValues opts !! k = Some vs -> vs <> [].
Proof.
  destruct opts as [opts|]; [|done].
  rewrite ListOptions_lookup.
  repeat case_decide; repeat case_match; by intros [= <-].
Qed.

Lemma SearchOptions_values_nonempty (opts : option SearchOptions) (k : string)
      (vs : list string) :
  SearchOptions_ToURLValues opts !! k = Some vs -> vs <> [].
Proof.
  destruct opts as [opts|]; [|done].
  rewrite SearchOptions_lookup.
  repeat case_decide; repeat case_match; by intros [= <-].
Qed.

Lemma nonempty_false (s : string) : url.nonempty s = false <-> s = EmptyString.
Proof.
  unfold url.nonempty. destruct (String.eqb_spec s EmptyString); naive_solver.
Qed.

Lemma nonempty_true (s : string) : url.nonempty s = true <-> s <> EmptyString.
Proof.
  unfold url.nonempty. destruct (String.eqb_spec s EmptyString); naive_solver.
Qed.

Lemma map_to_list_insert_cons (m : url.Values) (k : string) (x : list string)
      (l : list (string * list string)) :
  m !! k = None -> map_to_list m ≡ₚ l -> map_to_list (<[k := x]> m) ≡ₚ (k, x) :: l.
Proof. intros Hk Hl. rewrite map_to_list_insert by done. by rewrite Hl. Qed.

Lemma SearchOptions_pairs (o : SearchOptions) :
  map_to_list (SearchOptions_ToURLValues (Some o))
  ≡ₚ (if url.nonempty (SSort o) then [("sort"%string, [SSort o])] else [])
     ++ (if url.nonempty (STag o) then [("tag"%string, [STag o])] else [])
     ++ (if 0 <? SLimit o then [("limit"%string, [strconv.Itoa (SLimit o)])] else [])
     ++ (if 0 <? SStart o then [("start"%string, [strconv.Itoa (SStart o)])] else []).
Proof.
  unfold SearchOptions_ToURLValues, url.Values_Set.
  destruct (url.nonempty (SSort o)), (url.nonempty (STag o)), (0 <? SLimit o),
    (0 <? SStart o); cbn [app];
    repeat (apply map_to_list_insert_cons;
            [by rewrite ?lookup_insert_ne by done|]);
    by rewrite map_to_list_empty.
Qed.

(** ** The parameters of a search *)














(** ** C6 *)




(** C9. For a [ListOptions] with every field set, parsing the encoded
    query string gives exactly the five pairs, the strings as they were
    and the numbers as decimal strings that read back as the fields; the
    endpoint [ListMessages] requests carries that query string. No
    condition on the bytes of the strings is needed. *)
Theorem C9_query_round_trip (opts : ListOptions) :
  Query opts <> EmptyString -> Tag opts <> EmptyString ->
  Sort opts <> EmptyString -> 0 < Start opts -> 0 < Limit opts ->
  let q := url.Values_Encode (ListOptions_ToURLValues (Some opts)) in
  url.ParseQuery q
  = ({[ "query" := [Query opts]; "tag" := [Tag opts]; "sort" := [Sort opts];
        "start" := [strconv.Itoa (Start opts)];
        "limit" := [strconv.Itoa (Limit opts)] ]}, None)
  /\ ListMessages_endpoint (Some opts) = "/messages?" +:+ q
  /\ (is_int (Start opts) = true ->
      strconv.ParseInt (strconv.Itoa (Start opts)) = Some (Start opts))
  /\ (is_int (Limit opts) = true ->
      strconv.ParseInt (strconv.Itoa (Limit opts)) = Some (Limit opts)).
Proof.
  intros Hq Ht Hs Hstart Hlimit q. unfold q.
  rewrite ParseQuery_Encode by apply ListOptions_values_nonempty.
  apply nonempty_true in Hq, Ht, Hs.
  apply Z.ltb_lt in Hstart, Hlimit.
  repeat split; try apply ParseInt_Itoa.
  - f_equal. apply map_eq. intros k. rewrite ListOptions_lookup.
    rewrite Hq, Ht, Hs, Hstart, Hlimit.
    repeat (rewrite lookup_insert; case_decide; simplify_eq; try done).
    rewrite lookup_singleton. by repeat (case_decide; simplify_eq).
  - unfold ListMessages_endpoint.
    enough (0 < size (ListOptions_ToURLValues (Some opts)))%nat as Hsize
        by (by apply Nat.ltb_lt in Hsize as ->).
    assert (ListOptions_ToURLValues (Some opts) !! "sort" = Some [Sort opts]) as Hl
        by (by rewrite ListOptions_lookup, Hs).
    destruct (decide (size (ListOptions_ToURLValues (Some opts)) = 0%nat)) as [H0|]; [|lia].
    apply map_size_empty_iff in H0. by rewrite H0 in Hl.
Qed.

(** The options of the test, with a space to escape. *)
Lemma C9_round_trip_witness :
  url.ParseQuery
    (url.Values_Encode
       (ListOptions_ToURLValues
          (Some (mkListOptions "test query" "important" "date" 10 25))))
  = ({[ "query" := ["test query"]; "tag" := ["important"]; "sort" := ["date"];
        "start" := ["10"]; "limit" := ["25"] ]}, None)
  /\ url.Values_Encode
       (ListOptions_ToURLValues
          (Some (mkListOptions "test query" "important" "date" 10 25)))
     = "limit=25&query=test+query&sort=date&start=10&tag=important".
Proof.
  split; [|by vm_compute].
  refine (proj1 (C9_query_round_trip
                   (mkListOptions "test query" "important" "date" 10 25)
                   _ _ _ _ _)); (discriminate || reflexivity).
Defined.

(** ** The JSON scanner *)

Ltac unfold_scanner :=
  unfold json.scan_step, json.do_stateBeginValue, json.do_stateBeginString,
    json.do_state0, json.do_stateESign, json.expect, json.expect_hex,
    json.do_stateEndValue, json.do_stateEndTop, json.pushParseState,
    json.popParseState, json.replace_top, json.set_step, json.error_ in *.

Lemma step_ok (s : json.scanner) (c : ascii) :
  scan_ok s ->
  (scan_ok (json.scan_step s c).1 /\ (json.scan_step s c).2 <> json.scanError)
  \/ scan_failed (json.scan_step s c).1.
Proof.
  destruct s as [st et stack er]. unfold scan_ok, scan_failed. cbn [json.err json.next json.endTop].
  intros (-> & Hst & Het).
  destruct st; try done;
    (destruct et; [by specialize (Het eq_refl)|]) || idtac;
    unfold_scanner; cbn [json.next json.endTop json.parseStack json.err fst snd];
    repeat case_match; cbn [json.next json.endTop json.parseStack json.err fst snd];
    simplify_eq;
    try (left; repeat split; (done || discriminate || congruence));
    try (right; split; (done || discriminate || congruence)).
Qed.

Lemma isSpace_cases (c : ascii) :
  json.isSpace c = true ->
  c = " "%char \/ c = "009"%char \/ c = "010"%char \/ c = "013"%char.
Proof.
  destruct c as [[] [] [] [] [] [] [] []]; vm_compute; intros H;
    try discriminate H; auto.
Qed.

Lemma failed_invalid (s : json.scanner) (data : string) :
  scan_failed s -> json.checkValid_from s data <> None.
Proof.
  destruct s as [st et stack er]. unfold scan_failed. cbn. intros [-> Her].
  destruct data as [|c rest]; cbn.
  - unfold json.eof. cbn. by destruct er.
  - done.
Qed.

Lemma space_step (s : json.scanner) (c : ascii) :
  scan_ok s -> json.isSpace c = true ->
  scan_failed (json.scan_step s c).1
  \/ json.eof (json.scan_step s c).1 <> None
  \/ (((json.scan_step s c).2 = json.scanSkipSpace
       \/ (json.scan_step s c).2 = json.scanEnd)
      /\ (json.eof (json.scan_step s c).1 = None -> json.eof s = None)).
Proof.
  intros Hg Hc.
  destruct s as [st et stack er]. destruct Hg as (Her & Hst & Het).
  cbn in Her, Hst, Het. subst er.
  assert (et = false \/ st = json.stateEndTop) as Hshape.
  { destruct et; [right; by apply Het | by left]. }
  clear Het.
  destruct (isSpace_cases c Hc) as [-> | [-> | [-> | ->]]];
    destruct st; try done;
    destruct Hshape as [-> | Hshape]; try discriminate Hshape;
    try destruct et;
    destruct stack as [|[] stack];
    vm_compute;
    first
      [ right; right; split;
        [ first [ left; reflexivity | right; reflexivity ]
        | intros H; first [ reflexivity | exact H | discriminate H ] ]
      | right; left; discriminate
      | left; split; [ reflexivity | discriminate ] ].
Qed.

Lemma scan_ok_reset : scan_ok json.reset.
Proof. by repeat split. Qed.

Lemma checkValid_run (a d : string) (s : json.scanner) (b : json.builder) :
  scan_ok s -> json.checkValid_from s (a +:+ d) = None ->
  scan_ok (run s b a).1
  /\ forall d', json.checkValid_from s (a +:+ d')
                = json.checkValid_from (run s b a).1 d'.
Proof.
  revert s b. induction a as [|c a IH]; intros s b Hg Hv.
  - split; [done|]. intros d'. by rewrite app_Empty.
  - rewrite app_String in Hv. cbn [json.checkValid_from run] in *.
    pose proof (step_ok s c Hg) as Hstep.
    destruct (json.scan_step s c) as [s1 op] eqn:Hs. cbn [fst snd] in Hstep.
    destruct Hstep as [[Hg1 Hop] | Hbad].
    + assert (json.checkValid_from s1 (a +:+ d) = None) as Hv1 by by destruct op.
      destruct (IH s1 (json.build_step b op c) Hg1 Hv1) as [Hg' Hrun].
      split; [done|]. intros d'. rewrite app_String.
      cbn [json.checkValid_from]. rewrite Hs, <- Hrun. by destruct op.
    + exfalso. destruct op; try (by eapply failed_invalid).
      by destruct Hbad.
Qed.

Lemma decode_run (a d : string) (s : json.scanner) (b : json.builder) :
  json.decode_from s b (a +:+ d)
  = json.decode_from (run s b a).1 (run s b a).2 d.
Proof.
  revert s b. induction a as [|c a IH]; intros s b.
  - by rewrite app_Empty.
  - rewrite app_String. cbn [json.decode_from run].
    destruct (json.scan_step s c) as [s1 op]. apply IH.
Qed.

Lemma end_literal_idem (b : json.builder) :
  json.end_literal (json.end_literal b) = json.end_literal b.
Proof. unfold json.end_literal. by destruct (json.lit b) eqn:E; cbn; [|rewrite E]. Qed.

Lemma trailing_space (ws : string) (s : json.scanner) :
  all_space ws = true -> scan_ok s -> json.checkValid_from s ws = None ->
  json.eof s = None
  /\ forall b, json.last (json.decode_from s b ws)
               = json.last (json.end_literal b).
Proof.
  revert s. induction ws as [|c ws IH]; intros s Hws Hg Hv.
  - done.
  - cbn [all_space] in Hws. apply andb_true_iff in Hws as [Hc Hws].
    cbn [json.checkValid_from json.decode_from] in *.
    pose proof (step_ok s c Hg) as Hstep.
    pose proof (space_step s c Hg Hc) as Hspace.
    destruct (json.scan_step s c) as [s1 op]. cbn [fst snd] in *.
    destruct Hstep as [[Hg1 Hop] | Hbad].
    + assert (json.checkValid_from s1 ws = None) as Hv1 by by destruct op.
      destruct (IH s1 Hws Hg1 Hv1) as [Heof Hlast].
      destruct Hspace as [[Hb _] | [Hne | [Hop' Hback]]].
      * by destruct Hg1 as (_ & Hn & _).
      * done.
      * split; [by apply Hback|]. intros b. rewrite Hlast.
        assert (json.build_step b op c = json.end_literal b) as ->
          by by destruct Hop' as [-> | ->].
        by rewrite end_literal_idem.
    + exfalso. destruct op; try (by eapply failed_invalid).
      by destruct Hbad.
Qed.

Lemma leading_space (c : ascii) :
  json.isSpace c = true ->
  json.scan_step json.reset c = (json.reset, json.scanSkipSpace).
Proof.
  intros Hc. by destruct (isSpace_cases c Hc) as [-> | [-> | [-> | ->]]].
Qed.

Lemma drop_space_from (data : string) :
  json.checkValid_from json.reset data
  = json.checkValid_from json.reset (json.drop_space data)
  /\ json.decode_from json.reset (json.mkBuilder None None []) data
     = json.decode_from json.reset (json.mkBuilder None None [])
         (json.drop_space data).
Proof.
  induction data as [|c rest IH]; [done|].
  cbn [json.drop_space]. destruct (json.isSpace c) eqn:Hc; [|done].
  cbn [json.checkValid_from json.decode_from].
  by rewrite (leading_space c Hc).
Qed.

Lemma drop_space_end_split (d : string) :
  exists ws, d = json.drop_space_end d +:+ ws /\ all_space ws = true.
Proof.
  induction d as [|c rest (ws & Hrest & Hws)]; [by exists EmptyString|].
  cbn [json.drop_space_end].
  destruct (json.drop_space_end rest) as [|c' r] eqn:E.
  - rewrite app_Empty in Hrest. subst ws.
    destruct (json.isSpace c) eqn:Hc.
    + exists (String c rest). rewrite app_Empty. split; [done|].
      cbn [all_space]. by rewrite Hc.
    + exists rest. unfold str1. by rewrite app_String, app_Empty.
  - exists ws. by rewrite app_String, <- Hrest.
Qed.

Lemma app_Empty_r (s : string) : s +:+ EmptyString = s.
Proof. induction s as [|c s IH]; [done|]. by rewrite app_String, IH. Qed.

(** The bytes handed to an [UnmarshalJSON] method hold the value of the
    document. *)
Lemma parse_value_bytes (data : string) (v : json.JSON) :
  json.parse data = Some v -> json.parse (json.value_bytes data) = Some v.
Proof.
  unfold json.parse, json.checkValid, json.decode_tree, json.value_bytes.
  destruct (drop_space_from data) as [-> ->].
  destruct (drop_space_end_split (json.drop_space data)) as (ws & Hsplit & Hws).
  set (d := json.drop_space_end (json.drop_space data)) in *.
  rewrite Hsplit. clearbody d.
  destruct (json.checkValid_from json.reset (d +:+ ws)) eqn:Hv; [done|].
  intros [= <-].
  set (b0 := json.mkBuilder None None []).
  destruct (checkValid_run d ws json.reset b0 scan_ok_reset Hv) as [Hg Hrun].
  rewrite Hrun in Hv.
  destruct (trailing_space ws _ Hws Hg Hv) as [Heof Hlast].
  rewrite <- (app_Empty_r d) at 1. rewrite Hrun. cbn [json.checkValid_from].
  rewrite Heof. f_equal. f_equal.
  rewrite decode_run, Hlast.
  rewrite <- (app_Empty_r d) at 1. by rewrite decode_run.
Qed.


Lemma step_syntax (s : json.scanner) (c : ascii) :
  syntax_errors_only s -> syntax_errors_only (json.scan_step s c).1.
Proof.
  destruct s as [st et stack er]. unfold syntax_errors_only.
  cbn [json.err]. intros Hs.
  destruct st; unfold_scanner;
    cbn [json.next json.endTop json.parseStack json.err fst snd];
    repeat case_match; cbn [json.next json.endTop json.parseStack json.err fst snd];
    first [ exact Hs | intros e [= <-]; eauto ].
Qed.

Lemma checkValid_syntax (data : string) (s : json.scanner) (e : LibError) :
  syntax_errors_only s -> json.checkValid_from s data = Some e ->
  exists msg, e = json_SyntaxError msg.
Proof.
  revert s. induction data as [|c rest IH]; intros s Hs.
  - cbn [json.checkValid_from]. unfold json.eof.
    pose proof (step_syntax s " " Hs) as Hs'.
    destruct (json.err s) eqn:E; [intros [= <-]; by apply Hs|].
    destruct (json.endTop s); [done|].
    destruct (json.endTop (json.scan_step s " ").1); [done|].
    destruct (json.err (json.scan_step s " ").1) eqn:E'.
    + intros [= <-]. by apply Hs'.
    + intros [= <-]. by eexists.
  - cbn [json.checkValid_from].
    pose proof (step_syntax s c Hs) as Hs'.
    destruct (json.scan_step s c) as [s1 op]. cbn [fst] in Hs'.
    destruct op; try (by apply IH). apply Hs'.
Qed.

Lemma decode_attachment_object (a : Attachment) :
  is_int (Size a) = true ->
  decode_Attachment (attachment_object a) zeroAttachment = (a, None).
Proof.
  intros Hint. destruct a as [p f ct n]. cbn in Hint.
  unfold decode_Attachment, attachment_object. cbn [fold_left].
  unfold decode_Attachment_member.
  change (json.find_field Attachment_fields "PartID") with (Some "PartID"%string).
  change (json.find_field Attachment_fields "FileName") with (Some "FileName"%string).
  change (json.find_field Attachment_fields "ContentType")
    with (Some "ContentType"%string).
  change (json.find_field Attachment_fields "Size") with (Some "Size"%string).
  cbn [json.decode_string json.decode_int PartID FileName ContentType Size
       json.saveError json.addErrorContext]. 
  by rewrite (ParseInt_Itoa n Hint).
Qed.

Lemma decode_elems_Forall2 (elems : list json.JSON) (atts : list Attachment) :
  Forall2 (fun v a => decode_Attachment v zeroAttachment = (a, None)) elems atts ->
  decode_attachments elems = (atts, None).
Proof.
  unfold decode_attachments.
  induction 1 as [|v a elems atts Hv _ IH]; [done|].
  cbn [json.decode_elems]. by rewrite Hv, IH.
Qed.

Lemma UnmarshalJSON_parsed (d : string) (v : json.JSON) (al : AttachmentList) :
  json.parse d = Some v ->
  AttachmentList_UnmarshalJSON d al
  = match json.decode_slice zeroAttachment decode_Attachment
            "[]mailpitclient.Attachment" v None with
    | (attachments, None) => (attachments, None)
    | (_, Some _) => (Some [], None)
    end.
Proof.
  unfold json.parse, AttachmentList_UnmarshalJSON, Unmarshal_Attachments,
    json.Unmarshal_with.
  destruct (json.checkValid d); [done|]. intros [= ->].
  destruct (json.decode_slice _ _ _ _ _) as [atts [e|]]; [|done].
  by destruct (Unmarshal_int d) as [num [e'|]].
Qed.

Lemma Unmarshal_parsed (data : string) (v : json.JSON) (al : AttachmentList) :
  json.parse data = Some v ->
  Unmarshal_AttachmentList data al
  = match json.decode_slice zeroAttachment decode_Attachment
            "[]mailpitclient.Attachment" v None with
    | (attachments, None) => (attachments, None)
    | (_, Some _) => (Some [], None)
    end.
Proof.
  intros Hp. unfold Unmarshal_AttachmentList, json.Unmarshal_Unmarshaler.
  rewrite (UnmarshalJSON_parsed _ v al (parse_value_bytes data v Hp)).
  revert Hp. unfold json.parse. by destruct (json.checkValid data).
Qed.

(** C3. [json.Unmarshal(data, &al)] for an [AttachmentList]: it returns no
    error exactly when [data] is valid JSON; an array whose elements decode
    into attachments gives those attachments, in particular an array of
    objects holding the four fields gives the fields as written; a number
    gives the empty list, [null] the nil list, an object, a boolean or a
    string the empty list, as does an array with an element that does not
    decode; and invalid JSON leaves the list as it was and returns the
    [SyntaxError] of [checkValid]. *)
Theorem C3_AttachmentList_decoding (data : string) (al : AttachmentList) :
  (json.Valid data = true <-> (Unmarshal_AttachmentList data al).2 = None)
  /\ (forall elems atts,
        json.parse data = Some (json.JArray elems) ->
        decode_attachments elems = (atts, None) ->
        Unmarshal_AttachmentList data al = (Some atts, None))
  /\ (forall atts,
        json.parse data = Some (json.JArray (attachment_object <$> atts)) ->
        Forall (fun a => is_int (Size a) = true) atts ->
        Unmarshal_AttachmentList data al = (Some atts, None))
  /\ (forall item,
        json.parse data = Some (json.JNumber item) ->
        Unmarshal_AttachmentList data al = (Some [], None))
  /\ (json.parse data = Some json.JNull ->
      Unmarshal_AttachmentList data al = (None, None))
  /\ (forall v,
        json.parse data = Some v -> wrong_shape v = true ->
        Unmarshal_AttachmentList data al = (Some [], None))
  /\ (forall elems,
        json.parse data = Some (json.JArray elems) ->
        (decode_attachments elems).2 <> None ->
        Unmarshal_AttachmentList data al = (Some [], None))
  /\ (forall e,
        json.checkValid data = Some e ->
        Unmarshal_AttachmentList data al = (al, Some e)
        /\ exists msg, e = json_SyntaxError msg).
Proof.
  assert (forall elems atts,
            json.parse data = Some (json.JArray elems) ->
            decode_attachments elems = (atts, None) ->
            Unmarshal_AttachmentList data al = (Some atts, None)) as Harray.
  { intros elems atts Hp Hd. rewrite (Unmarshal_parsed _ _ al Hp).
    cbn [json.decode_slice]. fold (decode_attachments elems). by rewrite Hd. }
  split; [|split; [exact Harray|]].
  2: split; [|split; [|split; [|split; [|split; [|intros e He; split]]]]].
  - unfold json.Valid.
    destruct (json.checkValid data) as [e|] eqn:Hv.
    + unfold Unmarshal_AttachmentList, json.Unmarshal_Unmarshaler.
      rewrite Hv. by split.
    + split; [intros _|done].
      assert (json.parse data = Some (json.decode_tree data)) as Hp
        by (unfold json.parse; by rewrite Hv).
      rewrite (Unmarshal_parsed _ _ al Hp).
      by destruct (json.decode_slice _ _ _ _ _) as [atts [e|]].
  - intros atts Hp Hint. apply (Harray _ _ Hp).
    apply decode_elems_Forall2.
    clear Hp. induction Hint as [|a atts Ha _ IH]; cbn [fmap list_fmap];
      constructor; [|done].
    by apply decode_attachment_object.
  - intros item Hp. by rewrite (Unmarshal_parsed _ _ al Hp).
  - intros Hp. by rewrite (Unmarshal_parsed _ _ al Hp).
  - intros v Hp Hv. rewrite (Unmarshal_parsed _ _ al Hp). by destruct v.
  - intros elems Hp Hd. rewrite (Unmarshal_parsed _ _ al Hp).
    cbn [json.decode_slice]. fold (decode_attachments elems).
    by destruct (decode_attachments elems) as [atts [e|]].
  - unfold Unmarshal_AttachmentList, json.Unmarshal_Unmarshaler.
    by rewrite He.
  - revert He. apply checkValid_syntax. by intros e' [=].
Qed.

Lemma C3_decoding_witness :
  Unmarshal_AttachmentList sample_attachments_text None
  = (Some sample_attachments, None)
  /\ Unmarshal_AttachmentList "0" None = (Some [], None)
  /\ Unmarshal_AttachmentList "null" None = (None, None)
  /\ Unmarshal_AttachmentList "true" None = (Some [], None)
  /\ Unmarshal_AttachmentList "[1]" None = (Some [], None)
  /\ Unmarshal_AttachmentList "invalid json" None
     = (None,
        Some (json_SyntaxError
                "invalid character 'i' looking for beginning of value")).
Proof.
  split; [|split; [|split; [|split; [|split]]]].
  - destruct (C3_AttachmentList_decoding sample_attachments_text None)
      as (_ & _ & Hobjects & _).
    apply Hobjects; [by vm_compute | by repeat constructor].
  - destruct (C3_AttachmentList_decoding "0" None) as (_ & _ & _ & Hnumber & _).
    by apply (Hnumber "0"%string).
  - destruct (C3_AttachmentList_decoding "null" None)
      as (_ & _ & _ & _ & Hnull & _).
    by apply Hnull.
  - destruct (C3_AttachmentList_decoding "true" None)
      as (_ & _ & _ & _ & _ & Hshape & _).
    by apply (Hshape (json.JBool true)).
  - destruct (C3_AttachmentList_decoding "[1]" None)
      as (_ & _ & _ & _ & _ & _ & Helement & _).
    by apply (Helement [json.JNumber "1"]).
  - destruct (C3_AttachmentList_decoding "invalid json" None)
      as (_ & _ & _ & _ & _ & _ & _ & Hinvalid).
    by apply Hinvalid.
Defined.

(** The remaining rows of [TestAttachmentList_UnmarshalJSON]. *)
Example attachment_list_tests :
  Unmarshal_AttachmentList "[]" None = (Some [], None)
  /\ Unmarshal_AttachmentList missing_fields_text None
     = (Some [mkAttachment "1" "test.txt" EmptyString 0], None).
Proof. split; by vm_compute. Qed.

(** * Further properties of the code *)

Section Engine.

Variable c : client.
Variable w : World.
Variables method endpoint : string.
Variable body : option string.

Lemma status_tests (s : Z) :
  ((http.StatusOK <=? s) && (s <? http.StatusMultipleChoices) = true
   <-> 200 <= s < 300)
  /\ ((http.StatusBadRequest <=? s) && (s <? http.StatusInternalServerError)
      && negb (s =? http.StatusTooManyRequests) = true
      <-> 400 <= s < 500 /\ s <> 429).
Proof.
  unfold http.StatusOK, http.StatusMultipleChoices, http.StatusBadRequest,
    http.StatusInternalServerError, http.StatusTooManyRequests.
  rewrite !andb_true_iff, negb_true_iff, Z.eqb_neq, !Z.leb_le, !Z.ltb_lt. lia.
Qed.

(** One turn, by what the transport answers. *)
Lemma turn_inversion attempt calls f n' :
  attempt_body c w method (apiURL c +:+ endpoint) body attempt calls = (f, n') ->
  (exists ctxErr, 0 < attempt /\ wait w calls = CtxDone ctxErr
                  /\ f = Return None (Some (LibraryError ctxErr)) /\ n' = calls)
  \/ (exists err, build_request c method (apiURL c +:+ endpoint)
                                 (reader_at w body calls) = inr err
                  /\ f = Return None (Some (request_error err)) /\ n' = calls)
  \/ (exists req, build_request c method (apiURL c +:+ endpoint)
                                 (reader_at w body calls) = inl req
        /\ n' = S calls
        /\ ((exists err, Do w calls req = http.DoError err
                         /\ f = Continue (Some (network_error err)))
            \/ (exists resp, Do w calls req = http.DoResponse resp
                  /\ ((200 <= http.StatusCode resp < 300
                       /\ f = Return (Some resp) None)
                      \/ (400 <= http.StatusCode resp < 500
                          /\ http.StatusCode resp <> 429
                          /\ f = Break (Some (api_error resp)))
                      \/ (~ (200 <= http.StatusCode resp < 300)
                          /\ ~ (400 <= http.StatusCode resp < 500
                                /\ http.StatusCode resp <> 429)
                          /\ f = Continue (Some (api_error resp))))))).
Proof.
  unfold attempt_body. intros Hturn.
  assert (match build_request c method (apiURL c +:+ endpoint)
                                   (reader_at w body calls) with
          | inr err => (Return None (Some (request_error err)), calls)
          | inl req =>
              match Do w calls req with
              | http.DoError err => (Continue (Some (network_error err)), S calls)
              | http.DoResponse resp =>
                  let status := http.StatusCode resp in
                  if (http.StatusOK <=? status) && (status <? http.StatusMultipleChoices)
                  then (Return (Some resp) None, S calls)
                  else
                    let lastErr := Some (api_error resp) in
                    if (http.StatusBadRequest <=? status)
                       && (status <? http.StatusInternalServerError)
                       && negb (status =? http.StatusTooManyRequests)
                    then (Break lastErr, S calls)
                    else (Continue lastErr, S calls)
              end
          end = (f, n')
          \/ exists ctxErr, 0 < attempt /\ wait w calls = CtxDone ctxErr
                            /\ f = Return None (Some (LibraryError ctxErr))
                            /\ n' = calls) as [Hstart | Hdone].
  { destruct (Z.ltb_spec 0 attempt) as [Ha|Ha]; [|by left].
    destruct (wait w calls) as [|ctxErr] eqn:Hw; [by left|].
    right. exists ctxErr. by simplify_eq. }
  2: by left.
  clear Hturn. right.
  destruct (build_request _ _ _ _) as [req|err] eqn:Hreq.
  2: { left. exists err. by simplify_eq. }
  right. exists req.
  destruct (Do w calls req) as [err|resp] eqn:Hdo.
  { simplify_eq. split; [done|split; [done|]]. left. by exists err. }
  cbn zeta in Hstart. destruct (status_tests (http.StatusCode resp)) as [H2 H4].
  destruct (_ && _) eqn:E2 in Hstart.
  { simplify_eq. split; [done|split; [done|]]. right. exists resp.
    split; [done|]. left. split; [by apply H2|done]. }
  destruct (_ && _) eqn:E4 in Hstart.
  { simplify_eq. split; [done|split; [done|]]. right. exists resp.
    split; [done|]. right; left. apply H4 in E4. by destruct E4. }
  simplify_eq. split; [done|split; [done|]]. right. exists resp.
  split; [done|]. right; right. split; [|split; [|done]].
  - intros H. apply H2 in H. congruence.
  - intros H. apply H4 in H. congruence.
Qed.

Lemma loop_calls_bound fuel :
  0 <= MaxRetries (config c) < int_max ->
  Z.of_nat (retry_loop c w method (apiURL c +:+ endpoint) body fuel 0 0 None).2
  <= MaxRetries (config c) + 1.
Proof.
  intros HM.
  apply (loop_rule c w method (apiURL c +:+ endpoint) body
           (fun a n _ => 0 <= a <= MaxRetries (config c) + 1 /\ Z.of_nat n <= a)
           (fun r => Z.of_nat r.2 <= MaxRetries (config c) + 1));
    cbn [snd]; [intros; lia | intros; lia | | lia].
  intros a n l [Ha Hn] HaM.
  destruct (attempt_body _ _ _ _ _ _ _) as [f n'] eqn:Ht.
  apply turn_inversion in Ht
    as [(e & _ & _ & -> & ->) | [(e & _ & -> & ->) | (req & _ & -> & Hcall)]];
    cbn [snd]; [lia | lia |].
  destruct Hcall as [(e & _ & ->) | (resp & _ & [(_ & ->) | [(_ & _ & ->) | (_ & _ & ->)]])];
    cbn [snd]; first [lia | rewrite wrap_int_small by (unfold int_min, int_max in *; lia); lia].
Qed.

Lemma first_turn_calls req out n :
  0 <= MaxRetries (config c) ->
  build_request c method (apiURL c +:+ endpoint) body = inl req ->
  makeRequest c w method endpoint body = (out, n) -> (1 <= n)%nat.
Proof.
  intros HM Hreq. unfold makeRequest, loop_fuel.
  destruct (attempt_body c w method (apiURL c +:+ endpoint) body 0 0)
    as [f n'] eqn:Ht.
  pose proof Ht as Hinv.
  apply turn_inversion in Hinv
    as [(e & Hlt & _) | [(e & He & _) | (req' & _ & -> & _)]];
    [lia | cbn [reader_at] in He; congruence |].
  destruct f as [resp err|l|l].
  - rewrite (loop_return _ _ _ _ _ _ _ _ _ _ _ _ HM Ht). intros [= <- <-]. lia.
  - rewrite (loop_continue _ _ _ _ _ _ _ _ _ _ _ HM Ht).
    intros Hloop%loop_calls_mono. lia.
  - rewrite (loop_break _ _ _ _ _ _ _ _ _ _ _ HM Ht). intros [= <- <-]. lia.
Qed.

Lemma turn_retried attempt calls r :
  timer_fires w attempt calls ->
  answer_at c w method (apiURL c +:+ endpoint) body calls = Some r ->
  retried r ->
  attempt_body c w method (apiURL c +:+ endpoint) body attempt calls
  = (Continue (Some (attempt_error r)), S calls).
Proof.
  intros Hw (req & Hreq & <-)%answer_at_inv Hr.
  rewrite (turn_started _ _ _ _ _ _ _ req) by done.
  destruct (Do w calls req) as [err|resp]; [done|]. cbn zeta.
  destruct Hr as [H2 H4].
  destruct (status_tests (http.StatusCode resp)) as [T2 T4].
  destruct (_ && _) eqn:E2 in |- *; [by apply T2 in E2|].
  destruct (_ && _) eqn:E4 in |- *; [by apply T4 in E4|]. done.
Qed.

Lemma loop_all_retried k fuel :
  Z.of_nat k <= MaxRetries (config c) + 1 -> Z.of_nat k <= int_max ->
  (forall i, (1 <= i < k)%nat -> wait w i = TimerFired) ->
  (forall i, (i < k)%nat ->
     exists r, answer_at c w method (apiURL c +:+ endpoint) body i = Some r
               /\ retried r) ->
  retry_loop c w method (apiURL c +:+ endpoint) body (k + fuel) 0 0 None
  = retry_loop c w method (apiURL c +:+ endpoint) body fuel (Z.of_nat k) k
      (match k with
       | O => None
       | S k' => attempt_error
                   <$> answer_at c w method (apiURL c +:+ endpoint) body k'
       end).
Proof.
  revert fuel.
  induction k as [|k IH]; intros fuel HkM Hk Hwait Hdo; [done|].
  replace (S k + fuel)%nat with (k + S fuel)%nat by lia.
  rewrite IH by (try lia; intros; (apply Hwait || apply Hdo); lia).
  assert (Z.of_nat k <= MaxRetries (config c)) as HkM' by lia.
  assert (timer_fires w (Z.of_nat k) k) as Htimer.
  { destruct k as [|k']; [by left|]. right. apply Hwait. lia. }
  destruct (Hdo k ltac:(lia)) as (r & Hans & Hr).
  rewrite (loop_continue _ _ _ _ _ _ _ _ _ _ _ HkM'
             (turn_retried (Z.of_nat k) k r Htimer Hans Hr)).
  rewrite wrap_int_small by (unfold int_min, int_max in *; lia).
  rewrite Hans. by replace (Z.of_nat k + 1) with (Z.of_nat (S k)) by lia.
Qed.

End Engine.

(** X1. With [MaxRetries] below the largest [int], [makeRequest] calls
    the transport at most [MaxRetries + 1] times (never, when [MaxRetries]
    is negative); and when [MaxRetries >= 0] and the request can be built
    it calls it at least once, whatever the state of the context. *)
Theorem makeRequest_call_count
        (c : client) (w : World) (method endpoint : string)
        (body : option string)
        (out : outcome (option http.Response * option error)) (n : nat) :
  MaxRetries (config c) < int_max ->
  makeRequest c w method endpoint body = (out, n) ->
  Z.of_nat n <= Z.max 0 (MaxRetries (config c) + 1)
  /\ (0 <= MaxRetries (config c) ->
      forall req,
        build_request c method (apiURL c +:+ endpoint) body = inl req ->
        (1 <= n)%nat).
Proof.
  intros HM Hrun. split.
  - destruct (Z.ltb_spec (MaxRetries (config c)) 0) as [Hneg|Hpos].
    + unfold makeRequest, loop_fuel in Hrun.
      rewrite loop_exit in Hrun by lia. simplify_eq. lia.
    + pose proof (loop_calls_bound c w method endpoint body (loop_fuel c)
                    (conj Hpos HM)) as Hbound.
      unfold makeRequest in Hrun. rewrite Hrun in Hbound. cbn [snd] in Hbound. lia.
  - intros Hpos req Hreq. by eapply first_turn_calls.
Qed.

Lemma makeRequest_call_count_witness :
  exists out n,
    makeRequest (test_client 3) (mkWorld (scripted [] refused) background)
                http.MethodGet "/info" None = (out, n)
    /\ Z.of_nat n <= 4 /\ (1 <= n)%nat.
Proof.
  eexists _, _. split; [reflexivity|].
  destruct (makeRequest_call_count (test_client 3)
              (mkWorld (scripted [] refused) background)
              http.MethodGet "/info" None _ _ ltac:(by vm_compute) eq_refl)
    as [Hle Hge].
  split; [exact Hle|]. by eapply Hge.
Defined.

(** X2. When every attempt fails in a way that is retried (the transport
    returns an error, or a status that is neither 2xx nor a 4xx other than
    429: a 1xx, 3xx, 429 or 5xx; each call on the request the code builds
    for it, the caller's reader holding what the earlier calls left) and
    the context is never done during a wait, [makeRequest] returns, after
    exactly [MaxRetries + 1] calls, a nil response and the error of the
    last attempt. *)
Theorem makeRequest_retries_exhausted
        (c : client) (w : World) (method endpoint : string)
        (body : option string) :
  0 <= MaxRetries (config c) < int_max ->
  (forall i, 1 <= Z.of_nat i <= MaxRetries (config c) -> wait w i = TimerFired) ->
  (forall i, Z.of_nat i <= MaxRetries (config c) ->
     exists r, answer_at c w method (apiURL c +:+ endpoint) body i = Some r
               /\ retried r) ->
  exists last,
    answer_at c w method (apiURL c +:+ endpoint) body
      (Z.to_nat (MaxRetries (config c))) = Some last
    /\ makeRequest c w method endpoint body
       = (Returns (None, Some (attempt_error last)),
          S (Z.to_nat (MaxRetries (config c)))).
Proof.
  intros HM Hwait Hdo.
  destruct (Hdo (Z.to_nat (MaxRetries (config c))) ltac:(lia)) as (last & Hlast & _).
  exists last. split; [done|]. unfold makeRequest, loop_fuel.
  replace (S (Z.to_nat (MaxRetries (config c) + 1)))
    with (S (Z.to_nat (MaxRetries (config c))) + 1)%nat by lia.
  rewrite (loop_all_retried c w method endpoint body) by
    (try done; try lia; intros; (apply Hwait || apply Hdo); lia).
  rewrite loop_exit by lia. by rewrite Hlast.
Qed.

Lemma makeRequest_retries_exhausted_witness :
  makeRequest (test_client 3)
    (mkWorld (scripted [refused; respond 503 "busy"; respond 301 "moved"]
                       (respond 429 "slow down"))
             background)
    http.MethodPost "/send" (Some "{}")
  = (Returns (None, Some (api_error (http.mkResponse 429 (http.mkBody "slow down" None)))),
     4%nat).
Proof.
  destruct (makeRequest_retries_exhausted (test_client 3)
              (mkWorld (scripted [refused; respond 503 "busy"; respond 301 "moved"]
                                 (respond 429 "slow down"))
                       background)
              http.MethodPost "/send" (Some "{}")) as (last & Hlast & Hrun).
  - by vm_compute.
  - done.
  - intros [|[|[|[|i]]]] Hi;
      [eexists; split; [reflexivity | cbn; first [done | lia]] ..
      | change (MaxRetries _) with 3 in Hi; lia].
  - injection Hlast as <-. exact Hrun.
Defined.

(** X3. A response [makeRequest] returns comes with a nil error, has a
    status in [200, 300), and is what the transport answered to the last
    call made, on the request built from what the earlier calls left in
    the caller's reader. *)
Theorem makeRequest_response_is_2xx
        (c : client) (w : World) (method endpoint : string)
        (body : option string) (resp : http.Response) (err : option error)
        (n : nat) :
  makeRequest c w method endpoint body = (Returns (Some resp, err), n) ->
  err = None
  /\ 200 <= http.StatusCode resp < 300
  /\ exists k,
       n = S k
       /\ answer_at c w method (apiURL c +:+ endpoint) body k
          = Some (http.DoResponse resp).
Proof.
  intros Hrun.
  pose (Q := fun r : outcome (option http.Response * option error) * nat =>
               match r with
               | (Returns (Some resp, err), n) =>
                   err = None
                   /\ 200 <= http.StatusCode resp < 300
                   /\ exists k,
                       n = S k
                       /\ answer_at c w method (apiURL c +:+ endpoint) body k
                          = Some (http.DoResponse resp)
               | _ => True
               end).
  enough (Q (makeRequest c w method endpoint body)) as HQ by (by rewrite Hrun in HQ).
  unfold makeRequest.
  apply (loop_rule c w method (apiURL c +:+ endpoint) body (fun _ _ _ => True) Q);
    try done.
  intros a k l _ _.
  destruct (attempt_body _ _ _ _ _ _ _) as [f n'] eqn:Ht.
  apply turn_inversion in Ht
    as [(e & _ & _ & -> & ->) | [(e & _ & -> & ->) | (req & Hreq & -> & Hcall)]];
    [done | done |].
  destruct Hcall as [(e & _ & ->) | (r & Hdo & [(Hs & ->) | [(_ & _ & ->) | (_ & _ & ->)]])];
    try done.
  cbn. split; [done|]. split; [done|]. exists k. split; [done|].
  unfold answer_at. by rewrite Hreq, Hdo.
Qed.

Lemma makeRequest_response_is_2xx_witness :
  exists resp,
    makeRequest (test_client 3)
      (mkWorld (scripted [refused] (respond 204 EmptyString)) background)
      http.MethodGet "/info" None = (Returns (Some resp, None), 2%nat)
    /\ 200 <= http.StatusCode resp < 300.
Proof.
  eexists. split; [reflexivity|].
  by destruct (makeRequest_response_is_2xx (test_client 3)
                 (mkWorld (scripted [refused] (respond 204 EmptyString)) background)
                 http.MethodGet "/info" None _ _ _ eq_refl) as (_ & H & _).
Defined.

(** X4. An error [makeRequest] returns comes with a nil response and is
    one of four: the error of the context, done during a wait; a
    request-class error around the error of [http.NewRequestWithContext];
    a network-class error around an error the transport returned to one
    of the calls; or an API-class error built from a response to one of
    the calls whose status is not 2xx (each call on the request built
    from what the earlier calls left in the caller's reader). *)
Theorem makeRequest_error_origin
        (c : client) (w : World) (method endpoint : string)
        (body : option string) (resp : option http.Response) (e : error)
        (n : nat) :
  makeRequest c w method endpoint body = (Returns (resp, Some e), n) ->
  resp = None /\ error_origin c w method (apiURL c +:+ endpoint) body e.
Proof.
  intros Hrun.
  pose (Q := fun r : outcome (option http.Response * option error) * nat =>
               match r with
               | (Returns (resp, Some e), n) =>
                   resp = None
                   /\ error_origin c w method (apiURL c +:+ endpoint) body e
               | _ => True
               end).
  enough (Q (makeRequest c w method endpoint body)) as HQ by (by rewrite Hrun in HQ).
  unfold makeRequest.
  apply (loop_rule c w method (apiURL c +:+ endpoint) body
           (fun _ _ l => forall e, l = Some e ->
                         error_origin c w method (apiURL c +:+ endpoint) body e) Q);
    try done.
  - intros a k [e'|] HI _; cbn; [|done]. split; [done|]. by apply HI.
  - intros a k l HI _.
    destruct (attempt_body _ _ _ _ _ _ _) as [f n'] eqn:Ht.
    apply turn_inversion in Ht
      as [(e' & _ & Hw & -> & ->) | [(e' & Hreq & -> & ->) | (req & Hreq & -> & Hcall)]].
    + cbn. split; [done|]. left. by exists e', k.
    + cbn. split; [done|]. right; left. by exists k, e'.
    + assert (answer_at c w method (apiURL c +:+ endpoint) body k
              = Some (Do w k req)) as Hans
        by (unfold answer_at; by rewrite Hreq).
      destruct Hcall
        as [(e' & Hdo & ->) | (r & Hdo & [(Hs & ->) | [(Hs & Hne & ->) | (Hs & _ & ->)]])];
        rewrite Hdo in Hans.
      * intros e'' [= <-]. right; right; left. by exists k, e'.
      * done.
      * cbn. split; [done|]. right; right; right. exists k, r.
        repeat split; try done. lia.
      * intros e'' [= <-]. right; right; right. by exists k, r.
Qed.

Lemma makeRequest_error_origin_witness :
  exists e,
    makeRequest (test_client 3)
      (mkWorld (scripted [] refused) (cancelled_at 2)) http.MethodGet "/info" None
    = (Returns (None, Some e), 2%nat)
    /\ error_origin (test_client 3)
         (mkWorld (scripted [] refused) (cancelled_at 2)) http.MethodGet
         (apiURL (test_client 3) +:+ "/info") None e.
Proof.
  eexists. split; [reflexivity|].
  by destruct (makeRequest_error_origin (test_client 3)
                 (mkWorld (scripted [] refused) (cancelled_at 2))
                 http.MethodGet "/info" None _ _ _ eq_refl) as [_ H].
Defined.

Lemma Cut_none (s : string) (sep : ascii) :
  strings.ContainsByte s sep = false ->
  strings.Cut s sep = (s, EmptyString, false).
Proof.
  induction s as [|c s IH]; [done|]. cbn [strings.Cut strings.ContainsByte].
  intros [Hc Hs]%orb_false_elim. by rewrite Hc, (IH Hs).
Qed.

Lemma stringContainsCTLByte_app (a b : string) :
  url.stringContainsCTLByte (a +:+ b)
  = url.stringContainsCTLByte a || url.stringContainsCTLByte b.
Proof.
  induction a as [|c a IH]; [done|].
  rewrite app_String. cbn [url.stringContainsCTLByte]. by rewrite IH, orb_assoc.
Qed.

Lemma Parse_control_character (u : string) :
  strings.ContainsByte u "#" = false ->
  url.stringContainsCTLByte u = true ->
  url.Parse u = inr (control_character_error u).
Proof.
  intros Hfrag Hctl. unfold url.Parse, url.parse.
  by rewrite (Cut_none _ _ Hfrag), Hctl.
Qed.

Lemma request_error_returned (c : client) (w : World) (method endpoint : string)
      (body : option string) (err : LibError) :
  0 <= MaxRetries (config c) ->
  build_request c method (apiURL c +:+ endpoint) body = inr err ->
  makeRequest c w method endpoint body
  = (Returns (None, Some (request_error err)), 0%nat).
Proof.
  intros HM Hreq. unfold makeRequest, loop_fuel.
  apply loop_return; [done|]. unfold attempt_body. cbn. by rewrite Hreq.
Qed.

Lemma is_empty_false (s : string) : s <> EmptyString -> is_empty s = false.
Proof. intros Hs. by apply String.eqb_neq. Qed.

(** X5. The endpoint is put in the URL as it stands: when it holds a
    control character (and the URL has no [#] before it), [url.Parse]
    rejects the URL and [makeRequest] returns a request-class error around
    that error without calling the transport; so [GetMessage] does on an
    ID that holds a control character. *)
Theorem control_character_in_url
        (c : client) (w : World) (method endpoint : string)
        (body : option string) :
  0 <= MaxRetries (config c) ->
  http.validMethod method = true ->
  strings.ContainsByte (apiURL c +:+ endpoint) "#" = false ->
  url.stringContainsCTLByte endpoint = true ->
  makeRequest c w method endpoint body
  = (Returns (None, Some (request_error
                            (control_character_error (apiURL c +:+ endpoint)))),
     0%nat)
  /\ forall (Message : Type) (T : json.Target Message) (id : string),
       endpoint = "/message/" +:+ id -> method = http.MethodGet ->
       GetMessage c w (Message := Message) id
       = (Returns (None, Some (request_error
                                 (control_character_error (apiURL c +:+ endpoint)))),
          0%nat).
Proof.
  intros HM Hmethod Hfrag Hctl.
  assert (makeRequest c w method endpoint body
          = (Returns (None, Some (request_error
                                    (control_character_error (apiURL c +:+ endpoint)))),
             0%nat)) as Hrun.
  { apply request_error_returned; [done|].
    unfold build_request, http.NewRequestWithContext.
    assert (url.nonempty method = true) as ->.
    { unfold http.validMethod in Hmethod. by apply andb_prop in Hmethod as [-> _]. }
    rewrite Hmethod. cbn [negb].
    rewrite Parse_control_character; [done | done |].
    by rewrite stringContainsCTLByte_app, Hctl, orb_true_r. }
  split; [done|].
  intros Message T id -> ->. unfold GetMessage.
  rewrite is_empty_false.
  - unfold decode_ptr, after_request.
    enough (makeRequest c w http.MethodGet ("/message/" +:+ id) None
            = (Returns (None, Some (request_error
                 (control_character_error (apiURL c +:+ ("/message/" +:+ id))))),
               0%nat)) as -> by done.
    apply request_error_returned; [done|].
    unfold build_request, http.NewRequestWithContext. cbn [negb].
    change (url.nonempty http.MethodGet) with true.
    change (http.validMethod http.MethodGet) with true. cbn [negb].
    rewrite Parse_control_character; [done | done |].
    by rewrite stringContainsCTLByte_app, Hctl, orb_true_r.
  - intros ->. by vm_compute in Hctl.
Qed.

Lemma control_character_in_url_witness :
  makeRequest (test_client 3) (mkWorld (scripted [] refused) background)
    http.MethodGet ("/message/" +:+ newline) None
  = (Returns (None, Some (request_error
       (control_character_error ("http://localhost:8025/api/v1/message/" +:+ newline)))),
     0%nat).
Proof.
  apply (control_character_in_url (test_client 3)
           (mkWorld (scripted [] refused) background) http.MethodGet
           ("/message/" +:+ newline) None); by vm_compute.
Defined.

(** X6. Every request [makeRequest] builds carries [User-Agent] (the
    client's), [Content-Type] and [Accept] ([application/json]) and no
    other header but [Authorization], which is [Bearer] and the API key
    when a key is configured, else [Basic] and the encoded credentials
    when both the user name and the password are, and else is absent. *)
Theorem request_headers
        (c : client) (method u : string) (body : option string)
        (req : http.Request) :
  build_request c method u body = inl req ->
  http.ReqHeader req !! "User-Agent" = Some [userAgent c]
  /\ http.ReqHeader req !! "Content-Type" = Some ["application/json"]
  /\ http.ReqHeader req !! "Accept" = Some ["application/json"]
  /\ http.ReqHeader req !! "Authorization" = authorization (config c)
  /\ (forall k, k <> "User-Agent" -> k <> "Content-Type" -> k <> "Accept" ->
                k <> "Authorization" -> http.ReqHeader req !! k = None)
  /\ http.ReqBody req = body.
Proof.
  unfold build_request, http.NewRequestWithContext.
  destruct (negb _); [done|].
  destruct (url.Parse u) as [parsed|err]; [|done].
  intros [= <-]. unfold set_headers, authorization.
  change (http.CanonicalMIMEHeaderKey "User-Agent") with "User-Agent"%string.
  destruct (url.nonempty (APIKey (config c))).
  2: destruct (url.nonempty (Username (config c)) && url.nonempty (Password (config c))).
  all: unfold http.SetBasicAuth, http.SetHeader, http.Header_Set;
    cbn [http.ReqHeader http.ReqBody http.Method http.URL http.Host];
    change (http.CanonicalMIMEHeaderKey "User-Agent") with "User-Agent"%string;
    change (http.CanonicalMIMEHeaderKey "Content-Type") with "Content-Type"%string;
    change (http.CanonicalMIMEHeaderKey "Accept") with "Accept"%string;
    change (http.CanonicalMIMEHeaderKey "Authorization") with "Authorization"%string;
    repeat (split; [by simplify_map_eq|]);
    (split; [|done]); intros k H1 H2 H3 H4; by simplify_map_eq.
Qed.

Lemma request_headers_witness :
  exists req,
    build_request (test_client 3) http.MethodGet "http://localhost:8025/api/v1/info" None
    = inl req
    /\ http.ReqHeader req !! "User-Agent" = Some ["mailpit-go-client/1.0.0"]
    /\ http.ReqHeader req !! "Authorization" = None.
Proof.
  eexists. split; [reflexivity|].
  destruct (request_headers (test_client 3) http.MethodGet
              "http://localhost:8025/api/v1/info" None _ eq_refl)
    as (Hagent & _ & _ & Hauth & _).
  split; [exact Hagent | exact Hauth].
Defined.

(** X7. Called directly, [AttachmentList.UnmarshalJSON] never returns an
    error, ignores what the list held, and leaves the empty list on bytes
    that are not valid JSON (the syntax error of C3 is that of
    [json.Unmarshal], which checks the document first). *)
Theorem UnmarshalJSON_never_fails (data : string) (al : AttachmentList) :
  (AttachmentList_UnmarshalJSON data al).2 = None
  /\ AttachmentList_UnmarshalJSON data al = AttachmentList_UnmarshalJSON data None
  /\ (json.Valid data = false ->
      AttachmentList_UnmarshalJSON data al = (Some [], None)).
Proof.
  unfold AttachmentList_UnmarshalJSON, Unmarshal_Attachments, json.Unmarshal_with,
    json.Valid.
  destruct (json.checkValid data) as [e|].
  - by destruct (Unmarshal_int data) as [num [e'|]].
  - destruct (json.decode_slice _ _ _ _ _) as [atts [e|]]; [|done].
    by destruct (Unmarshal_int data) as [num [e'|]].
Qed.

(** X8. For every [ListOptions] and [SearchOptions], nil or not and
    whatever fields are set, parsing the encoded query string gives back
    exactly the values [ToURLValues] produced, without error. *)
Theorem options_query_round_trip
        (opts : option ListOptions) (sopts : option SearchOptions) :
  url.ParseQuery (url.Values_Encode (ListOptions_ToURLValues opts))
  = (ListOptions_ToURLValues opts, None)
  /\ url.ParseQuery (url.Values_Encode (SearchOptions_ToURLValues sopts))
     = (SearchOptions_ToURLValues sopts, None).
Proof.
  split; apply ParseQuery_Encode.
  - apply ListOptions_values_nonempty.
  - apply SearchOptions_values_nonempty.
Qed.




(** X10. The parameters of [SearchMessages]: the query comes first,
    escaped; each option that is set follows as key, [=] and the value as
    it stands, not escaped, in the order the map is ranged over. *)
Theorem search_params_unescaped (query : string) (o : SearchOptions) :
  search_params query None = ["query=" +:+ url.QueryEscape query]
  /\ exists rest,
       search_params query (Some o) = ("query=" +:+ url.QueryEscape query) :: rest
       /\ rest ≡ₚ option_params o.
Proof.
  split; [done|]. unfold search_params. eexists. split; [reflexivity|].
  rewrite (Permutation_flat_map _ (SearchOptions_pairs o)).
  unfold option_params.
  by destruct (url.nonempty (SSort o)), (url.nonempty (STag o)), (0 <? SLimit o),
    (0 <? SStart o).
Qed.

(** X11. The query string [DeleteSearchResults] and, on nil options,
    [SearchMessages] send parses back to the one pair of [query] and the
    caller's query, whatever bytes it holds. *)
Theorem search_query_round_trip
        (c : client) (w : World) (MessagesResponse : Type)
        (T : json.Target MessagesResponse) (query : string) :
  url.ParseQuery ("query=" +:+ url.QueryEscape query)
  = ({[ "query" := [query] ]}, None)
  /\ (query <> EmptyString ->
      DeleteSearchResults c w query
      = discard (makeRequest c w http.MethodDelete
                   ("/search?" +:+ "query=" +:+ url.QueryEscape query) None)
      /\ SearchMessages c w (MessagesResponse := MessagesResponse) query None
         = decode_ptr (makeRequest c w http.MethodGet
                         ("/search?" +:+ "query=" +:+ url.QueryEscape query) None)).
Proof.
  split.
  - pose proof (ParseQuery_segments [("query"%string, query)]) as Hparse.
    cbn [map strings.Join fold_left] in Hparse. unfold segment in Hparse.
    cbn [fst snd] in Hparse.
    change (url.QueryEscape "query") with "query"%string in Hparse.
    change ("query=" +:+ url.QueryEscape query)
      with ("query" +:+ "=" +:+ url.QueryEscape query).
    rewrite Hparse. unfold add_value. cbn [fst snd].
    by rewrite lookup_empty.
  - intros Hq. unfold DeleteSearchResults, SearchMessages, is_empty.
    by rewrite (proj2 (String.eqb_neq _ _) Hq).
Qed.

Lemma search_query_round_trip_witness :
  url.ParseQuery ("query=" +:+ url.QueryEscape "a&b = 100%")
  = ({[ "query" := ["a&b = 100%"%string] ]}, None).
Proof.
  apply (search_query_round_trip (test_client 3)
           (mkWorld (scripted [] refused) background)
           (option (list string)) strings_Target "a&b = 100%").
Defined.

Lemma first_call_2xx (c : client) (w : World) (method endpoint : string)
      (body : option string) (resp : http.Response) :
  0 <= MaxRetries (config c) ->
  answers c w method endpoint body resp ->
  200 <= http.StatusCode resp < 300 ->
  makeRequest c w method endpoint body = (Returns (Some resp, None), 1%nat).
Proof.
  intros HM (req & Hreq & Hdo) Hs. unfold makeRequest, loop_fuel.
  apply loop_return; [done|].
  by apply (turn_success c w method _ body 0 0%nat req resp); [left| | |].
Qed.

Lemma first_call_4xx (c : client) (w : World) (method endpoint : string)
      (body : option string) (resp : http.Response) :
  0 <= MaxRetries (config c) ->
  answers c w method endpoint body resp ->
  400 <= http.StatusCode resp < 500 -> http.StatusCode resp <> 429 ->
  makeRequest c w method endpoint body
  = (Returns (None, Some (api_error resp)), 1%nat).
Proof.
  intros HM (req & Hreq & Hdo) Hs Hne. unfold makeRequest, loop_fuel.
  apply loop_break; [done|].
  by apply (turn_client_error c w method _ body 0 0%nat req resp); [left| | | |].
Qed.

(** X12. When the first answer is a 2xx response with an empty body,
    the decoding operations return no error and the zero value:
    [GetMessage] a pointer to a zero [Message], [GetTags] and [SetTags] a
    nil slice. *)
Theorem empty_body_decodes_to_zero
        (c : client) (w : World) (Message : Type) (T : json.Target Message)
        (resp : http.Response) :
  0 <= MaxRetries (config c) ->
  200 <= http.StatusCode resp < 300 ->
  http.content (http.RespBody resp) = EmptyString ->
  http.readErr (http.RespBody resp) = None ->
  (forall id,
      id <> EmptyString ->
      answers c w http.MethodGet ("/message/" +:+ id) None resp ->
      GetMessage c w (Message := Message) id
      = (Returns (Some json.zero, None), 1%nat))
  /\ (answers c w http.MethodGet "/tags" None resp ->
      GetTags c w = (Returns (None, None), 1%nat))
  /\ (forall tags body,
        json.Encode json.encode_strings tags = inl body ->
        answers c w http.MethodPut "/tags" (Some body) resp ->
        SetTags c w tags = (Returns (None, None), 1%nat)).
Proof.
  intros HM Hs Hbody Hread.
  split; [|split].
  - intros id Hid Hrun%first_call_2xx; [|done..].
    unfold GetMessage. rewrite (is_empty_false id Hid).
    unfold decode_ptr, after_request, parseResponse. by rewrite Hrun, Hread, Hbody.
  - intros Hrun%first_call_2xx; [|done..].
    unfold GetTags, decode_value, after_request, parseResponse.
    by rewrite Hrun, Hread, Hbody.
  - intros tags body Henc Hrun%first_call_2xx; [|done..].
    unfold SetTags. rewrite Henc.
    unfold decode_value, after_request, parseResponse.
    by rewrite Hrun, Hread, Hbody.
Qed.

Lemma empty_body_decodes_to_zero_witness :
  GetTags (test_client 3)
    (mkWorld (scripted [] (respond 200 EmptyString)) background)
  = (Returns (None, None), 1%nat).
Proof.
  apply (empty_body_decodes_to_zero (test_client 3)
           (mkWorld (scripted [] (respond 200 EmptyString)) background)
           (option (list string)) strings_Target
           (http.mkResponse 200 (http.mkBody EmptyString None)));
    [by vm_compute | by vm_compute | done | done |].
  eexists. split; reflexivity.
Defined.

(** X13. When the first answer is a 2xx response, [GetMessageHTML],
    [GetMessageSource] and [GetMessageAttachment] return its body as read,
    after one call; when reading the body fails they return the zero value
    and a response-class error around the error of the read. *)
Theorem body_returned_as_read
        (c : client) (w : World) (resp : http.Response) :
  0 <= MaxRetries (config c) ->
  200 <= http.StatusCode resp < 300 ->
  (forall id,
      id <> EmptyString ->
      answers c w http.MethodGet ("/view/" +:+ id +:+ ".html") None resp ->
      GetMessageHTML c w id
      = match http.readErr (http.RespBody resp) with
        | None => (Returns (http.content (http.RespBody resp), None), 1%nat)
        | Some err =>
            (Returns (EmptyString, Some (cannot_read "HTML content" err)), 1%nat)
        end)
  /\ (forall id,
        id <> EmptyString ->
        answers c w http.MethodGet ("/messages/" +:+ id +:+ "/source") None resp ->
        GetMessageSource c w id
        = match http.readErr (http.RespBody resp) with
          | None => (Returns (http.content (http.RespBody resp), None), 1%nat)
          | Some err =>
              (Returns (EmptyString, Some (cannot_read "message source" err)), 1%nat)
          end)
  /\ (forall messageID attachmentID,
        messageID <> EmptyString -> attachmentID <> EmptyString ->
        answers c w http.MethodGet
          ("/messages/" +:+ messageID +:+ "/part/" +:+ attachmentID) None resp ->
        GetMessageAttachment c w messageID attachmentID
        = match http.readErr (http.RespBody resp) with
          | None => (Returns (Some (http.content (http.RespBody resp)), None), 1%nat)
          | Some err =>
              (Returns (None, Some (cannot_read "attachment data" err)), 1%nat)
          end).
Proof.
  intros HM Hs. split; [|split].
  - intros id Hid Hrun%first_call_2xx; [|done..].
    unfold GetMessageHTML. rewrite (is_empty_false id Hid).
    unfold read_body, after_request. rewrite Hrun.
    by destruct (http.readErr (http.RespBody resp)).
  - intros id Hid Hrun%first_call_2xx; [|done..].
    unfold GetMessageSource. rewrite (is_empty_false id Hid).
    unfold read_body, after_request. rewrite Hrun.
    by destruct (http.readErr (http.RespBody resp)).
  - intros messageID attachmentID Hm Ha Hrun%first_call_2xx; [|done..].
    unfold GetMessageAttachment.
    rewrite (is_empty_false _ Hm), (is_empty_false _ Ha).
    unfold read_body, after_request. rewrite Hrun.
    by destruct (http.readErr (http.RespBody resp)).
Qed.

Lemma body_returned_as_read_witness :
  GetMessageHTML (test_client 3)
    (mkWorld (scripted [] (respond 200 "<p>hello</p>")) background) "abc"
  = (Returns ("<p>hello</p>"%string, None), 1%nat).
Proof.
  apply (body_returned_as_read (test_client 3)
           (mkWorld (scripted [] (respond 200 "<p>hello</p>")) background)
           (http.mkResponse 200 (http.mkBody "<p>hello</p>" None)));
    [by vm_compute | by vm_compute | done |].
  eexists. split; reflexivity.
Defined.

(** X14. When the first answer to [GetMessage] is a 4xx status other
    than 429, the error returned after that one call answers
    [IsAPIError(code)] exactly for the status received, is of the API
    class, wraps no error, holds the raw body, and prints the status. *)
Theorem client_error_is_inspectable
        (c : client) (w : World) (Msg : Type) (T : json.Target Msg)
        (resp : http.Response) (id : string) :
  0 <= MaxRetries (config c) ->
  400 <= http.StatusCode resp < 500 -> http.StatusCode resp <> 429 ->
  id <> EmptyString ->
  answers c w http.MethodGet ("/message/" +:+ id) None resp ->
  exists e,
    GetMessage c w (Message := Msg) id
    = (Returns (None, Some (MailpitError e)), 1%nat)
    /\ (forall code, IsAPIError e code = true <-> code = http.StatusCode resp)
    /\ IsType e ErrorTypeAPI = true
    /\ Unwrap e = None
    /\ Response e = http.content (http.RespBody resp)
    /\ Error_Error e
       = "mailpit api error (status " +:+ strconv.Itoa (http.StatusCode resp)
         +:+ "): API request failed with status "
         +:+ strconv.Itoa (http.StatusCode resp).
Proof.
  intros HM Hs Hne Hid Hrun%first_call_4xx; [|done..].
  eexists. split; [|split; [|split; [|split; [|split]]]].
  - unfold GetMessage. rewrite (is_empty_false id Hid).
    unfold decode_ptr, after_request. rewrite Hrun. reflexivity.
  - intros code. unfold IsAPIError. cbn. split; [intros H%Z.eqb_eq|intros ->]; [done|].
    apply Z.eqb_refl.
  - done.
  - done.
  - done.
  - unfold Error_Error. cbn [StatusCode Type_ Message].
    by replace (0 <? http.StatusCode resp) with true by (symmetry; apply Z.ltb_lt; lia).
Qed.

Lemma client_error_is_inspectable_witness :
  exists e,
    GetMessage (test_client 3) (Message := option (list string))
      (mkWorld (scripted [] (respond 404 "not found")) background) "abc"
    = (Returns (None, Some (MailpitError e)), 1%nat)
    /\ IsAPIError e 404 = true.
Proof.
  destruct (client_error_is_inspectable (test_client 3)
              (mkWorld (scripted [] (respond 404 "not found")) background)
              (option (list string)) strings_Target
              (http.mkResponse 404 (http.mkBody "not found" None)) "abc")
    as (e & Hrun & Hcode & _);
    [by vm_compute | by vm_compute | done | done | |].
  - eexists. split; reflexivity.
  - exists e. split; [exact Hrun|]. by apply Hcode.
Defined.


(** X15. Validation of the arguments that are no identifiers:
    [ReleaseMessage] rejects nil release data, [SetMessageTags] a nil or
    empty list of message IDs, each with its own message and without a
    call; the identifier is checked first, and for the operations with two
    identifiers the message ID before the other. *)
Theorem validation_of_the_other_arguments (c : client) (w : World) :
  (forall id,
      id <> EmptyString ->
      rejected_ "release data cannot be nil" (ReleaseMessage c w id None))
  /\ (forall tag,
        tag <> EmptyString ->
        rejected_ "message IDs cannot be empty" (SetMessageTags c w tag None)
        /\ rejected_ "message IDs cannot be empty" (SetMessageTags c w tag (Some [])))
  /\ rejected_ "message ID cannot be empty" (ReleaseMessage c w EmptyString None)
  /\ rejected_ "tag cannot be empty" (SetMessageTags c w EmptyString None)
  /\ GetMessagePart c w EmptyString EmptyString
     = invalid None "message ID cannot be empty"
  /\ GetMessageAttachment c w EmptyString EmptyString
     = invalid None "message ID cannot be empty".
Proof.
  split; [|split; [|done]].
  - intros id Hid. unfold rejected_, ReleaseMessage.
    by rewrite (is_empty_false id Hid).
  - intros tag Htag. unfold rejected_, SetMessageTags.
    by rewrite (is_empty_false tag Htag).
Qed.

Lemma validation_of_the_other_arguments_witness :
  rejected_ "release data cannot be nil"
    (ReleaseMessage (test_client 3) (mkWorld (scripted [] refused) background)
       "abc" None).
Proof.
  by apply (validation_of_the_other_arguments (test_client 3)
              (mkWorld (scripted [] refused) background)).
Defined.

(** X16. The client [NewClient] builds keeps the caller's base URL,
    credentials, timeout, [MaxRetries] and [RetryDelay] as they are (a
    zero [MaxRetries] stays zero), fills the API path, the user agent and
    the HTTP client only when they are empty or nil, so that they never
    are in the client; and building a client again from the
    configuration it keeps gives the same client. *)
Theorem NewClient_keeps_the_settings (given : Config) (c : client) :
  NewClient (Some given) = (Some c, None) ->
  same_settings (config c) given
  /\ APIPath (config c)
     = (if String.eqb (APIPath given) EmptyString then "/api/v1" else APIPath given)
  /\ UserAgent (config c)
     = (if String.eqb (UserAgent given) EmptyString
        then "mailpit-go-client/1.0.0" else UserAgent given)
  /\ HTTPClient_ (config c)
     = Some (default (mkHTTPClient (Timeout given)) (HTTPClient_ given))
  /\ userAgent c = UserAgent (config c)
  /\ userAgent c <> EmptyString /\ APIPath (config c) <> EmptyString
  /\ NewClient (Some (config c)) = (Some c, None).
Proof.
  unfold NewClient.
  destruct (String.eqb (BaseURL given) EmptyString) eqn:Hbase; [done|].
  destruct (url.Parse (BaseURL given)) as [u|err] eqn:Hparse; [|done].
  intros [= <-]. cbn [config userAgent APIPath UserAgent HTTPClient_ BaseURL
                      Username Password APIKey Timeout MaxRetries RetryDelay].
  rewrite Hbase, Hparse.
  assert ((if String.eqb (APIPath given) EmptyString
           then "/api/v1"%string else APIPath given) <> EmptyString) as Hpath.
  { destruct (String.eqb_spec (APIPath given) EmptyString); [done|done]. }
  assert ((if String.eqb (UserAgent given) EmptyString
           then "mailpit-go-client/1.0.0"%string else UserAgent given)
          <> EmptyString) as Hagent.
  { destruct (String.eqb_spec (UserAgent given) EmptyString); [done|done]. }
  repeat (split; [done|]).
  split; [by destruct (HTTPClient_ given)|].
  split; [done|]. split; [done|]. split; [done|].
  apply String.eqb_neq in Hpath, Hagent. rewrite Hpath, Hagent.
  by destruct (HTTPClient_ given).
Qed.

Lemma NewClient_keeps_the_settings_witness :
  exists c,
    NewClient (Some (base_config "http://localhost:8025")) = (Some c, None)
    /\ MaxRetries (config c) = 0
    /\ APIPath (config c) = "/api/v1"%string.
Proof.
  eexists. split; [reflexivity|].
  destruct (NewClient_keeps_the_settings (base_config "http://localhost:8025") _ eq_refl)
    as ((_ & _ & _ & _ & _ & Hretries & _) & Hpath & _).
  split; [exact Hretries | exact Hpath].
Defined.

Lemma makeRequest_delivered (c : client) (w : World) (method endpoint : string)
      (body : option string) :
  0 <= MaxRetries (config c) < int_max ->
  delivered (makeRequest c w method endpoint body).
Proof.
  intros HM. unfold delivered.
  destruct (loop_returns c w method endpoint body (loop_fuel c) 0 0%nat None)
    as ([resp err] & n & Hrun); [lia | lia | unfold loop_fuel; lia |].
  exists resp, err, n. split; [done|].
  pose (Q := fun r : outcome (option http.Response * option error) * nat =>
               match r with
               | (Returns (r, e), _) => exactly_one r e
               | _ => True
               end).
  change (Q (Returns (resp, err), n)). rewrite <- Hrun.
  apply (loop_rule c w method (apiURL c +:+ endpoint) body
           (fun a _ l => a = 0 \/ l <> None) Q);
    unfold Q; simpl; [done | | | by left].
  - intros a n' l [->|Hl] Ha; [lia | by left].
  - intros a n' l _ _.
    destruct (turn_cases c w method (apiURL c +:+ endpoint) body a n')
      as [[e ->]|[[r ->]|[[e ->]|[e ->]]]];
      [by left | by right | by left | by right].
Qed.

Lemma discard_returns (r : outcome (option http.Response * option error) * nat) :
  delivered r -> returns (discard r).
Proof.
  intros (resp & err & n & -> & [[-> Herr] | [Hresp ->]]); unfold returns.
  - destruct err; [by eexists | done].
  - destruct resp; [by eexists | done].
Qed.

Lemma read_body_returns {A : Type} (nothing : A) (wrap : string -> A)
      (what : string) (r : outcome (option http.Response * option error) * nat) :
  delivered r -> returns (read_body nothing wrap what r).
Proof.
  intros (resp & err & n & -> & [[-> Herr] | [Hresp ->]]); unfold returns.
  - destruct err; [by eexists | done].
  - destruct resp as [resp|]; [|done]. cbn.
    destruct (http.readErr (http.RespBody resp)); by eexists.
Qed.

Lemma parseResponse_returns {T : Type} `{json.Target T} (resp : http.Response)
      (target : option T) :
  exists t err, parseResponse (Some resp) target = Returns (t, err).
Proof.
  unfold parseResponse. destruct target as [t|]; [|by eexists _, _].
  destruct (http.readErr (http.RespBody resp)); [by eexists _, _|].
  destruct (_ =? _)%nat; [by eexists _, _|].
  destruct (json.Unmarshal _ t) as [t' [e|]]; by eexists _, _.
Qed.

Lemma decode_ptr_returns {T : Type} `{json.Target T}
      (r : outcome (option http.Response * option error) * nat) :
  delivered r -> returns (decode_ptr r).
Proof.
  intros (resp & err & n & -> & [[-> Herr] | [Hresp ->]]);
    unfold returns, decode_ptr, after_request.
  - destruct err; [by eexists | done].
  - destruct resp as [resp|]; [|done].
    destruct (parseResponse_returns resp (Some json.zero)) as (t & [e|] & ->);
      by eexists.
Qed.

Lemma decode_value_returns {T : Type} `{json.Target T}
      (r : outcome (option http.Response * option error) * nat) :
  delivered r -> returns (decode_value r).
Proof.
  intros (resp & err & n & -> & [[-> Herr] | [Hresp ->]]);
    unfold returns, decode_value, after_request.
  - destruct err; [by eexists | done].
  - destruct resp as [resp|]; [|done].
    destruct (parseResponse_returns resp (Some json.zero)) as (t & [e|] & ->);
      by eexists.
Qed.

Lemma invalid_returns {A : Type} (nothing : A) (message : string) :
  returns (invalid nothing message).
Proof. by eexists. Qed.

Lemma invalid__returns (message : string) : returns (invalid_ message).
Proof. by eexists. Qed.

Section OperationsReturn.

Variable c : client.
Variable w : World.

Context {MessagesResponse Message Headers HTMLCheckResponse LinkCheckResponse
         SpamAssassinCheckResponse EventsResponse ServerInfo Stats
         WebUIConfig ChaosResponse SendMessageRequest SendMessageResponse
         ChaosTriggers : Type}.
Context `{!json.Target MessagesResponse} `{!json.Target Message}
        `{!json.Target Headers} `{!json.Target HTMLCheckResponse}
        `{!json.Target LinkCheckResponse}
        `{!json.Target SpamAssassinCheckResponse}
        `{!json.Target EventsResponse} `{!json.Target ServerInfo}
        `{!json.Target Stats} `{!json.Target WebUIConfig}
        `{!json.Target ChaosResponse} `{!json.Target SendMessageResponse}
        `{!json.Source SendMessageRequest} `{!json.Source ChaosTriggers}.

Hypothesis retries_in_range : 0 <= MaxRetries (config c) < int_max.
Hypothesis http_client_set : HTTPClient_ (config c) <> None.

(** X19. With [MaxRetries] from 0 to below the largest [int] and an HTTP
    client in the configuration (as [NewClient] leaves one), every one of
    the 36 operations of the client, [SendMessage], [SetChaosConfig] and
    [Close] among them, returns, whatever its arguments, the transport
    and the context do: none dereferences a nil pointer and none loops
    for ever (C10 has the other side: with a negative [MaxRetries] they
    panic). *)
Theorem operations_return :
  (forall opts, returns (ListMessages c w (MessagesResponse := MessagesResponse) opts))
  /\ (forall id, returns (GetMessage c w (Message := Message) id))
  /\ (forall id, returns (GetMessageSource c w id))
  /\ (forall id, returns (DeleteMessage c w id))
  /\ returns (DeleteAllMessages c w)
  /\ (forall query opts,
        returns (SearchMessages c w (MessagesResponse := MessagesResponse) query opts))
  /\ (forall id part, returns (GetMessageAttachment c w id part))
  /\ (forall id, returns (MarkMessageRead c w id))
  /\ (forall id, returns (MarkMessageUnread c w id))
  /\ (forall id, returns (GetMessageHeaders c w (Headers := Headers) id))
  /\ (forall id, returns (GetMessageHTMLCheck c w
                            (HTMLCheckResponse := HTMLCheckResponse) id))
  /\ (forall id, returns (GetMessageLinkCheck c w
                            (LinkCheckResponse := LinkCheckResponse) id))
  /\ (forall id, returns (GetMessageSpamAssassinCheck c w
                            (SpamAssassinCheckResponse := SpamAssassinCheckResponse) id))
  /\ (forall id part, returns (GetMessagePart c w id part))
  /\ (forall id part, returns (GetMessagePartThumbnail c w id part))
  /\ (forall id data, returns (ReleaseMessage c w id data))
  /\ (forall query, returns (DeleteSearchResults c w query))
  /\ (forall tags, returns (SetTags c w tags))
  /\ (forall tag ids, returns (SetMessageTags c w tag ids))
  /\ (forall tag, returns (DeleteTag c w tag))
  /\ (forall id, returns (GetMessageHTML c w id))
  /\ (forall id, returns (GetMessageText c w id))
  /\ (forall id, returns (GetMessageRaw c w id))
  /\ (forall id part, returns (GetMessagePartHTML c w id part))
  /\ (forall id part, returns (GetMessagePartText c w id part))
  /\ (forall id, returns (GetMessageEvents c w (EventsResponse := EventsResponse) id))
  /\ returns (GetServerInfo c w (ServerInfo := ServerInfo))
  /\ returns (HealthCheck c w)
  /\ returns (GetStats c w (Stats := Stats))
  /\ returns (GetTags c w)
  /\ returns (Ping c w)
  /\ returns (GetWebUIConfig c w (WebUIConfig := WebUIConfig))
  /\ returns (GetChaosConfig c w (ChaosResponse := ChaosResponse))
  /\ (forall message : option SendMessageRequest,
        returns (SendMessage c w (SendMessageResponse := SendMessageResponse)
                   message))
  /\ (forall config : option ChaosTriggers,
        returns (SetChaosConfig c w (ChaosResponse := ChaosResponse) config))
  /\ returns (Close c).
Proof.
  pose proof (fun method endpoint body =>
                makeRequest_delivered c w method endpoint body retries_in_range)
    as Hrun.
  unfold ListMessages, GetMessage, GetMessageSource, DeleteMessage,
    DeleteAllMessages, SearchMessages, GetMessageAttachment, MarkMessageRead,
    MarkMessageUnread, GetMessageHeaders, GetMessageHTMLCheck, GetMessageLinkCheck,
    GetMessageSpamAssassinCheck, GetMessagePart, GetMessagePartThumbnail,
    ReleaseMessage, DeleteSearchResults, SetTags, SetMessageTags, DeleteTag,
    GetMessageHTML, GetMessageText, GetMessageRaw, GetMessagePartHTML,
    GetMessagePartText, GetMessageEvents, GetServerInfo, HealthCheck, GetStats,
    GetTags, Ping, GetWebUIConfig, GetChaosConfig, SendMessage, SetChaosConfig,
    Close.
  repeat match goal with |- _ /\ _ => split end; intros;
    repeat match goal with
           | |- context [if ?b then _ else _] => destruct b
           | |- context [match ?x with Some _ => _ | None => _ end] => destruct x
           | |- context [match json.Encode ?e ?v with _ => _ end] =>
               destruct (json.Encode e v)
           | |- context [match json.Encode_ptr ?v with _ => _ end] =>
               destruct (json.Encode_ptr v)
           end;
    first [ apply invalid_returns | apply invalid__returns
          | by destruct http_client_set | by eexists
          | apply discard_returns, Hrun
          | apply read_body_returns, Hrun
          | apply decode_ptr_returns, Hrun
          | apply decode_value_returns, Hrun ].
Qed.

End OperationsReturn.

Lemma operations_return_witness :
  returns (HealthCheck (test_client 3) (mkWorld (scripted [] refused) background))
  /\ returns (GetTags (test_client 3)
                (mkWorld (scripted [] (respond 200 "not json")) background))
  /\ returns (Close (test_client 3)).
Proof.
  split; [|split].
  - apply (@operations_return (test_client 3)
             (mkWorld (scripted [] refused) background)
             (option (list string)) (option (list string)) (option (list string)) (option (list string))
             (option (list string)) (option (list string)) (option (list string)) (option (list string))
             (option (list string)) (option (list string)) (option (list string))
             string (option (list string)) string
             _ _ _ _ _ _ _ _ _ _ _ _ written_as_given written_as_given);
      [by vm_compute | done].
  - apply (@operations_return (test_client 3)
             (mkWorld (scripted [] (respond 200 "not json")) background)
             (option (list string)) (option (list string)) (option (list string)) (option (list string))
             (option (list string)) (option (list string)) (option (list string)) (option (list string))
             (option (list string)) (option (list string)) (option (list string))
             string (option (list string)) string
             _ _ _ _ _ _ _ _ _ _ _ _ written_as_given written_as_given);
      [by vm_compute | done].
  - apply (@operations_return (test_client 3)
             (mkWorld (scripted [] refused) background)
             (option (list string)) (option (list string)) (option (list string)) (option (list string))
             (option (list string)) (option (list string)) (option (list string)) (option (list string))
             (option (list string)) (option (list string)) (option (list string))
             string (option (list string)) string
             _ _ _ _ _ _ _ _ _ _ _ _ written_as_given written_as_given);
      [by vm_compute | done].
Defined.

Lemma failed_sticky (s : json.scanner) (c : ascii) :
  scan_failed s -> scan_failed (json.scan_step s c).1.
Proof.
  destruct s as [st et stack er]. unfold scan_failed. cbn. by intros [-> Her].
Qed.

Lemma run_app (a d : string) (s : json.scanner) (b : json.builder) :
  run s b (a +:+ d) = run (run s b a).1 (run s b a).2 d.
Proof.
  revert s b. induction a as [|c a IH]; intros s b; [done|].
  rewrite app_String. cbn [run]. destruct (json.scan_step s c) as [s1 op]. apply IH.
Qed.

Lemma run_failed (a : string) (s : json.scanner) (b : json.builder) :
  scan_failed s -> scan_failed (run s b a).1.
Proof.
  revert s b. induction a as [|c a IH]; intros s b Hs; [done|].
  cbn [run]. pose proof (failed_sticky s c Hs) as Hs'.
  destruct (json.scan_step s c) as [s1 op]. by apply IH.
Qed.

Lemma ok_not_failed (s : json.scanner) : scan_ok s -> scan_failed s -> False.
Proof. intros (_ & Hn & _) [Hf _]. done. Qed.

(** A scan that ends without an error met none. *)
Lemma run_valid (a d : string) (s : json.scanner) (b : json.builder) :
  scan_ok s -> scan_ok (run s b a).1 ->
  json.checkValid_from s (a +:+ d) = json.checkValid_from (run s b a).1 d.
Proof.
  revert s b. induction a as [|c a IH]; intros s b Hs Hend; [done|].
  rewrite app_String. cbn [run json.checkValid_from] in *.
  pose proof (step_ok s c Hs) as Hstep.
  destruct (json.scan_step s c) as [s1 op]. cbn [fst snd] in Hstep.
  destruct Hstep as [[Hs1 Hop] | Hbad].
  - rewrite <- (IH s1 (json.build_step b op c)) by done. by destruct op.
  - exfalso. eapply ok_not_failed; [exact Hend|]. by apply run_failed.
Qed.

Lemma parse_of_run (data : string) (s : json.scanner) (b : json.builder) :
  run json.reset (json.mkBuilder None None []) data = (s, b) ->
  scan_ok s -> json.eof s = None ->
  json.parse data = Some (default json.JNull (json.last (json.end_literal b))).
Proof.
  intros Hrun Hs Heof. unfold json.parse, json.checkValid, json.decode_tree.
  rewrite <- (app_Empty_r data).
  rewrite (run_valid data EmptyString _ (json.mkBuilder None None []) scan_ok_reset)
    by by rewrite Hrun.
  rewrite decode_run, Hrun. cbn [fst snd json.checkValid_from json.decode_from].
  by rewrite Heof.
Qed.

Lemma run_literal (t : string) (s s' : json.scanner) (item : string)
      (l : option json.JSON) (stk : list json.frame) :
  scan_literal s t = Some s' ->
  run s (json.mkBuilder (Some item) l stk) t
  = (s', json.mkBuilder (Some (item +:+ t)) l stk).
Proof.
  revert s item. induction t as [|c t IH]; intros s item.
  - intros [= ->]. by rewrite app_Empty_r.
  - cbn [scan_literal run]. destruct (json.scan_step s c) as [s1 []]; try done.
    intros Hlit. cbn [json.build_step json.lit json.last json.stack].
    rewrite (IH _ _ Hlit). f_equal. f_equal. f_equal.
    unfold str1. by rewrite string_app_assoc, app_String, app_Empty.
Qed.

Lemma scan_literal_app (a b : string) (s s1 s2 : json.scanner) :
  scan_literal s a = Some s1 -> scan_literal s1 b = Some s2 ->
  scan_literal s (a +:+ b) = Some s2.
Proof.
  revert s. induction a as [|c a IH]; intros s.
  - by intros [= ->].
  - rewrite app_String. cbn [scan_literal].
    destruct (json.scan_step s c) as [s' []]; try done. apply IH.
Qed.

(** One ASCII byte, as the encoder writes it, is read back as that byte. *)
Lemma encode_ascii_spec (c : ascii) (stack : list json.parseState) (rest : string) :
  byte_val c < 128 ->
  scan_literal (in_string stack) (json.encode_ascii c) = Some (in_string stack)
  /\ json.unquote (json.encode_ascii c +:+ rest) = String c (json.unquote rest).
Proof.
  destruct c as [[] [] [] [] [] [] [] []]; intros Hc;
    first [ by vm_compute in Hc | split; reflexivity ].
Qed.

Lemma high_byte_spec (c : ascii) (stack : list json.parseState) :
  128 <= byte_val c ->
  json.scan_step (in_string stack) c = (in_string stack, json.scanContinue)
  /\ byte_eqb c backslash = false.
Proof.
  destruct c as [[] [] [] [] [] [] [] []]; intros Hc;
    first [ by vm_compute in Hc | split; reflexivity ].
Qed.

Lemma second_ok_high (c c2 : ascii) : json.second_ok c c2 = true -> 128 <= byte_val c2.
Proof.
  unfold json.second_ok, json.cont_byte, in_range.
  repeat case_match; rewrite ?andb_true_iff, ?Z.leb_le;
    change (byte_val (byte_of 128)) with 128; lia.
Qed.

Lemma cont_byte_high (c : ascii) : json.cont_byte c = true -> 128 <= byte_val c.
Proof.
  unfold json.cont_byte, in_range. rewrite andb_true_iff, Z.leb_le.
  change (byte_val (byte_of 128)) with 128. lia.
Qed.

Lemma scan_high (c : ascii) (rest : string) (stack : list json.parseState) :
  128 <= byte_val c ->
  scan_literal (in_string stack) (String c rest)
  = scan_literal (in_string stack) rest.
Proof.
  intros Hc. cbn [scan_literal]. by rewrite (proj1 (high_byte_spec c stack Hc)).
Qed.

Lemma encode_string_body_eq (c : ascii) (rest : string) :
  json.encode_string_body (String c rest)
  = if byte_val c <? 128 then json.encode_ascii c +:+ json.encode_string_body rest
    else
      let bad := String backslash "ufffd" +:+ json.encode_string_body rest in
      match json.rune_len c, rest with
      | 2%nat, String c2 r2 =>
          if json.second_ok c c2
          then String c (String c2 (json.encode_string_body r2))
          else bad
      | 3%nat, String c2 (String c3 r3) =>
          if json.second_ok c c2 && json.cont_byte c3 then
            if (byte_val c =? 226) && (byte_val c2 =? 128)
               && ((byte_val c3 =? 168) || (byte_val c3 =? 169))
            then String backslash
                   ("u202" +:+ str1 (strconv.lowerhex (byte_val c3 mod 16)))
                 +:+ json.encode_string_body r3
            else String c (String c2 (String c3 (json.encode_string_body r3)))
          else bad
      | 4%nat, String c2 (String c3 (String c4 r4)) =>
          if json.second_ok c c2 && json.cont_byte c3 && json.cont_byte c4
          then String c (String c2 (String c3 (String c4 (json.encode_string_body r4))))
          else bad
      | _, _ => bad
      end.
Proof. reflexivity. Qed.

Lemma scan_bad (stack : list json.parseState) (rest : string) :
  scan_literal (in_string stack) (String backslash "ufffd" +:+ rest)
  = scan_literal (in_string stack) rest.
Proof. reflexivity. Qed.

(** The scanner reads what the encoder writes for a string as the inside
    of a string literal, whatever the bytes of the string. *)
Lemma scan_encoded_body (str : string) (stack : list json.parseState) :
  scan_literal (in_string stack) (json.encode_string_body str)
  = Some (in_string stack).
Proof.
  remember (String.length str) as n eqn:Hn.
  revert str Hn. induction n as [n IH] using lt_wf_ind. intros str Hn.
  destruct str as [|c rest]; [done|].
  assert (forall r, (String.length r < n)%nat ->
                    scan_literal (in_string stack) (json.encode_string_body r)
                    = Some (in_string stack)) as Hrec.
  { intros r Hr. by eapply IH. }
  cbn [String.length] in Hn.
  rewrite encode_string_body_eq.
  destruct (Z.ltb_spec (byte_val c) 128) as [Hc|Hc].
  { eapply scan_literal_app; [by apply encode_ascii_spec|]. apply Hrec. lia. }
  cbn zeta.
  assert (scan_literal (in_string stack)
            (String backslash "ufffd" +:+ json.encode_string_body rest)
          = Some (in_string stack)) as Hbad.
  { rewrite scan_bad. apply Hrec. lia. }
  destruct (json.rune_len c) as [|[|[|[|[|k]]]]]; try exact Hbad.
  - destruct rest as [|c2 r2]; [exact Hbad|].
    destruct (json.second_ok c c2) eqn:H2; [|exact Hbad].
    rewrite !scan_high by eauto using second_ok_high.
    apply Hrec. cbn [String.length] in Hn. lia.
  - destruct rest as [|c2 [|c3 r3]]; try exact Hbad.
    destruct (json.second_ok c c2) eqn:H2; [|exact Hbad].
    destruct (json.cont_byte c3) eqn:H3; [|exact Hbad]. cbn [andb].
    cbn [String.length] in Hn.
    destruct (_ && _).
    + eapply scan_literal_app; [|apply Hrec; lia].
      pose proof (byte_val_bounds c3) as Hb.
      assert (0 <= byte_val c3 mod 16 < 16) as Hm by (apply Z.mod_pos_bound; lia).
      assert (exists d, byte_val c3 mod 16 = Z.of_nat d /\ (d < 16)%nat) as (d & -> & Hd).
      { exists (Z.to_nat (byte_val c3 mod 16)). lia. }
      do 16 (destruct d as [|d]; [reflexivity|]). lia.
    + rewrite !scan_high by eauto using second_ok_high, cont_byte_high.
      apply Hrec. lia.
  - destruct rest as [|c2 [|c3 [|c4 r4]]]; try exact Hbad.
    destruct (json.second_ok c c2) eqn:H2; [|exact Hbad].
    destruct (json.cont_byte c3) eqn:H3; [|exact Hbad].
    destruct (json.cont_byte c4) eqn:H4; [|exact Hbad]. cbn [andb].
    cbn [String.length] in Hn.
    rewrite !scan_high by eauto using second_ok_high, cont_byte_high.
    apply Hrec. lia.
Qed.

Lemma unquote_high (c : ascii) (rest : string) :
  128 <= byte_val c ->
  json.unquote (String c rest)
  = let bad := json.EncodeRune json.RuneError +:+ json.unquote rest in
    match json.rune_len c, rest with
    | 2%nat, String c2 r2 =>
        if json.second_ok c c2 then String c (String c2 (json.unquote r2)) else bad
    | 3%nat, String c2 (String c3 r3) =>
        if json.second_ok c c2 && json.cont_byte c3
        then String c (String c2 (String c3 (json.unquote r3))) else bad
    | 4%nat, String c2 (String c3 (String c4 r4)) =>
        if json.second_ok c c2 && json.cont_byte c3 && json.cont_byte c4
        then String c (String c2 (String c3 (String c4 (json.unquote r4))))
        else bad
    | _, _ => bad
    end.
Proof.
  intros Hc. cbn [json.unquote].
  rewrite (proj2 (high_byte_spec c [] Hc)).
  by replace (byte_val c <? 128) with false by (symmetry; apply Z.ltb_ge; lia).
Qed.

(** Decoding what the encoder writes for a string of valid UTF-8 gives
    the string back. *)
Lemma unquote_encoded (str : string) :
  utf8_valid str = true -> json.unquote (json.encode_string_body str) = str.
Proof.
  remember (String.length str) as n eqn:Hn.
  revert str Hn. induction n as [n IH] using lt_wf_ind. intros str Hn.
  destruct str as [|c rest]; [done|].
  assert (forall r, (String.length r < n)%nat -> utf8_valid r = true ->
                    json.unquote (json.encode_string_body r) = r) as Hrec.
  { intros r Hr. by eapply IH. }
  cbn [String.length] in Hn.
  rewrite encode_string_body_eq. cbn [utf8_valid].
  destruct (Z.ltb_spec (byte_val c) 128) as [Hc|Hc].
  { intros Hv. rewrite (proj2 (encode_ascii_spec c [] _ Hc)), Hrec; [done | lia | done]. }
  cbn zeta.
  destruct (json.rune_len c) as [|[|[|[|[|k]]]]] eqn:Hlen; try done.
  - destruct rest as [|c2 r2]; [done|].
    intros [H2 Hv]%andb_prop. rewrite H2.
    rewrite unquote_high, Hlen, H2 by done. cbn [String.length] in Hn.
    rewrite Hrec; [done | lia | done].
  - destruct rest as [|c2 [|c3 r3]]; try done.
    intros [[H2 H3]%andb_prop Hv]%andb_prop. rewrite H2, H3. cbn [andb].
    cbn [String.length] in Hn.
    destruct (_ && _) eqn:Hsep.
    + apply andb_prop in Hsep as [[Hc1 Hc2]%andb_prop Hc3].
      apply Z.eqb_eq in Hc1, Hc2.
      assert (c = byte_of 226) as -> by (by rewrite <- (byte_of_val c), Hc1).
      assert (c2 = byte_of 128) as -> by (by rewrite <- (byte_of_val c2), Hc2).
      assert (c3 = byte_of 168 \/ c3 = byte_of 169) as [-> | ->].
      { apply orb_prop in Hc3 as [H%Z.eqb_eq | H%Z.eqb_eq];
          rewrite <- (byte_of_val c3), H; [by left | by right]. }
      * transitivity (String (byte_of 226) (String (byte_of 128)
                        (String (byte_of 168)
                           (json.unquote (json.encode_string_body r3)))));
          [reflexivity|]. rewrite Hrec; [done | lia | done].
      * transitivity (String (byte_of 226) (String (byte_of 128)
                        (String (byte_of 169)
                           (json.unquote (json.encode_string_body r3)))));
          [reflexivity|]. rewrite Hrec; [done | lia | done].
    + rewrite unquote_high, Hlen, H2, H3 by done. cbn [andb].
      rewrite Hrec; [done | lia | done].
  - destruct rest as [|c2 [|c3 [|c4 r4]]]; try done.
    intros [[[H2 H3]%andb_prop H4]%andb_prop Hv]%andb_prop. rewrite H2, H3, H4.
    cbn [andb]. cbn [String.length] in Hn.
    rewrite unquote_high, Hlen, H2, H3, H4 by done. cbn [andb].
    rewrite Hrec; [done | lia | done].
Qed.

Lemma substring_prefix (a b : string) :
  String.substring 0 (String.length a) (a +:+ b) = a.
Proof.
  induction a as [|c a IH]; [by destruct b|].
  rewrite app_String. cbn [String.length String.substring]. by rewrite IH.
Qed.

Lemma literal_value_string (str : string) :
  utf8_valid str = true ->
  json.literal_value (json.encode_string str) = json.JString str.
Proof.
  intros Hv. unfold json.encode_string, json.literal_value.
  change (byte_eqb quote_char quote_char) with true. cbn match.
  rewrite length_app_string. cbn [String.length str1].
  replace (String.length (json.encode_string_body str) + 1 - 1)%nat
    with (String.length (json.encode_string_body str)) by lia.
  by rewrite substring_prefix, unquote_encoded.
Qed.

(** The scanner reads an encoded string as one literal. *)
Lemma run_encoded_string (str : string) (st : json.step)
      (stack : list json.parseState) (stk : list json.frame) :
  begins_value st ->
  run (json.mkScanner st false stack None) (json.mkBuilder None None stk)
      (json.encode_string str)
  = (after_value stack, json.mkBuilder (Some (json.encode_string str)) None stk).
Proof.
  intros Hst. unfold json.encode_string.
  assert (scan_literal (in_string stack)
            (json.encode_string_body str +:+ str1 quote_char)
          = Some (after_value stack)) as Hlit.
  { eapply scan_literal_app; [apply scan_encoded_body | reflexivity]. }
  destruct Hst as [-> | ->]; cbn [run];
    change (json.scan_step _ quote_char)
      with (in_string stack, json.scanBeginLiteral);
    cbn [json.build_step json.end_literal json.lit json.stack];
    by rewrite (run_literal _ _ _ _ _ _ Hlit).
Qed.

Lemma depth_one : (1 <=? json.maxNestingDepth)%nat = true.
Proof. by vm_compute. Qed.

Lemma run_string_elements (tags : list string) (es : list json.JSON)
      (st : json.step) :
  begins_value st -> tags <> [] ->
  run (json.mkScanner st false [json.parseArrayValue] None)
      (json.mkBuilder None None [json.FArray es])
      (strings.Join (map json.encode_string tags) "," +:+ "]")
  = (json.mkScanner json.stateEndTop true [] None,
     json.mkBuilder None
       (Some (json.JArray
                (rev es ++ map (fun s => json.literal_value (json.encode_string s)) tags)))
       []).
Proof.
  revert es st. induction tags as [|t tags IH]; intros es st Hst Hne; [done|].
  destruct tags as [|t2 tags].
  - cbn [map strings.Join]. rewrite run_app, run_encoded_string by done.
    cbn [fst snd run]. change (json.scan_step (after_value _) "]")
      with (json.mkScanner json.stateEndTop true [] None, json.scanEndArray).
    by cbn [json.build_step json.end_literal json.lit json.stack json.last
            json.close_elems rev map run].
  - change (strings.Join (map json.encode_string (t :: t2 :: tags)) ",")
      with (json.encode_string t +:+ ","
            +:+ strings.Join (map json.encode_string (t2 :: tags)) ",").
    rewrite !string_app_assoc, run_app, run_encoded_string by done.
    cbn [fst snd]. rewrite app_String, app_Empty. cbn [run].
    change (json.scan_step (after_value [json.parseArrayValue]) ",")
      with (json.mkScanner json.stateBeginValue false [json.parseArrayValue] None,
            json.scanArrayValue).
    cbn [json.build_step json.end_literal json.lit json.stack json.last].
    rewrite IH by (done || by left). cbn [rev map]. by rewrite <- app_assoc.
Qed.

(** What the encoder writes for a slice of strings parses as the array of
    those strings. *)
Lemma parse_encoded_strings (tags : list string) :
  Forall (fun s => utf8_valid s = true) tags ->
  json.parse (json.encode_strings (Some tags) +:+ newline)
  = Some (json.JArray (map json.JString tags)).
Proof.
  intros Hvalid. destruct tags as [|t tags]; [by vm_compute|].
  assert (run json.reset (json.mkBuilder None None [])
            (json.encode_strings (Some (t :: tags)) +:+ newline)
          = (json.mkScanner json.stateEndTop true [] None,
             json.mkBuilder None
               (Some (json.JArray
                        (map (fun s => json.literal_value (json.encode_string s))
                             (t :: tags))))
               [])) as Hrun.
  { unfold json.encode_strings. rewrite !string_app_assoc, app_String, app_Empty.
    cbn [run]. unfold json.reset at 1.
    change (json.scan_step _ "[")
      with (json.pushParseState json.reset "[" json.stateBeginValueOrEmpty
              json.parseArrayValue json.scanBeginArray).
    unfold json.pushParseState. cbn [length json.parseStack json.reset].
    rewrite depth_one. cbn [json.build_step json.end_literal json.lit json.stack].
    rewrite <- string_app_assoc, run_app.
    rewrite run_string_elements by (done || by right).
    cbn [fst snd rev app]. unfold newline, str1. cbn [run].
    change (json.scan_step _ (byte_of 10))
      with (json.mkScanner json.stateEndTop true [] None, json.scanEnd).
    reflexivity. }
  rewrite (parse_of_run _ _ _ Hrun); [|by repeat split|done].
  change (Some (json.JArray
                  (map (fun s => json.literal_value (json.encode_string s))
                       (t :: tags)))
          = Some (json.JArray (map json.JString (t :: tags)))).
  do 2 f_equal. apply map_ext_in. intros s Hs.
  apply literal_value_string.
  by apply (proj1 (List.Forall_forall _ _) Hvalid).
Qed.

Lemma decode_string_elems (ts : list string) :
  json.decode_elems EmptyString json.decode_string (map json.JString ts)
  = (ts, None).
Proof.
  induction ts as [|t ts IH]; [done|].
  cbn [map json.decode_elems json.decode_string]. by rewrite IH.
Qed.

Lemma Unmarshal_parsed_with {T : Type} (decode : json.JSON -> T -> T * option LibError)
      (data : string) (v : json.JSON) (cur : T) :
  json.parse data = Some v -> json.Unmarshal_with decode data cur = decode v cur.
Proof.
  unfold json.parse, json.Unmarshal_with.
  destruct (json.checkValid data); [done|]. by intros [= <-].
Qed.

(** X17. What [SetTags] writes for a slice of strings of valid UTF-8
    (nil, empty or not) is valid JSON that [json.Unmarshal] decodes into a
    fresh [[]string] as that same slice; so [GetTags] returns the slice
    when the server answers with those bytes. *)
Theorem tags_round_trip (tags : option (list string)) :
  (forall ts, tags = Some ts -> Forall (fun s => utf8_valid s = true) ts) ->
  exists body,
    json.Encode json.encode_strings tags = inl body
    /\ json.Valid body = true
    /\ json.Unmarshal body (None : option (list string)) = (tags, None)
    /\ forall (c : client) (w : World) (resp : http.Response),
         0 <= MaxRetries (config c) ->
         200 <= http.StatusCode resp < 300 ->
         http.RespBody resp = http.mkBody body None ->
         answers c w http.MethodGet "/tags" None resp ->
         GetTags c w = (Returns (tags, None), 1%nat).
Proof.
  intros Hvalid. eexists. split; [reflexivity|].
  assert (json.parse (json.encode_strings tags +:+ str1 (byte_of 10))
          = Some (match tags with
                  | Some ts => json.JArray (map json.JString ts)
                  | None => json.JNull
                  end)) as Hparse.
  { destruct tags as [ts|]; [|by vm_compute].
    by apply parse_encoded_strings, Hvalid. }
  assert (json.Unmarshal (json.encode_strings tags +:+ str1 (byte_of 10))
            (None : option (list string)) = (tags, None)) as Hdecode.
  { cbn [json.Unmarshal strings_Target].
    rewrite (Unmarshal_parsed_with _ _ _ _ Hparse).
    destruct tags as [ts|]; [|done].
    cbn [json.decode_slice]. by rewrite decode_string_elems. }
  split; [|split; [exact Hdecode|]].
  - revert Hparse. unfold json.parse, json.Valid.
    by destruct (json.checkValid _).
  - intros c w resp HM Hs Hbody Hrun%first_call_2xx; [|done..].
    unfold GetTags, decode_value, after_request, parseResponse.
    rewrite Hrun, Hbody. cbn [http.readErr http.content json.zero strings_Target].
    rewrite length_app_string. cbn [String.length str1].
    replace (String.length (json.encode_strings tags) + 1 =? 0)%nat with false
      by (symmetry; apply Nat.eqb_neq; lia).
    change (json.Unmarshal_with
              (json.decode_slice EmptyString json.decode_string "[]string")
              (json.encode_strings tags +:+ str1 (byte_of 10)) None)
      with (json.Unmarshal (json.encode_strings tags +:+ str1 (byte_of 10))
              (None : option (list string))).
    by rewrite Hdecode.
Qed.

Lemma tags_round_trip_witness :
  exists body,
    json.Encode json.encode_strings (Some ["inbox"; "a<b"]%string) = inl body
    /\ json.Unmarshal body (None : option (list string))
       = (Some ["inbox"; "a<b"]%string, None).
Proof.
  destruct (tags_round_trip (Some ["inbox"; "a<b"]%string)) as (body & Henc & _ & Hdec & _).
  - intros ts [= <-]. by repeat constructor.
  - by exists body.
Defined.

Lemma all_digits_app (a b : string) :
  url.all_digits (a +:+ b) = url.all_digits a && url.all_digits b.
Proof.
  induction a as [|c a IH]; [done|].
  rewrite app_String. cbn [url.all_digits]. by rewrite IH, andb_assoc.
Qed.

(** The decimal digits of a positive number: a first digit that is not
    zero, then digits. *)
Lemma digits_shape (fuel : nat) (n : Z) (acc : string) :
  0 < n < 10 ^ Z.of_nat fuel ->
  exists d ds, strconv.digits fuel n acc = String (strconv.digit_char d) (ds +:+ acc)
               /\ 1 <= d <= 9 /\ url.all_digits ds = true.
Proof.
  revert n acc. induction fuel as [|fuel IH]; intros n acc Hn.
  { cbn in Hn. lia. }
  cbn [strconv.digits]. destruct (Z.ltb_spec n 10) as [Hsmall|Hbig].
  - exists n, EmptyString. rewrite Z.mod_small by lia. split; [done|]. split; [lia|done].
  - destruct (IH (n / 10) (String (strconv.digit_char (n mod 10)) acc))
      as (d & ds & -> & Hd & Hds).
    { split; [apply Z.div_str_pos; lia|].
      apply Z.div_lt_upper_bound; [lia|].
      replace (Z.of_nat (S fuel)) with (Z.succ (Z.of_nat fuel)) in Hn by lia.
      rewrite Z.pow_succ_r in Hn by lia. lia. }
    exists d, (ds +:+ str1 (strconv.digit_char (n mod 10))).
    split; [|split; [done|]].
    + unfold str1. by rewrite string_app_assoc, app_String, app_Empty.
    + rewrite all_digits_app, Hds. cbn [url.all_digits str1 andb].
      destruct (digit_char_spec (n mod 10)) as (-> & _);
        [apply Z.mod_pos_bound; lia | done].
Qed.

Lemma Itoa_shape (n : Z) :
  n = 0 /\ strconv.Itoa n = "0"%string
  \/ exists d ds, 1 <= d <= 9 /\ url.all_digits ds = true
       /\ (strconv.Itoa n = String (strconv.digit_char d) ds
           \/ strconv.Itoa n = String "-" (String (strconv.digit_char d) ds)).
Proof.
  destruct (Z.lt_trichotomy n 0) as [Hneg | [-> | Hpos]]; [|by left|].
  - right. unfold strconv.Itoa, strconv.FormatUint.
    replace (n <? 0) with true by (symmetry; apply Z.ltb_lt; lia).
    destruct (digits_shape (S (Z.to_nat (Z.log2 (- n)))) (- n) EmptyString)
      as (d & ds & -> & Hd & Hds);
      [split; [lia | apply FormatUint_fuel; lia]|].
    exists d, ds. rewrite app_Empty_r. split; [lia|]. split; [done|]. by right.
  - right. unfold strconv.Itoa, strconv.FormatUint.
    replace (n <? 0) with false by (symmetry; apply Z.ltb_ge; lia).
    destruct (digits_shape (S (Z.to_nat (Z.log2 n))) n EmptyString)
      as (d & ds & -> & Hd & Hds);
      [split; [lia | apply FormatUint_fuel; lia]|].
    exists d, ds. rewrite app_Empty_r. split; [lia|]. split; [done|]. by left.
Qed.

Lemma scan_digits (ds : string) (stack : list json.parseState) :
  url.all_digits ds = true ->
  scan_literal (in_number false stack) ds = Some (in_number false stack).
Proof.
  induction ds as [|c ds IH]; [done|]. cbn [url.all_digits scan_literal].
  intros [Hc Hds]%andb_prop. unfold json.scan_step. cbn [json.next in_number].
  rewrite Hc. by apply IH.
Qed.

Lemma nonzero_digit_cases (d : Z) :
  1 <= d <= 9 ->
  d = 1 \/ d = 2 \/ d = 3 \/ d = 4 \/ d = 5 \/ d = 6 \/ d = 7 \/ d = 8 \/ d = 9.
Proof. lia. Qed.

(** The scanner reads a decimal number as one literal, which stays open
    until the byte after it. *)
Lemma run_number (n : Z) (stack : list json.parseState) (stk : list json.frame) :
  exists zero,
    run (json.mkScanner json.stateBeginValue false stack None)
        (json.mkBuilder None None stk) (strconv.Itoa n)
    = (in_number zero stack, json.mkBuilder (Some (strconv.Itoa n)) None stk)
    /\ json.literal_value (strconv.Itoa n) = json.JNumber (strconv.Itoa n).
Proof.
  destruct (Itoa_shape n) as [[-> ->] | (d & ds & Hd & Hds & [-> | ->])].
  - by exists true.
  - exists false.
    pose proof (scan_digits ds stack Hds) as Hlit.
    destruct (nonzero_digit_cases d Hd) as [->|[->|[->|[->|[->|[->|[->|[->| ->]]]]]]]];
      (split; [|reflexivity]); cbn [run];
      change (json.scan_step _ (strconv.digit_char _))
        with (in_number false stack, json.scanBeginLiteral);
      cbn [json.build_step json.end_literal json.lit json.stack];
      by rewrite (run_literal _ _ _ _ _ _ Hlit).
  - exists false.
    pose proof (scan_digits ds stack Hds) as Hlit.
    assert (scan_literal (json.mkScanner json.stateNeg false stack None)
              (String (strconv.digit_char d) ds)
            = Some (in_number false stack)) as Hneg.
    { cbn [scan_literal].
      by destruct (nonzero_digit_cases d Hd)
        as [->|[->|[->|[->|[->|[->|[->|[->| ->]]]]]]]]. }
    split; [|reflexivity].
    change (String "-" (String (strconv.digit_char d) ds))
      with ("-" +:+ String (strconv.digit_char d) ds).
    rewrite run_app.
    change (run _ _ "-")
      with (json.mkScanner json.stateNeg false stack None,
            json.mkBuilder (Some "-"%string) None stk).
    cbn [fst snd]. by rewrite (run_literal _ _ _ _ _ _ Hneg).
Qed.

Section AttachmentText.

Variable es : list json.JSON.

Let inside : list json.parseState := [json.parseObjectValue; json.parseArrayValue].

Lemma run_object_open (st : json.step) :
  begins_value st ->
  run (json.mkScanner st false [json.parseArrayValue] None)
      (json.mkBuilder None None [json.FArray es])
      ("{" +:+ json.encode_string "PartID" +:+ ":")
  = (json.mkScanner json.stateBeginValue false inside None,
     json.mkBuilder None None [json.FObject [] (Some "PartID"%string); json.FArray es]).
Proof. by intros [-> | ->]; vm_compute. Qed.

Lemma run_object_key (key : string) (lit k0 : string)
      (ms : list (string * json.JSON)) :
  key = "FileName"%string \/ key = "ContentType"%string \/ key = "Size"%string ->
  run (after_value inside)
      (json.mkBuilder (Some lit) None [json.FObject ms (Some k0); json.FArray es])
      ("," +:+ json.encode_string key +:+ ":")
  = (json.mkScanner json.stateBeginValue false inside None,
     json.mkBuilder None None
       [json.FObject ((k0, json.literal_value lit) :: ms) (Some key); json.FArray es]).
Proof. by intros [-> | [-> | ->]]. Qed.

Lemma run_object_close (zero : bool) (lit k0 : string)
      (ms : list (string * json.JSON)) :
  run (in_number zero inside)
      (json.mkBuilder (Some lit) None [json.FObject ms (Some k0); json.FArray es])
      "}"
  = (after_value [json.parseArrayValue],
     json.mkBuilder None
       (Some (json.JObject (rev ((k0, json.literal_value lit) :: ms))))
       [json.FArray es]).
Proof. by destruct zero. Qed.

(** The scanner reads a marshalled attachment as one object of four
    members. *)
Lemma run_attachment (a : Attachment) (st : json.step) :
  begins_value st ->
  run (json.mkScanner st false [json.parseArrayValue] None)
      (json.mkBuilder None None [json.FArray es]) (encode_Attachment a)
  = (after_value [json.parseArrayValue],
     json.mkBuilder None
       (Some (json.JObject
                [("PartID"%string, json.literal_value (json.encode_string (PartID a)));
                 ("FileName"%string, json.literal_value (json.encode_string (FileName a)));
                 ("ContentType"%string,
                  json.literal_value (json.encode_string (ContentType a)));
                 ("Size"%string, json.JNumber (strconv.Itoa (Size a)))]))
       [json.FArray es]).
Proof.
  intros Hst.
  change (encode_Attachment a)
    with (("{" +:+ json.encode_string "PartID" +:+ ":")
          +:+ json.encode_string (PartID a)
          +:+ ("," +:+ json.encode_string "FileName" +:+ ":")
          +:+ json.encode_string (FileName a)
          +:+ ("," +:+ json.encode_string "ContentType" +:+ ":")
          +:+ json.encode_string (ContentType a)
          +:+ ("," +:+ json.encode_string "Size" +:+ ":")
          +:+ strconv.Itoa (Size a) +:+ "}").
  rewrite run_app, (run_object_open st Hst). cbn [fst snd].
  rewrite run_app, run_encoded_string by by left. cbn [fst snd].
  rewrite run_app, run_object_key by auto. cbn [fst snd].
  rewrite run_app, run_encoded_string by by left. cbn [fst snd].
  rewrite run_app, run_object_key by auto. cbn [fst snd].
  rewrite run_app, run_encoded_string by by left. cbn [fst snd].
  rewrite run_app, run_object_key by auto. cbn [fst snd].
  destruct (run_number (Size a) inside
              [json.FObject
                 [("ContentType"%string,
                   json.literal_value (json.encode_string (ContentType a)));
                  ("FileName"%string,
                   json.literal_value (json.encode_string (FileName a)));
                  ("PartID"%string,
                   json.literal_value (json.encode_string (PartID a)))]
                 (Some "Size"%string); json.FArray es])
    as (zero & Hnum & Hval).
  rewrite run_app, Hnum. cbn [fst snd].
  rewrite run_object_close, Hval. reflexivity.
Qed.

End AttachmentText.

Lemma run_attachments (xs : list Attachment) (es : list json.JSON) (st : json.step) :
  begins_value st -> xs <> [] ->
  Forall (fun a => attachment_valid a = true) xs ->
  run (json.mkScanner st false [json.parseArrayValue] None)
      (json.mkBuilder None None [json.FArray es])
      (strings.Join (map encode_Attachment xs) "," +:+ "]")
  = (json.mkScanner json.stateEndTop true [] None,
     json.mkBuilder None
       (Some (json.JArray (rev es ++ map attachment_object xs))) []).
Proof.
  intros Hst Hne Hvalid. revert es st Hst Hne.
  induction Hvalid as [|a xs Ha Hxs IH]; intros es st Hst Hne; [done|].
  assert (json.JObject
            [("PartID"%string, json.literal_value (json.encode_string (PartID a)));
             ("FileName"%string, json.literal_value (json.encode_string (FileName a)));
             ("ContentType"%string,
              json.literal_value (json.encode_string (ContentType a)));
             ("Size"%string, json.JNumber (strconv.Itoa (Size a)))]
          = attachment_object a) as Hobject.
  { unfold attachment_valid in Ha.
    apply andb_prop in Ha as [[[H1 H2]%andb_prop H3]%andb_prop _].
    by rewrite !literal_value_string. }
  destruct xs as [|a2 xs].
  - cbn [map strings.Join]. rewrite run_app, run_attachment, Hobject by done.
    cbn [fst snd run]. change (json.scan_step (after_value _) "]")
      with (json.mkScanner json.stateEndTop true [] None, json.scanEndArray).
    by cbn [json.build_step json.end_literal json.lit json.stack json.last
            json.close_elems rev map run].
  - change (strings.Join (map encode_Attachment (a :: a2 :: xs)) ",")
      with (encode_Attachment a +:+ ","
            +:+ strings.Join (map encode_Attachment (a2 :: xs)) ",").
    rewrite !string_app_assoc, run_app, run_attachment, Hobject by done.
    cbn [fst snd]. rewrite app_String, app_Empty. cbn [run].
    change (json.scan_step (after_value [json.parseArrayValue]) ",")
      with (json.mkScanner json.stateBeginValue false [json.parseArrayValue] None,
            json.scanArrayValue).
    cbn [json.build_step json.end_literal json.lit json.stack json.last].
    rewrite IH by (done || by left). cbn [rev map]. by rewrite <- app_assoc.
Qed.

Lemma parse_encoded_attachments (xs : list Attachment) :
  Forall (fun a => attachment_valid a = true) xs ->
  json.parse (encode_AttachmentList (Some xs))
  = Some (json.JArray (map attachment_object xs)).
Proof.
  intros Hvalid. destruct xs as [|a xs]; [by vm_compute|].
  assert (run json.reset (json.mkBuilder None None [])
            (encode_AttachmentList (Some (a :: xs)))
          = (json.mkScanner json.stateEndTop true [] None,
             json.mkBuilder None
               (Some (json.JArray (map attachment_object (a :: xs)))) [])) as Hrun.
  { unfold encode_AttachmentList. rewrite app_String, app_Empty.
    cbn [run]. unfold json.reset at 1.
    change (json.scan_step _ "[")
      with (json.pushParseState json.reset "[" json.stateBeginValueOrEmpty
              json.parseArrayValue json.scanBeginArray).
    unfold json.pushParseState. cbn [length json.parseStack json.reset].
    rewrite depth_one. cbn [json.build_step json.end_literal json.lit json.stack].
    by rewrite run_attachments by (done || by right). }
  by rewrite (parse_of_run _ _ _ Hrun).
Qed.

(** X18. What [json.Marshal] writes for an [AttachmentList] (nil, empty
    or not) whose strings are valid UTF-8 is valid JSON that
    [json.Unmarshal], through [UnmarshalJSON], decodes as that same list,
    whatever the target held. *)
Theorem AttachmentList_round_trip (al cur : AttachmentList) :
  (forall xs, al = Some xs -> Forall (fun a => attachment_valid a = true) xs) ->
  json.Valid (encode_AttachmentList al) = true
  /\ Unmarshal_AttachmentList (encode_AttachmentList al) cur = (al, None).
Proof.
  intros Hvalid.
  assert (json.parse (encode_AttachmentList al)
          = Some (match al with
                  | Some xs => json.JArray (map attachment_object xs)
                  | None => json.JNull
                  end)) as Hparse.
  { destruct al as [xs|]; [|by vm_compute].
    by apply parse_encoded_attachments, Hvalid. }
  split.
  - revert Hparse. unfold json.parse, json.Valid.
    by destruct (json.checkValid _).
  - rewrite (Unmarshal_parsed _ _ cur Hparse).
    destruct al as [xs|]; [|done].
    cbn [json.decode_slice]. fold (decode_attachments (map attachment_object xs)).
    rewrite (decode_elems_Forall2 _ xs); [done|].
    specialize (Hvalid xs eq_refl). clear Hparse.
    induction Hvalid as [|a xs Ha _ IH]; cbn [map]; constructor; [|done].
    apply decode_attachment_object.
    unfold attachment_valid in Ha. by apply andb_prop in Ha as [_ Ha].
Qed.

Lemma AttachmentList_round_trip_witness :
  Unmarshal_AttachmentList (encode_AttachmentList (Some sample_attachments)) None
  = (Some sample_attachments, None).
Proof.
  apply (AttachmentList_round_trip (Some sample_attachments) None).
  intros xs [= <-]. by repeat constructor.
Defined.
